(** * NodeConductor: state-transition executor, instance actions, quota sums
      and permission scope filter

    A shallow embedding of
      - [nodeconductor/core/tasks.py]   ([set_state], [tracked_processing]),
      - [nodeconductor/iaas/views.py]   ([InstanceViewSet], [SshKeyViewSet],
                                         [QuotaStatsView.get_sum_of_quotas]),
    together with the properties the specification states about them. *)

From Stdlib Require Import Ascii.
From stdpp Require Import gmap strings list fin_maps.

#[local] Set Warnings "-clear-no-such-hyp,-register-all".

Local Open Scope string_scope.
Local Open Scope Z_scope.
Local Open Scope list_scope.

(** ** Exceptions, results, and the world the code runs in *)

(** The Python exception classes that the modelled code raises or catches. *)
Inductive exn : Type :=
  | DoesNotExist            (* model_class.DoesNotExist *)
  | DatabaseError           (* django.db.DatabaseError *)
  | TransitionNotAllowed    (* django_fsm.TransitionNotAllowed *)
  | StateChangeError        (* core.tasks.StateChangeError *)
  | AttributeError (name : string)
  | KeyError (key : string)
  | IndexError
  | PermissionDenied        (* rest_framework.exceptions.PermissionDenied *)
  | Http404
  | OtherException (what : string).

#[global] Instance exn_eq_dec : EqDecision exn.
Proof. solve_decision. Defined.

(** [TypeError], one of the other exceptions. *)
Definition TypeError : exn := OtherException "TypeError".

Inductive result (A : Type) : Type :=
  | Ok (a : A)
  | Raise (e : exn).
Arguments Ok {A} a.
Arguments Raise {A} e.

Definition is_ok {A} (r : result A) : bool :=
  match r with Ok _ => true | Raise _ => false end.

(** A record handed to [logging]: the lazily formatted template with its
    arguments.  [event_logger] is an [EventLoggerAdapter] around the very same
    logger; its records are the audit/event records and carry [is_event]. *)
Inductive Level := INFO | ERROR.

Record LogRecord := mkLogRecord {
  level    : Level;
  is_event : bool;
  template : string;
  log_args : list string
}.

(** A task handed to the external task queue by [task.delay]. *)
Record Task := mkTask {
  task_name   : string;
  task_args   : list string;
  task_kwargs : list (string * string)
}.

(** The world: the table of the model class (rows addressed by the identifier
    the code looks them up with, [uuid] when the model has one and [pk]
    otherwise), the log, the task queue, and the storage layer's oracle: one
    boolean per commit still to come, [true] when that commit is lost to a
    conflicting write and surfaces as [DatabaseError]. *)
Record World (E : Type) := mkWorld {
  rows   : gmap string E;
  log    : list LogRecord;
  queue  : list Task;
  faults : list bool
}.
Arguments mkWorld {E} _ _ _ _.
Arguments rows {E} _.
Arguments log {E} _.
Arguments queue {E} _.
Arguments faults {E} _.

Definition events {E} (w : World E) : list LogRecord :=
  filter (fun r => is_event r = true) (log w).

(** Stateful, fallible computations. *)
Definition M (E A : Type) : Type := World E -> result A * World E.

#[global] Instance M_ret {E} : MRet (M E) := fun A a w => (Ok a, w).
#[global] Instance M_bind {E} : MBind (M E) := fun A B f m w =>
  match m w with
  | (Ok a, w') => f a w'
  | (Raise e, w') => (Raise e, w')
  end.

Definition raise {E A} (e : exn) : M E A := fun w => (Raise e, w).

(** [try: body except e: handler e] *)
Definition try_except {E A} (body : M E A) (handler : exn -> M E A) : M E A :=
  fun w =>
    match body w with
    | (Ok a, w') => (Ok a, w')
    | (Raise e, w') => handler e w'
    end.

(** [try: body except e: handler e else: orelse]; the [else] suite runs only
    after a body that did not raise, and is not guarded by the handler. *)
Definition try_except_else {E A B} (body : M E A) (handler : exn -> M E B)
    (orelse : M E B) : M E B :=
  fun w =>
    match body w with
    | (Ok _, w') => orelse w'
    | (Raise e, w') => handler e w'
    end.

Definition emit {E} (r : LogRecord) : M E unit :=
  fun w => (Ok tt, mkWorld (rows w) (log w ++ [r]) (queue w) (faults w)).

Definition logger_info {E} (t : string) (args : list string) : M E unit :=
  emit (mkLogRecord INFO false t args).
Definition logger_error {E} (t : string) (args : list string) : M E unit :=
  emit (mkLogRecord ERROR false t args).
(** [logger.exception] logs at level ERROR (with the traceback attached). *)
Definition logger_exception {E} (t : string) (args : list string) : M E unit :=
  emit (mkLogRecord ERROR false t args).
Definition event_logger_info {E} (t : string) (args : list string) : M E unit :=
  emit (mkLogRecord INFO true t args).

(** [task.delay(...)]: fire-and-forget hand-off to the queue. *)
Definition delay {E} (t : Task) : M E unit :=
  fun w => (Ok tt, mkWorld (rows w) (log w) (queue w ++ [t]) (faults w)).

(** *** Storage *)

(** [model_class._default_manager.get], by [uuid] or by [pk] *)
Definition objects_get {E} (key : string) : M E E :=
  fun w =>
    match rows w !! key with
    | Some e => (Ok e, w)
    | None => (Raise DoesNotExist, w)
    end.

(** The write of [entity.save()] inside an open transaction. *)
Definition write_row {E} (key : string) (e : E) : M E unit :=
  fun w => (Ok tt, mkWorld (<[key := e]> (rows w)) (log w) (queue w) (faults w)).

(** Commit: asks the storage oracle whether the commit is lost. *)
Definition commit {E} : M E unit :=
  fun w =>
    match faults w with
    | true :: fs => (Raise DatabaseError, mkWorld (rows w) (log w) (queue w) fs)
    | false :: fs => (Ok tt, mkWorld (rows w) (log w) (queue w) fs)
    | [] => (Ok tt, w)
    end.

(** Rollback restores the table as it was when the transaction began; the
    log, the queue and the oracle are not transactional. *)
Definition rollback {E} (before after : World E) : World E :=
  mkWorld (rows before) (log after) (queue after) (faults after).

(** [with transaction.atomic(): body] *)
Definition atomic {E A} (body : M E A) : M E A :=
  fun w =>
    match body w with
    | (Ok a, w1) =>
        match commit w1 with
        | (Ok _, w2) => (Ok a, w2)
        | (Raise e, w2) => (Raise e, rollback w w2)
        end
    | (Raise e, w1) => (Raise e, rollback w w1)
    end.

(** [entity.save()] outside any transaction block: autocommit wraps the single
    write in a transaction of its own. *)
Definition save {E} (key : string) (e : E) : M E unit :=
  atomic (write_row key e).

(** ** The model class and its transition table (django_fsm) *)

(** [source] of a [@transition]: the wildcard or an explicit set of states. *)
Inductive Source (St : Type) : Type :=
  | AnyState
  | OneOf (l : list St).
Arguments AnyState {St}.
Arguments OneOf {St} l.

Record Transition (St : Type) := mkTransition {
  source : Source St;
  target : St
}.
Arguments mkTransition {St} _ _.
Arguments source {St} _.
Arguments target {St} _.

(** What [getattr] finds on an entity under a name that is no [@transition]
    method: another method, with what calling it without arguments does to
    the entity in memory and to the table (or the exception it raises), or a
    value that cannot be called. *)
Inductive Attribute (E : Type) : Type :=
  | Method (call : E -> gmap string E -> result (E * gmap string E))
  | Value.
Arguments Method {E} call.
Arguments Value {E}.

(** What [set_state] uses of a model class: [_meta.model_name], the FSM field
    of an entity, the [@transition] methods that [getattr] finds on it, and
    the other attributes that [getattr] finds on it. *)
Record ModelClass (E St : Type) := mkModelClass {
  model_name  : string;
  get_state   : E -> St;
  put_state   : St -> E -> E;
  transitions : list (string * Transition St);
  attributes  : list (string * Attribute E)
}.
Arguments mkModelClass {E St} _ _ _ _ _.
Arguments model_name {E St} _.
Arguments get_state {E St} _ _.
Arguments put_state {E St} _ _ _.
Arguments transitions {E St} _.
Arguments attributes {E St} _.

(** Python dictionary / attribute lookup by name in declaration order. *)
Fixpoint assoc {V} (k : string) (l : list (string * V)) : option V :=
  match l with
  | [] => None
  | (k', v) :: l' => if decide (k = k') then Some v else assoc k l'
  end.

(** [transition.replace('_', ' ')] *)
Fixpoint replace_underscores (s : string) : string :=
  match s with
  | EmptyString => EmptyString
  | String c s' =>
      String (if decide (c = "_"%char) then " "%char else c)
             (replace_underscores s')
  end.

Section executor.
Context {E St : Type} `{EqDecision St}.

Definition allowed (s : Source St) (cur : St) : bool :=
  match s with
  | AnyState => true
  | OneOf l => bool_decide (cur ∈ l)
  end.

(** Calling a [@transition] method: django_fsm refuses a current state that
    is not among the declared sources, otherwise the (empty) method body
    runs and the FSM field of the in-memory entity becomes the target. *)
Definition call_transition (mc : ModelClass E St) (t : Transition St) (e : E)
    : M E E :=
  if allowed (source t) (get_state mc e)
  then mret (put_state mc (target t) e)
  else raise TransitionNotAllowed.

(** Calling another method of the entity without arguments. *)
Definition call_method
    (call : E -> gmap string E -> result (E * gmap string E)) (e : E) : M E E :=
  fun w =>
    match call e (rows w) with
    | Ok (e', table) => (Ok e', mkWorld table (log w) (queue w) (faults w))
    | Raise x => (Raise x, w)
    end.

(** [getattr(entity, transition)]: the attribute of that name, as what
    calling it without arguments does; [AttributeError] when the entity has
    no attribute of that name, and an attribute that is not callable raises
    [TypeError] when it is called. *)
Definition getattr_transition (mc : ModelClass E St) (name : string)
    : M E (E -> M E E) :=
  match assoc name (transitions mc) with
  | Some t => mret (call_transition mc t)
  | None =>
      match assoc name (attributes mc) with
      | Some (Method call) => mret (call_method call)
      | Some Value => mret (fun _ => raise TypeError)
      | None => raise (AttributeError name)
      end
  end.

(** [core.tasks.set_state] *)
Definition set_state (mc : ModelClass E St) (uuid_or_pk : string)
    (transition : string) : M E unit :=
  let logged_operation := replace_underscores transition in
  let entity_name := model_name mc in
  logger_info "About to %s %s with id %s"
              [logged_operation; entity_name; uuid_or_pk] ;;
  try_except
    (atomic (
       entity ← objects_get uuid_or_pk;
       transition ← getattr_transition mc transition;
       entity' ← transition entity;
       write_row uuid_or_pk entity'))
    (fun e =>
       match e with
       | DoesNotExist =>
           logger_error "Could not %s %s with id %s. Instance has gone"
                        [logged_operation; entity_name; uuid_or_pk] ;;
           raise StateChangeError
       | DatabaseError =>
           logger_error "Could not %s %s with id %s due to concurrent update"
                        [logged_operation; entity_name; uuid_or_pk] ;;
           raise StateChangeError
       | TransitionNotAllowed =>
           logger_error "Could not %s %s with id %s, transition not allowed"
                        [logged_operation; entity_name; uuid_or_pk] ;;
           raise StateChangeError
       | _ => raise e
       end) ;;
  logger_info "Managed to %s %s with id %s"
              [logged_operation; entity_name; uuid_or_pk] ;;
  event_logger_info "Finished to %s %s with id %s"
                    [logged_operation; entity_name; uuid_or_pk].

(** [core.tasks.tracked_processing]: the decorator applied to
    [processing_fn]; [args] are the positional arguments of the call. *)
Definition tracked_processing (mc : ModelClass E St)
    (processing_state desired_state error_state : string)
    (processing_fn : list string -> M E unit) (args : list string)
    : M E unit :=
  match args with
  | [] => raise IndexError
  | uuid_or_pk :: _ =>
      let set_entity_state := set_state mc uuid_or_pk in
      try_except
        (set_entity_state processing_state ;;
         try_except_else
           (processing_fn args)
           (fun _ =>
              logger_exception "Failed to %s %s with id %s"
                [processing_state; model_name mc; uuid_or_pk] ;;
              set_entity_state error_state)
           (set_entity_state desired_state))
        (fun e =>
           match e with
           | StateChangeError => mret tt
           | _ => raise e
           end)
  end.

(** The default of the keyword argument [error_state]. *)
Definition default_error_state : string := "set_erred".

End executor.

(** ** iaas: VM instances and their action endpoints *)

(** Modelled from the spec: [Instance.States], the state enum of
    iaas/models.py, which is not among the sources; the views name
    [States.OFFLINE] and [States.DELETING]. *)
Inductive InstanceState : Type :=
  | PROVISIONING | OFFLINE | STARTING | ONLINE
  | STOPPING | RESIZING | DELETING | ERRED.

#[global] Instance InstanceState_eq_dec : EqDecision InstanceState.
Proof. solve_decision. Defined.

(** The fields of an instance row that the views read or write. *)
Record Instance := mkInstance {
  uuid               : string;   (* instance.uuid.hex *)
  state              : InstanceState;
  ram                : Z;
  cores              : Z;
  data_volume_size   : Z;
  membership_cloud   : string;   (* cloud_project_membership.cloud *)
  membership_project : string    (* cloud_project_membership.project *)
}.

Record Flavor := mkFlavor {
  flavor_uuid  : string;
  flavor_cloud : string;
  flavor_ram   : Z;
  flavor_cores : Z
}.

Record User := mkUser {
  username : string;
  is_staff : bool
}.

(** The role types of structure.models: [CustomerRole.OWNER],
    [ProjectGroupRole.MANAGER], [ProjectRole.ADMINISTRATOR] and
    [ProjectRole.MANAGER]. *)
Inductive Role := OWNER | MANAGER | ADMINISTRATOR.

#[global] Instance Role_eq_dec : EqDecision Role.
Proof. solve_decision. Defined.

(** The request as the viewset sees it: the authenticated user and the
    [uuid] of the URL that [get_object] looks up. *)
Record Request := mkRequest {
  user     : User;
  url_uuid : string
}.

Record Response := mkResponse {
  status_code : Z;
  data        : list (string * string)
}.

Definition HTTP_200_OK : Z := 200.
Definition HTTP_202_ACCEPTED : Z := 202.
Definition HTTP_400_BAD_REQUEST : Z := 400.
Definition HTTP_409_CONFLICT : Z := 409.

Definition with_state (s : InstanceState) (i : Instance) : Instance :=
  mkInstance (uuid i) s (ram i) (cores i) (data_volume_size i)
             (membership_cloud i) (membership_project i).

Definition with_flavor (r c : Z) (i : Instance) : Instance :=
  mkInstance (uuid i) (state i) r c (data_volume_size i)
             (membership_cloud i) (membership_project i).

Definition with_data_volume_size (n : Z) (i : Instance) : Instance :=
  mkInstance (uuid i) (state i) (ram i) (cores i) n
             (membership_cloud i) (membership_project i).

(** [models.Instance] as [set_state] sees it, over the table of its
    [@transition] methods and the table of its other attributes. *)
Definition InstanceModel (fsm : list (string * Transition InstanceState))
    (members : list (string * Attribute Instance))
    : ModelClass Instance InstanceState :=
  mkModelClass "instance" state with_state fsm members.

(** [supported_operations] of [_schedule_transition]:
    operation code, then (state-marking transition, scheduled task). *)
Definition supported_operations : list (string * (string * string)) :=
  [ ("start",          ("schedule_starting", "schedule_starting"));
    ("stop",           ("schedule_stopping", "schedule_stopping"));
    ("destroy",        ("schedule_deletion", "schedule_deleting"));
    ("flavor change",  ("schedule_resizing", "update_flavor"));
    ("disk extension", ("schedule_resizing", "extend_disk")) ].

(** What the [InstanceResizeSerializer] (not among the sources) hands to
    [resize]: validation errors, or exactly one of a flavor and a disk size. *)
Inductive ResizeData : Type :=
  | InvalidResize (errors : list (string * string))
  | ResizeFlavor (flavor : Flavor)
  | ResizeDisk (disk_size : Z).

Section instance_views.

(** Parts of the repository that the views call and that are not among the
    sources: the [@transition] table of [models.Instance] and the other
    attributes of its instances, [Instance.get_state_display], the role
    filter backend and the object permissions applied by [get_object], and
    [Project.has_user]. *)
Variable fsm : list (string * Transition InstanceState).
Variable members : list (string * Attribute Instance).
Variable get_state_display : InstanceState -> string.
Variable role_filter : User -> Instance -> bool.
Variable has_object_permission : User -> Instance -> bool.
Variable has_user : string -> User -> Role -> bool.

(** [GenericAPIView.get_object]: the filter backends, the lookup by the
    URL's uuid (404 when nothing matches), then the object permissions. *)
Definition get_object (request : Request) : M Instance Instance :=
  fun w =>
    match rows w !! url_uuid request with
    | Some i =>
        if role_filter (user request) i
        then if has_object_permission (user request) i
             then (Ok i, w)
             else (Raise PermissionDenied, w)
        else (Raise Http404, w)
    | None => (Raise Http404, w)
    end.

(** [InstanceViewSet._schedule_transition]; the [return] that follows the
    [try] statement is its [else] suite. *)
Definition _schedule_transition (request : Request) (uuid : string)
    (operation : string) (kwargs : list (string * string))
    : M Instance Response :=
  instance ← get_object request;
  let membership_project := membership_project instance in
  let is_admin := has_user membership_project (user request) ADMINISTRATOR in
  if negb is_admin && negb (is_staff (user request))
  then raise PermissionDenied
  else
    match assoc operation supported_operations with
    | None => raise (KeyError operation)
    | Some (change_instance_state, processing_task) =>
        try_except_else
          (set_state (InstanceModel fsm members) uuid change_instance_state ;;
           delay (mkTask processing_task [uuid] kwargs))
          (fun e =>
             match e with
             | StateChangeError =>
                 mret (mkResponse HTTP_409_CONFLICT
                   [("status",
                     "Performing " +:+ operation +:+
                     " operation from instance state '" +:+
                     get_state_display (state instance) +:+
                     "' is not allowed")])
             | _ => raise e
             end)
          (mret (mkResponse HTTP_202_ACCEPTED
                   [("status", operation +:+ " was scheduled")]))
    end.

(** [InstanceViewSet.stop], [start] and [destroy] *)
Definition stop (request : Request) : M Instance Response :=
  _schedule_transition request (url_uuid request) "stop" [].

Definition start (request : Request) : M Instance Response :=
  _schedule_transition request (url_uuid request) "start" [].

Definition destroy (request : Request) : M Instance Response :=
  _schedule_transition request (url_uuid request) "destroy" [].

(** [InstanceViewSet.change_flavor] *)
Definition change_flavor (request : Request) (instance : Instance)
    (flavor : Flavor) : M Instance Response :=
  let instance_cloud := membership_cloud instance in
  if negb (bool_decide (flavor_cloud flavor = instance_cloud))
  then mret (mkResponse HTTP_400_BAD_REQUEST
               [("flavor", "New flavor is not within the same cloud")])
  else
    let instance := with_flavor (flavor_ram flavor) (flavor_cores flavor) instance in
    save (uuid instance) instance ;;
    _schedule_transition request (uuid instance) "flavor change"
                         [("flavor_uuid", flavor_uuid flavor)].

(** [InstanceViewSet.resize_disk] *)
Definition resize_disk (request : Request) (instance : Instance)
    (new_size : Z) : M Instance Response :=
  if bool_decide (new_size <= data_volume_size instance)
  then mret (mkResponse HTTP_400_BAD_REQUEST
               [("disk_size",
                 "Disk size must be strictly greater than the current one")])
  else
    let instance := with_data_volume_size new_size instance in
    save (uuid instance) instance ;;
    _schedule_transition request (uuid instance) "disk extension" [].

(** [InstanceViewSet.resize]; [parsed] is the outcome of the serializer on
    [request.DATA]. *)
Definition resize (request : Request) (parsed : ResizeData)
    : M Instance Response :=
  instance ← get_object request;
  if negb (bool_decide (state instance = OFFLINE))
  then mret (mkResponse HTTP_409_CONFLICT [("detail", "Instance must be offline")])
  else
    match parsed with
    | InvalidResize errors => mret (mkResponse HTTP_400_BAD_REQUEST errors)
    | ResizeFlavor changed_flavor => change_flavor request instance changed_flavor
    | ResizeDisk disk_size => resize_disk request instance disk_size
    end.

(** The handler got past [get_object] and the administrator-or-staff check. *)
Definition reaches_transition (request : Request) (w : World Instance)
    (instance : Instance) : Prop :=
  rows w !! url_uuid request = Some instance ∧
  role_filter (user request) instance = true ∧
  has_object_permission (user request) instance = true ∧
  has_user (membership_project instance) (user request) ADMINISTRATOR
    || is_staff (user request) = true.

End instance_views.

(** Modelled from the spec: the [@transition] table of [models.Instance]
    (iaas/models.py is not among the sources), under the method names that
    [supported_operations] uses: start OFFLINE -> STARTING, stop
    ONLINE -> STOPPING, destroy OFFLINE, ONLINE or ERRED -> DELETING, resize
    OFFLINE -> RESIZING. *)
Definition Instance_fsm : list (string * Transition InstanceState) :=
  [ ("schedule_starting", mkTransition (OneOf [OFFLINE]) STARTING);
    ("schedule_stopping", mkTransition (OneOf [ONLINE]) STOPPING);
    ("schedule_deletion", mkTransition (OneOf [OFFLINE; ONLINE; ERRED]) DELETING);
    ("schedule_resizing", mkTransition (OneOf [OFFLINE]) RESIZING) ].

(** Sample data: attributes of an instance other than its [@transition]
    methods, [save] and the fields that the views read. *)
Definition Instance_members : list (string * Attribute Instance) :=
  [ ("save", Method (fun i table => Ok (i, <[uuid i := i]> table)));
    ("uuid", Value); ("state", Value); ("ram", Value); ("cores", Value);
    ("data_volume_size", Value) ].

(** The model of the docstring of [set_state]: a [Worker] whose state is
    [idle] by default and which [start_working] moves from [idle] to
    [working].  Of its other attributes the table lists the fields of the
    docstring, [state] and [uuid], and [save], whose write is the one that
    [set_state] does again right after the call. *)
Definition Worker : ModelClass string string :=
  mkModelClass "worker" (fun st => st) (fun st _ => st)
    [ ("start_working", mkTransition (OneOf ["idle"]) "working") ]
    [ ("save", Method (fun e table => Ok (e, table)));
      ("state", Value);
      ("uuid", Value) ].

(** ** iaas: SSH keys *)

Record SshPublicKey := mkSshPublicKey {
  key_uuid : string;
  key_user : string     (* username of the owner *)
}.

(** [SshKeyViewSet.get_queryset]; [queryset] is what the parent class
    returns, all the keys. *)
Definition SshKeyViewSet_get_queryset (request : Request)
    (queryset : list SshPublicKey) : list SshPublicKey :=
  if is_staff (user request)
  then queryset
  else filter (fun k => key_user k = username (user request)) queryset.

(** ** iaas: quota statistics *)

Module QuotaStats.

(** The columns of [ResourceQuota] and of [ResourceQuotaUsage] that the
    statistics sum; the quantities are taken as integers. *)
Record ResourceQuota := mkResourceQuota {
  vcpu           : Z;
  ram            : Z;
  storage        : Z;
  max_instances  : Z;
  backup_storage : Z
}.

(** A cloud-project membership with its optional one-to-one quota rows. *)
Record CloudProjectMembership := mkMembership {
  resource_quota       : option ResourceQuota;
  resource_quota_usage : option ResourceQuota
}.

(** [membership.resource_quota]: following the one-to-one relation raises
    [DoesNotExist] when there is no row. *)
Definition related (o : option ResourceQuota) : result ResourceQuota :=
  match o with
  | Some q => Ok q
  | None => Raise DoesNotExist
  end.

(** [getattr(quota, field)] *)
Definition getattr (q : ResourceQuota) (field : string) : result Z :=
  if decide (field = "vcpu") then Ok (vcpu q)
  else if decide (field = "ram") then Ok (ram q)
  else if decide (field = "storage") then Ok (storage q)
  else if decide (field = "max_instances") then Ok (max_instances q)
  else if decide (field = "backup_storage") then Ok (backup_storage q)
  else Raise (AttributeError field).

Definition fields : list string :=
  ["vcpu"; "ram"; "storage"; "max_instances"; "backup_storage"].

(** Reading [d[k]] of a [defaultdict(lambda: 0)]. *)
Definition dd_get (d : gmap string Z) (k : string) : Z :=
  default 0 (d !! k).

(** [for field in fields: sum_of_quotas[key field] += getattr(rel, field)];
    the dictionary is updated in place, so what was added before an
    exception stays. *)
Fixpoint add_fields (rel : option ResourceQuota) (key : string -> string)
    (fs : list string) (d : gmap string Z) : result unit * gmap string Z :=
  match fs with
  | [] => (Ok tt, d)
  | field :: fs' =>
      match related rel with
      | Raise e => (Raise e, d)
      | Ok q =>
          match getattr q field with
          | Raise e => (Raise e, d)
          | Ok v =>
              add_fields rel key fs' (<[key field := dd_get d (key field) + v]> d)
          end
      end
  end.

(** [try: ... except DoesNotExist: pass] *)
Definition ignoring_missing (r : result unit * gmap string Z)
    : result unit * gmap string Z :=
  match r with
  | (Raise DoesNotExist, d) => (Ok tt, d)
  | _ => r
  end.

(** The body of the loop over the memberships. *)
Definition add_membership (d : gmap string Z) (membership : CloudProjectMembership)
    : result unit * gmap string Z :=
  match ignoring_missing
          (add_fields (resource_quota membership) (fun f => f) fields d) with
  | (Raise e, d1) => (Raise e, d1)
  | (Ok _, d1) =>
      ignoring_missing
        (add_fields (resource_quota_usage membership)
                    (fun f => f +:+ "_usage") fields d1)
  end.

Fixpoint for_memberships (memberships : list CloudProjectMembership)
    (d : gmap string Z) : result unit * gmap string Z :=
  match memberships with
  | [] => (Ok tt, d)
  | membership :: rest =>
      match add_membership d membership with
      | (Raise e, d1) => (Raise e, d1)
      | (Ok _, d1) => for_memberships rest d1
      end
  end.

(** [QuotaStatsView.get_sum_of_quotas] *)
Definition get_sum_of_quotas (memberships : list CloudProjectMembership)
    : result (gmap string Z) :=
  match for_memberships memberships ∅ with
  | (Ok _, sum_of_quotas) => Ok sum_of_quotas
  | (Raise e, _) => Raise e
  end.

(** The value of a column, for stating sums. *)
Definition column (field : string) (q : ResourceQuota) : Z :=
  match getattr q field with
  | Ok v => v
  | Raise _ => 0
  end.

(** The sum of a column over the rows that exist. *)
Definition sum_over (rel : CloudProjectMembership -> option ResourceQuota)
    (field : string) (memberships : list CloudProjectMembership) : Z :=
  foldr Z.add 0 (column field <$> omap rel memberships).

(** What one row adds under the dictionary key [k] when the loop over [fs]
    writes the column [f] under [key f]. *)
Definition keyed_sum (q : ResourceQuota) (key : string -> string) (k : string)
    (fs : list string) : Z :=
  foldr (fun f acc => (if decide (key f = k) then column f q else 0) + acc) 0 fs.

(** What one membership adds under the dictionary key [k]. *)
Definition contribution (membership : CloudProjectMembership) (k : string) : Z :=
  from_option (fun q => keyed_sum q (fun f => f) k fields) 0
              (resource_quota membership)
  + from_option (fun q => keyed_sum q (fun f => f +:+ "_usage") k fields) 0
                (resource_quota_usage membership).


(** Sample data: a membership with both rows, one with a quota only, and one
    with neither. *)
Definition full_membership : CloudProjectMembership :=
  mkMembership (Some (mkResourceQuota 4 8192 100 10 50))
               (Some (mkResourceQuota 1 1024 20 2 5)).
Definition quota_only_membership : CloudProjectMembership :=
  mkMembership (Some (mkResourceQuota 2 2048 40 5 10)) None.
Definition bare_membership : CloudProjectMembership :=
  mkMembership None None.

End QuotaStats.

(** ** Permission scope filter *)

Module PermissionScope.

(** The functions of this module are those of nodeconductor/structure/filters.py
    and nodeconductor/backup/views.py, which are not among the sources (only
    their callers and tests are). *)

Inductive EntityType : Type :=
  | CustomerT | ProjectGroupT | ProjectT | InstanceT | BackupT.

#[global] Instance EntityType_eq_dec : EqDecision EntityType.
Proof. solve_decision. Defined.

(** Modelled from the spec: the three levels at which a role is granted
    (structure/models.py is not among the sources). *)
Inductive ScopeLevel : Type :=
  | AtCustomer | AtProjectGroup | AtProject.

#[global] Instance ScopeLevel_eq_dec : EqDecision ScopeLevel.
Proof. solve_decision. Defined.

(** Modelled from the spec: an entity, a row with an identifier that belongs
    to one domain type; the row carries the scopes it lies under, as its
    model's customer, project-group and project paths resolve them. *)
Record Entity := mkEntity {
  entity_id      : Z;
  entity_type    : EntityType;
  customers      : list Z;
  project_groups : list Z;
  projects       : list Z
}.

#[global] Instance Entity_eq_dec : EqDecision Entity.
Proof. solve_decision. Defined.

(** Modelled from the spec: a role assignment (subject, scope, role). *)
Record RoleAssignment := mkRoleAssignment {
  subject     : string;       (* username *)
  scope_level : ScopeLevel;
  scope_id    : Z;
  role        : Role
}.

Record Directory := mkDirectory {
  entities    : list Entity;
  assignments : list RoleAssignment
}.

Definition enclosing (l : ScopeLevel) (e : Entity) : list Z :=
  match l with
  | AtCustomer => customers e
  | AtProjectGroup => project_groups e
  | AtProject => projects e
  end.

(** Modelled from the spec: all the identifiers of an entity type. *)
Definition all_ids (d : Directory) (T : EntityType) : gset Z :=
  list_to_set (entity_id <$> filter (fun e => entity_type e = T) (entities d)).

(** Modelled from the spec: the scopes of one level at which the user holds
    one of the roles. *)
Definition scopes_held (d : Directory) (u : User) (l : ScopeLevel)
    (roles : list Role) : list Z :=
  scope_id <$>
    filter (fun a => subject a = username u ∧ scope_level a = l ∧ role a ∈ roles)
           (assignments d).

(** Modelled from the spec: the identifiers of the entities of a type under
    any of the scopes. *)
Definition ids_under (d : Directory) (T : EntityType) (l : ScopeLevel)
    (scopes : list Z) : gset Z :=
  list_to_set
    (entity_id <$>
       filter (fun e => entity_type e = T ∧ Exists (fun s => s ∈ scopes) (enclosing l e))
              (entities d)).

(** Modelled from the spec: the answer of [visible_ids], the sentinel that
    stands for all, or a set. *)
Inductive Visible : Type :=
  | Unrestricted
  | Restricted (ids : gset Z).

(** Modelled from the spec: [visible_ids(user, entity_type)] of
    structure/filters.py.  The staff user of the spec is the user with
    [is_staff], the flag that the views consult. *)
Definition visible_ids (d : Directory) (u : User) (T : EntityType) : Visible :=
  if is_staff u then Unrestricted
  else Restricted
         (ids_under d T AtCustomer (scopes_held d u AtCustomer [OWNER])
          ∪ ids_under d T AtProjectGroup (scopes_held d u AtProjectGroup [MANAGER])
          ∪ ids_under d T AtProject
              (scopes_held d u AtProject [ADMINISTRATOR; MANAGER])).

(** Modelled from the spec: the set that an answer of [visible_ids] stands
    for. *)
Definition ids_of (d : Directory) (T : EntityType) (v : Visible) : gset Z :=
  match v with
  | Unrestricted => all_ids d T
  | Restricted ids => ids
  end.

(** Modelled from the spec: [filter_collection(user, collection)], the
    collection being rows of the entity type [T]. *)
Definition filter_collection (d : Directory) (u : User) (T : EntityType)
    (collection : list Entity) : list Entity :=
  match visible_ids d u T with
  | Unrestricted => collection
  | Restricted ids =>
      if decide (ids = ∅) then []
      else filter (fun e => entity_id e ∈ ids) collection
  end.

(** Modelled from the spec: the structure of its data model.  A project group
    belongs to a customer; a project belongs to a customer and is in any
    number of project groups; an instance runs in a project. *)
Record ProjectGroupRow := mkProjectGroupRow {
  group_id       : Z;
  group_customer : Z
}.

Record ProjectRow := mkProjectRow {
  project_id        : Z;
  project_customer  : Z;
  project_groups_of : list Z
}.

Record InstanceRow := mkInstanceRow {
  instance_id      : Z;
  instance_project : Z
}.

Record Structure := mkStructure {
  customer_rows : list Z;
  group_rows    : list ProjectGroupRow;
  project_rows  : list ProjectRow;
  instance_rows : list InstanceRow
}.

(** Modelled from the spec: the entity type of the scopes of a level. *)
Definition scope_type (l : ScopeLevel) : EntityType :=
  match l with
  | AtCustomer => CustomerT
  | AtProjectGroup => ProjectGroupT
  | AtProject => ProjectT
  end.

(** Modelled from the spec: one step up the hierarchy, from an entity (its
    type and identifier) to the entities it belongs to. *)
Definition parents (s : Structure) (k : EntityType * Z) : list (EntityType * Z) :=
  match k.1 with
  | CustomerT => []
  | ProjectGroupT =>
      (fun g => (CustomerT, group_customer g))
        <$> filter (fun g => group_id g = k.2) (group_rows s)
  | ProjectT =>
      mjoin ((fun p => (CustomerT, project_customer p)
                       :: ((fun g => (ProjectGroupT, g)) <$> project_groups_of p))
               <$> filter (fun p => project_id p = k.2) (project_rows s))
  | InstanceT =>
      (fun i => (ProjectT, instance_project i))
        <$> filter (fun i => instance_id i = k.2) (instance_rows s)
  | BackupT => []
  end.

(** Modelled from the spec: the entity itself and what is reached from it in
    at most [n] steps up. *)
Fixpoint above (s : Structure) (n : nat) (k : EntityType * Z)
    : list (EntityType * Z) :=
  k :: match n with
       | O => []
       | S n' => mjoin (above s n' <$> parents s k)
       end.

(** Modelled from the spec: [a] encloses [k] in the hierarchy, it is [k] or
    above it; from an instance three steps lead to the customer of a project
    group of its project. *)
Definition encloses (s : Structure) (a k : EntityType * Z) : Prop :=
  a ∈ above s 3 k.

(** Modelled from the spec: the roles that reach through the hierarchy:
    OWNER of a customer, MANAGER of a project group, ADMINISTRATOR or MANAGER
    of a project. *)
Definition fits (l : ScopeLevel) (r : Role) : Prop :=
  match l with
  | AtCustomer => r = OWNER
  | AtProjectGroup => r = MANAGER
  | AtProject => r = ADMINISTRATOR ∨ r = MANAGER
  end.

(** Modelled from the spec: the user holds such a role over the entity: at a
    customer, project group or project that encloses it. *)
Definition holds_role_over (s : Structure) (assignments : list RoleAssignment)
    (u : User) (k : EntityType * Z) : Prop :=
  Exists (fun a => subject a = username u ∧ fits (scope_level a) (role a) ∧
                   encloses s (scope_type (scope_level a), scope_id a) k)
         assignments.

(** Modelled from the spec: the user holds such a role inside the entity: at
    a project group or project that the entity encloses. *)
Definition holds_role_inside (s : Structure) (assignments : list RoleAssignment)
    (u : User) (k : EntityType * Z) : Prop :=
  Exists (fun a => subject a = username u ∧ fits (scope_level a) (role a) ∧
                   encloses s k (scope_type (scope_level a), scope_id a))
         assignments.

#[global] Instance fits_dec l r : Decision (fits l r).
Proof. unfold fits. destruct l; apply _. Defined.

#[global] Instance encloses_dec s a k : Decision (encloses s a k).
Proof. unfold encloses. apply _. Defined.

#[global] Instance holds_role_over_dec s asg u k : Decision (holds_role_over s asg u k).
Proof. unfold holds_role_over. apply _. Defined.

#[global] Instance holds_role_inside_dec s asg u k :
  Decision (holds_role_inside s asg u k).
Proof. unfold holds_role_inside. apply _. Defined.

(** Modelled from the spec: a project group of a project belongs to the
    customer of the project. *)
Definition consistent (s : Structure) : Prop :=
  Forall (fun p =>
            Forall (fun g => group_id g ∈ project_groups_of p ->
                             group_customer g = project_customer p)
                   (group_rows s))
         (project_rows s).

#[global] Instance consistent_dec s : Decision (consistent s).
Proof. unfold consistent. apply _. Defined.

(** Modelled from the spec: the rows of the directory, with the scopes that
    the customer, project-group and project paths of each model resolve to.
    A customer is found from itself, from its project groups and from its
    projects, as the customer statistics show (a project administrator gets
    the statistics of the customer of the project); a project group from its
    customer, from itself and from its projects; a project from its customer,
    its project groups and itself; an instance from its project, and from the
    customer and the project groups of that project. *)
Definition customer_entity (s : Structure) (c : Z) : Entity :=
  mkEntity c CustomerT [c]
    (group_id <$> filter (fun g => group_customer g = c) (group_rows s))
    (project_id <$> filter (fun p => project_customer p = c) (project_rows s)).

Definition group_entity (s : Structure) (g : ProjectGroupRow) : Entity :=
  mkEntity (group_id g) ProjectGroupT [group_customer g] [group_id g]
    (project_id <$> filter (fun p => group_id g ∈ project_groups_of p) (project_rows s)).

Definition project_entity (p : ProjectRow) : Entity :=
  mkEntity (project_id p) ProjectT [project_customer p] (project_groups_of p)
    [project_id p].

Definition instance_entity (s : Structure) (i : InstanceRow) : Entity :=
  let ps := filter (fun p => project_id p = instance_project i) (project_rows s) in
  mkEntity (instance_id i) InstanceT (project_customer <$> ps)
    (mjoin (project_groups_of <$> ps)) [instance_project i].

Definition directory_of (s : Structure) (assignments : list RoleAssignment)
    : Directory :=
  mkDirectory
    ((customer_entity s <$> customer_rows s)
     ++ (group_entity s <$> group_rows s)
     ++ (project_entity <$> project_rows s)
     ++ (instance_entity s <$> instance_rows s))
    assignments.

(** The collection holds rows of the entity type [T] of the directory. *)
Definition drawn_from (d : Directory) (T : EntityType)
    (collection : list Entity) : Prop :=
  Forall (fun e => e ∈ entities d ∧ entity_type e = T) collection.

(** Sample data: the structure that the customer statistics test sets up.
    Customer 1 has the project group 10 and the projects 100 and 101, of which
    101 is in the group; customer 2 has the project 102; two instances run
    in each of the projects 100 and 101.  A customer row is found from its
    groups and projects as well. *)
Definition sample_entities : list Entity :=
  [ mkEntity 1 CustomerT [1] [10] [100; 101];
    mkEntity 2 CustomerT [2] [] [102];
    mkEntity 10 ProjectGroupT [1] [10] [101];
    mkEntity 100 ProjectT [1] [] [100];
    mkEntity 101 ProjectT [1] [10] [101];
    mkEntity 102 ProjectT [2] [] [102];
    mkEntity 1000 InstanceT [1] [10] [101];
    mkEntity 1001 InstanceT [1] [10] [101];
    mkEntity 1002 InstanceT [1] [] [100];
    mkEntity 1003 InstanceT [1] [] [100] ].

(** The same structure, by its rows. *)
Definition sample_structure : Structure :=
  mkStructure [1; 2]
    [ mkProjectGroupRow 10 1 ]
    [ mkProjectRow 100 1 []; mkProjectRow 101 1 [10]; mkProjectRow 102 2 [] ]
    [ mkInstanceRow 1000 101; mkInstanceRow 1001 101;
      mkInstanceRow 1002 100; mkInstanceRow 1003 100 ].

Definition sample_assignments : list RoleAssignment :=
  [ mkRoleAssignment "owner" AtCustomer 1 OWNER;
    mkRoleAssignment "group_manager" AtProjectGroup 10 MANAGER;
    mkRoleAssignment "admin" AtProject 100 ADMINISTRATOR ].

Definition sample_directory : Directory :=
  mkDirectory sample_entities sample_assignments.

Definition owner : User := mkUser "owner" false.
Definition group_manager : User := mkUser "group_manager" false.
Definition admin : User := mkUser "admin" false.
Definition stranger : User := mkUser "stranger" false.
Definition staff_member : User := mkUser "staff" true.

(** The rows of a type, as a collection. *)
Definition rows_of (d : Directory) (T : EntityType) : list Entity :=
  filter (fun e => entity_type e = T) (entities d).

End PermissionScope.

(** ** iaas: default security groups (handlers.py) *)

Module DefaultSecurityGroups.

(** The values that a settings entry can hold. *)
Inductive PyVal : Type :=
  | PNone
  | PBool (b : bool)
  | PInt (z : Z)
  | PStr (s : string)
  | PList (l : list PyVal)
  | PDict (items : list (string * PyVal)).

(** The exceptions that the parsing of a configured group raises and
    catches: [KeyError] with the key, [ValueError] and [TypeError] with the
    parameter they are about. *)
Inductive error : Type :=
  | EKey (key : string)
  | EValue (about : string)
  | EType (about : string).

Inductive outcome (A : Type) : Type :=
  | Got (a : A)
  | Failed (e : error).
Arguments Got {A} a.
Arguments Failed {A} e.

#[global] Instance outcome_ret : MRet outcome := fun A a => Got a.
#[global] Instance outcome_bind : MBind outcome := fun A B f m =>
  match m with
  | Got a => f a
  | Failed e => Failed e
  end.

(** [v[key]] for a string key: a dictionary answers or raises [KeyError];
    any other value raises [TypeError]. *)
Definition getitem (v : PyVal) (key : string) : outcome PyVal :=
  match v with
  | PDict items =>
      match assoc key items with
      | Some x => Got x
      | None => Failed (EKey key)
      end
  | _ => Failed (EType key)
  end.

(** [isinstance(v, (int, long))], with the number: a boolean is an int. *)
Definition int_value (v : PyVal) : option Z :=
  match v with
  | PInt z => Some z
  | PBool b => Some (if b then 1 else 0)
  | _ => None
  end.

(** [get_icmp]; the message of its [ValueError] is formatted with one
    argument for two conversions, so that branch raises [TypeError]. *)
Definition get_icmp (config_rule : PyVal) (key : string) : outcome PyVal :=
  result ← getitem config_rule key;
  match int_value result with
  | None => Failed (EType key)
  | Some z =>
      if negb (bool_decide (-1 <= z ∧ z <= 255))
      then Failed (EType key)
      else Got result
  end.

(** [get_port] *)
Definition get_port (config_rule : PyVal) (key : string) : outcome PyVal :=
  result ← getitem config_rule key;
  match int_value result with
  | None => Failed (EType key)
  | Some z =>
      if negb (bool_decide (1 <= z ∧ z <= 65535))
      then Failed (EValue key)
      else Got result
  end.

(** [protocol == name] *)
Definition is_str (v : PyVal) (name : string) : bool :=
  match v with
  | PStr s => bool_decide (s = name)
  | _ => false
  end.

(** [to_port < from_port] on values that passed [get_port]. *)
Definition less_than (a b : PyVal) : bool :=
  match int_value a, int_value b with
  | Some x, Some y => bool_decide (x < y)
  | _, _ => false
  end.

(** An entry of [rules]. *)
Record Rule := mkRule {
  protocol  : PyVal;
  cidr      : PyVal;
  from_port : PyVal;
  to_port   : PyVal
}.

(** An entry of [groups]. *)
Record Group := mkGroup {
  name        : PyVal;
  description : PyVal;
  rules       : list Rule
}.

(** The body of the loop over [config_rules]. *)
Definition parse_rule (config_rule : PyVal) : outcome Rule :=
  protocol ← getitem config_rule "protocol";
  ports ←
    (if is_str protocol "icmp" then
       from_port ← get_icmp config_rule "icmp_type";
       to_port ← get_icmp config_rule "icmp_code";
       mret (from_port, to_port)
     else if is_str protocol "tcp" || is_str protocol "udp" then
       from_port ← get_port config_rule "from_port";
       to_port ← get_port config_rule "to_port";
       if less_than to_port from_port
       then Failed (EValue "to_port")
       else mret (from_port, to_port)
     else Failed (EValue "protocol"));
  cidr ← getitem config_rule "cidr";
  mret (mkRule protocol cidr ports.1 ports.2).

(** The loop over [config_rules], appending to [rules]. *)
Fixpoint parse_rules (config_rules : list PyVal) (rules : list Rule)
    : outcome (list Rule) :=
  match config_rules with
  | [] => Got rules
  | config_rule :: rest =>
      match parse_rule config_rule with
      | Failed e => Failed e
      | Got rule => parse_rules rest (rules ++ [rule])
      end
  end.

(** The [try] suite for one configured group. *)
Definition parse_group (config_group : PyVal) : outcome Group :=
  name ← getitem config_group "name";
  description ← getitem config_group "description";
  config_rules ← getitem config_group "rules";
  match config_rules with
  | PList l =>
      rules ← parse_rules l [];
      mret (mkGroup name description rules)
  | _ => Failed (EType "rules")
  end.

(** The loop over [config_groups]: a group that raised is logged and
    skipped, the others are appended to [groups]. *)
Fixpoint for_config_groups (config_groups : list PyVal) (groups : list Group)
    (logged : list error) : list Group * list error :=
  match config_groups with
  | [] => (groups, logged)
  | config_group :: rest =>
      match parse_group config_group with
      | Failed e => for_config_groups rest groups (logged ++ [e])
      | Got group => for_config_groups rest (groups ++ [group]) logged
      end
  end.

(** [_get_default_security_groups]: [config_groups] is the list found under
    [DEFAULT_SECURITY_GROUPS] in the settings ([[]] when absent); the answer
    is [groups] with the errors logged on the way. *)
Definition _get_default_security_groups (config_groups : list PyVal)
    : list Group * list error :=
  for_config_groups config_groups [] [].

(** A stored security group with its rules. *)
Record SecurityGroup := mkSecurityGroup {
  sg_name        : PyVal;
  sg_description : PyVal;
  sg_membership  : Z;
  sg_rules       : list Rule
}.

(** [create_initial_security_groups]: the handler of the signal sent after a
    cloud-project membership was saved; [instance] is its primary key and
    [table] the stored security groups. *)
Definition create_initial_security_groups (config_groups : list PyVal)
    (instance : Z) (created : bool) (table : list SecurityGroup)
    : list SecurityGroup :=
  if negb created then table
  else
    foldl (fun table group =>
             table ++ [mkSecurityGroup (name group) (description group) instance
                         (rules group)])
          table (_get_default_security_groups config_groups).1.

(** A rule as the function hands it out: ICMP with type and code between -1
    and 255, or TCP or UDP with ports between 1 and 65535, the first not
    above the second. *)
Definition well_formed (r : Rule) : Prop :=
  ∃ a b, int_value (from_port r) = Some a ∧ int_value (to_port r) = Some b ∧
    ((protocol r = PStr "icmp" ∧ -1 <= a <= 255 ∧ -1 <= b <= 255)
     ∨ ((protocol r = PStr "tcp" ∨ protocol r = PStr "udp")
        ∧ 1 <= a ∧ a <= b ∧ b <= 65535)).

(** What [parse_group] yields, as an option. *)
Definition valid_group (config_group : PyVal) : option Group :=
  match parse_group config_group with
  | Got group => Some group
  | Failed _ => None
  end.

(** Sample data: a group that opens ssh and ping, and one with a port out of
    range. *)
Definition ssh_and_ping : PyVal :=
  PDict [ ("name", PStr "ssh");
          ("description", PStr "Security group for secure shell access");
          ("rules",
           PList [ PDict [ ("protocol", PStr "tcp"); ("cidr", PStr "0.0.0.0/0");
                           ("from_port", PInt 22); ("to_port", PInt 22) ];
                   PDict [ ("protocol", PStr "icmp"); ("cidr", PStr "0.0.0.0/0");
                           ("icmp_type", PInt (-1)); ("icmp_code", PInt (-1)) ] ]) ].
Definition bad_port : PyVal :=
  PDict [ ("name", PStr "web");
          ("description", PStr "Security group for web servers");
          ("rules",
           PList [ PDict [ ("protocol", PStr "tcp"); ("cidr", PStr "0.0.0.0/0");
                           ("from_port", PInt 80); ("to_port", PInt 80) ];
                   PDict [ ("protocol", PStr "tcp"); ("cidr", PStr "0.0.0.0/0");
                           ("from_port", PInt 443); ("to_port", PInt 70000) ] ]) ].

End DefaultSecurityGroups.

(** ** iaas: templates and statistics views *)

Module IaasViews.

(** [template % args] for the conversions [%s] and [%d] and the escape
    [%%]: [None] stands for the [TypeError] (or [ValueError]) that Python
    raises when the arguments and the conversions do not match. *)
Fixpoint percent_format (template : string) (args : list string) : option string :=
  match template with
  | EmptyString =>
      match args with
      | [] => Some EmptyString
      | _ :: _ => None
      end
  | String c rest =>
      if decide (c = "%"%char) then
        match rest with
        | EmptyString => None
        | String d rest' =>
            if decide (d = "%"%char) then String "%" <$> percent_format rest' args
            else if decide (d = "s"%char ∨ d = "d"%char) then
              match args with
              | [] => None
              | a :: args' => String.app a <$> percent_format rest' args'
              end
            else None
        end
      else String c <$> percent_format rest args
  end.

Definition MultipleObjectsReturned : exn := OtherException "MultipleObjectsReturned".

(** The double quote, for the messages that contain one. *)
Definition dq : string := String "034"%char EmptyString.

(** A request with its method and its query parameters. *)
Record HttpRequest := mkHttpRequest {
  http_user    : User;
  method       : string;
  QUERY_PARAMS : list (string * string)
}.

Record Template := mkTemplate {
  template_uuid : string;
  is_active     : bool;
  image_clouds  : list string     (* the cloud of each image of the template *)
}.

Record Cloud := mkCloud {
  cloud_uuid : string;
  auth_url   : string
}.

(** A cloud-project membership: its cloud and its quota rows. *)
Record Link := mkLink {
  link_cloud  : string;
  link_quotas : QuotaStats.CloudProjectMembership
}.

(** The body of a statistics response: a message or a dictionary. *)
Inductive Body : Type :=
  | Text (message : string)
  | Stats (stats : gmap string Z).

Record StatsResponse := mkStatsResponse {
  stats_status : Z;
  stats_body   : Body
}.

(** [sum(values)] *)
Definition py_sum (values : list Z) : Z := foldl Z.add 0 values.

(** An object of one of the aggregate models (customer, project group,
    project). *)
Record AggregateObject := mkAggregateObject {
  aggregate_uuid : string;
  aggregate_name : string
}.

(** A value of the data handed to [UsageStatsSerializer]: taken from the
    query string, or the default computed by the view. *)
Inductive Param : Type :=
  | FromQuery (s : string)
  | Computed (z : Z).

Record UsageData := mkUsageData {
  start_timestamp : Param;
  end_timestamp   : Param;
  segments_count  : Param;
  item            : option string
}.

(** The body of the usage statistics: a message, the errors of the
    serializer, or the entries with their name and datapoints. *)
Inductive UsageBody (Datapoint : Type) : Type :=
  | UsageText (message : string)
  | UsageErrors (errors : list (string * string))
  | UsageEntries (entries : list (string * list Datapoint)).
Arguments UsageText {Datapoint} message.
Arguments UsageErrors {Datapoint} errors.
Arguments UsageEntries {Datapoint} entries.

Section views.

(** Parts that the views call and that are not among the sources: the role
    filter of structure/filters.py on clouds and on the aggregate models, the
    cloud backend, the instances found under an aggregate object along the
    permission paths of [models.Instance], and [UsageStatsSerializer], which
    answers its errors or, when valid, the function [get_stats]. *)
Variable cloud_filter : User -> Cloud -> bool.
Variable get_resource_stats : Cloud -> string -> gmap string Z.
Variable visible_aggregates : User -> string -> list AggregateObject.
Variable instances_under : string -> AggregateObject -> list Instance.
Variable Datapoint : Type.
Variable UsageStatsSerializer :
  UsageData -> list (string * string) + (list Instance -> list Datapoint).

(** [TemplateViewSet.get_queryset]; [templates] and [clouds] are the tables. *)
Definition TemplateViewSet_get_queryset (request : HttpRequest)
    (templates : list Template) (clouds : list Cloud) : result (list Template) :=
  let queryset := templates in
  let user := http_user request in
  let queryset :=
    if negb (is_staff user)
    then filter (fun t => is_active t ≠ false) queryset
    else queryset in
  if decide (method request = "GET") then
    match assoc "cloud" (QUERY_PARAMS request) with
    | Some cloud_uuid' =>
        let cloud_queryset := filter (fun c => cloud_filter user c = true) clouds in
        match filter (fun c => cloud_uuid c = cloud_uuid') cloud_queryset with
        | [] => Ok []
        | [cloud] =>
            Ok (mjoin ((fun t =>
                           (fun _ => t) <$>
                             filter (fun c => c = cloud_uuid cloud) (image_clouds t))
                          <$> queryset))
        | _ :: _ :: _ => Raise MultipleObjectsReturned
        end
    | None => Ok queryset
    end
  else Ok queryset.

(** [ResourceStatsView._check_user] *)
Definition _check_user (request : HttpRequest) : result unit :=
  if negb (is_staff (http_user request)) then Raise PermissionDenied else Ok tt.

(** The memberships of the clouds. *)
Definition links_of (clouds : list Cloud) (links : list Link) : list Link :=
  filter (fun l => link_cloud l ∈ cloud_uuid <$> clouds) links.

(** [ResourceStatsView._get_quotas_stats] *)
Definition _get_quotas_stats (clouds : list Cloud) (links : list Link)
    : gmap string Z :=
  let quotas_list :=
    omap (fun l => QuotaStats.resource_quota (link_quotas l)) (links_of clouds links) in
  list_to_map
    [ ("vcpu_quota", py_sum (QuotaStats.vcpu <$> quotas_list));
      ("memory_quota", py_sum (QuotaStats.ram <$> quotas_list));
      ("storage_quota", py_sum (QuotaStats.storage <$> quotas_list));
      ("backup_quota", py_sum (QuotaStats.backup_storage <$> quotas_list)) ].

(** [ResourceStatsView.get]; sorting the keys of the answer leaves the
    dictionary as it is. *)
Definition ResourceStatsView_get (request : HttpRequest) (all_clouds : list Cloud)
    (links : list Link) : result StatsResponse :=
  match _check_user request with
  | Raise e => Raise e
  | Ok _ =>
      match assoc "auth_url" (QUERY_PARAMS request) with
      | None =>
          Ok (mkStatsResponse HTTP_400_BAD_REQUEST
                (Text ("GET parameter " +:+ dq +:+ "auth_url" +:+ dq +:+
                       " have to be defined")))
      | Some auth_url' =>
          let clouds := filter (fun c => auth_url c = auth_url') all_clouds in
          match clouds with
          | [] =>
              match percent_format "No clouds with auth url: %s" [auth_url'] with
              | Some message => Ok (mkStatsResponse HTTP_400_BAD_REQUEST (Text message))
              | None => Raise TypeError
              end
          | cloud :: _ =>
              let stats := get_resource_stats cloud auth_url' in
              let quotas_stats := _get_quotas_stats clouds links in
              let stats := quotas_stats ∪ stats in
              match QuotaStats.get_sum_of_quotas
                      (link_quotas <$> links_of clouds links) with
              | Raise e => Raise e
              | Ok full_usage =>
                  let stats :=
                    <["backups" := default 0 (full_usage !! "backup_storage_usage")]>
                      stats in
                  Ok (mkStatsResponse HTTP_200_OK (Stats stats))
              end
          end
      end
  end.

(** The keys of [UsageStatsView.aggregate_models]. *)
Definition aggregate_models : list string :=
  ["customer"; "project_group"; "project"].

(** [', '.join(names)] *)
Fixpoint join_comma (names : list string) : string :=
  match names with
  | [] => EmptyString
  | [n] => n
  | n :: rest => n +:+ ", " +:+ join_comma rest
  end.

(** [QUERY_PARAMS.get(key, default)] for the data of the serializer. *)
Definition param (request : HttpRequest) (key : string) (default : Z) : Param :=
  match assoc key (QUERY_PARAMS request) with
  | Some s => FromQuery s
  | None => Computed default
  end.

(** The [data] that [UsageStatsView.get] builds for the serializer. *)
Definition usage_data (request : HttpRequest) (now : Z) : UsageData :=
  let hour := 60 * 60 in
  mkUsageData (param request "from" (now - hour))
              (param request "to" now)
              (param request "datapoints" 6)
              (assoc "item" (QUERY_PARAMS request)).

(** The aggregate objects that [UsageStatsView.get] loops over. *)
Definition aggregate_objects (request : HttpRequest) : list AggregateObject :=
  let aggregate_model_name :=
    default "customer" (assoc "aggregate" (QUERY_PARAMS request)) in
  let aggregate_queryset :=
    visible_aggregates (http_user request) aggregate_model_name in
  match assoc "uuid" (QUERY_PARAMS request) with
  | Some u => filter (fun o => aggregate_uuid o = u) aggregate_queryset
  | None => aggregate_queryset
  end.

(** The loop of [UsageStatsView.get] over the aggregate objects; [inl] is
    an early [return] with its response. *)
Fixpoint for_aggregates (request : HttpRequest) (now : Z)
    (aggregate_model_name : string) (objects : list AggregateObject)
    (usage_stats : list (string * list Datapoint))
    : (Z * UsageBody Datapoint) + list (string * list Datapoint) :=
  match objects with
  | [] => inr usage_stats
  | aggregate_object :: rest =>
      let instances := instances_under aggregate_model_name aggregate_object in
      match instances with
      | _ :: _ =>
          let data := usage_data request now in
          match UsageStatsSerializer data with
          | inl errors => inl (HTTP_400_BAD_REQUEST, UsageErrors errors)
          | inr get_stats =>
              for_aggregates request now aggregate_model_name rest
                (usage_stats ++ [(aggregate_name aggregate_object, get_stats instances)])
          end
      | [] =>
          for_aggregates request now aggregate_model_name rest
            (usage_stats ++ [(aggregate_name aggregate_object, [])])
      end
  end.

(** [UsageStatsView.get]; [now] is [int(time.time())]. *)
Definition UsageStatsView_get (request : HttpRequest) (now : Z)
    : result (Z * UsageBody Datapoint) :=
  let aggregate_model_name :=
    default "customer" (assoc "aggregate" (QUERY_PARAMS request)) in
  if negb (bool_decide (aggregate_model_name ∈ aggregate_models)) then
    match percent_format
            ("Get parameter " +:+ dq +:+ "aggregate" +:+ dq +:+
             " can take only this values: ")
            [join_comma aggregate_models] with
    | Some message => Ok (HTTP_400_BAD_REQUEST, UsageText message)
    | None => Raise TypeError
    end
  else
    let aggregate_queryset := aggregate_objects request in
    match for_aggregates request now aggregate_model_name aggregate_queryset [] with
    | inl response => Ok response
    | inr usage_stats => Ok (HTTP_200_OK, UsageEntries usage_stats)
    end.

End views.

End IaasViews.

(** ** iaas: the security groups of an instance ([InstanceViewSet.post_save]) *)

Module SecurityGroupSync.

(** A row of [InstanceSecurityGroup]. *)
Record InstanceSecurityGroup := mkInstanceSecurityGroup {
  isg_pk            : Z;
  isg_instance      : string;     (* uuid of the instance *)
  security_group_id : Z
}.

#[global] Instance InstanceSecurityGroup_eq_dec : EqDecision InstanceSecurityGroup.
Proof. solve_decision. Defined.

(** The table of the rows, the primary key that the next created row gets,
    and the task queue. *)
Record Store := mkStore {
  isgs    : list InstanceSecurityGroup;
  next_pk : Z;
  tasks   : list Task
}.

(** [self.object.security_groups.all()] *)
Definition security_groups (uuid : string) (st : Store) : list InstanceSecurityGroup :=
  filter (fun r => isg_instance r = uuid) (isgs st).

(** [dict((isg.security_group_id, isg) for isg in ...)]: of two rows with
    the same key the later one stays. *)
Definition old_security_groups (uuid : string) (st : Store)
    : gmap Z InstanceSecurityGroup :=
  list_to_map (reverse ((fun isg => (security_group_id isg, isg))
                          <$> security_groups uuid st)).

(** [isg.delete()] *)
Definition delete (isg : InstanceSecurityGroup) (st : Store) : Store :=
  mkStore (filter (fun r => isg_pk r ≠ isg_pk isg) (isgs st)) (next_pk st) (tasks st).

(** [models.InstanceSecurityGroup.objects.create(...)] *)
Definition create (uuid : string) (id : Z) (st : Store) : Store :=
  mkStore (isgs st ++ [mkInstanceSecurityGroup (next_pk st) uuid id])
          (next_pk st + 1) (tasks st).

Definition enqueue (t : Task) (st : Store) : Store :=
  mkStore (isgs st) (next_pk st) (tasks st ++ [t]).

(** [InstanceViewSet.post_save]; [new_security_group_ids] is what [pre_save]
    left on the view.  The items of the dictionary and the elements of the
    set difference are visited in the order of [map_to_list] and of
    [elements]. *)
Definition post_save (uuid backend_flavor_id : string) (created : bool)
    (new_security_group_ids : gset Z) (st : Store) : Store :=
  if created then
    enqueue (mkTask "schedule_provisioning" [uuid]
               [("backend_flavor_id", backend_flavor_id)]) st
  else
    let old_security_groups := old_security_groups uuid st in
    let st :=
      foldl (fun st item =>
               if decide (item.1 ∉ new_security_group_ids)
               then delete item.2 st
               else st)
            st (map_to_list old_security_groups) in
    let st :=
      foldl (fun st security_group_id => create uuid security_group_id st)
            st (elements (new_security_group_ids ∖ dom old_security_groups)) in
    enqueue (mkTask "push_instance_security_groups" [uuid] []) st.

(** Sample data: an instance with the groups 1 and 2, another one with the
    group 1. *)
Definition sample_store : Store :=
  mkStore [ mkInstanceSecurityGroup 1 "i-1" 1;
            mkInstanceSecurityGroup 2 "i-1" 2;
            mkInstanceSecurityGroup 3 "i-2" 1 ] 4 [].

End SecurityGroupSync.

(** ** core: the field for a list of at most one IP address (serializers.py) *)

Module CoreSerializers.
Import DefaultSecurityGroups.

(** [validators.ValidationError] with its message. *)
Inductive validated (A : Type) : Type :=
  | Valid (a : A)
  | ValidationError (message : string).
Arguments Valid {A} a.
Arguments ValidationError {A} message.

(** [value in validators.EMPTY_VALUES] *)
Definition is_empty_value (value : PyVal) : bool :=
  match value with
  | PNone | PStr EmptyString | PList [] | PDict [] => true
  | _ => false
  end.

Section ips_field.

(** The regular expression [validators.ipv4_re] of Django, searched in the
    text of the value. *)
Variable ipv4_re : PyVal -> bool.

(** [validate_ipv4_address_within_list] *)
Definition validate_ipv4_address_within_list (value : PyVal) : validated unit :=
  if ipv4_re value then Valid tt
  else ValidationError "Enter a list of valid IPv4 addresses.".

(** [IPsField.to_native]; the field of the model holds a string or [None],
    which the [to_native] of the parent class hands on as they are. *)
Definition IPsField_to_native (value : option string) : PyVal :=
  match value with
  | None => PList []
  | Some s => PList [PStr s]
  end.

(** [IPsField.from_native] *)
Definition IPsField_from_native (value : PyVal) : validated PyVal :=
  if is_empty_value value then Valid PNone
  else
    match value with
    | PList l =>
        match l with
        | _ :: _ :: _ =>                                (* value_count > 1 *)
            ValidationError "Only one ip address is supported."
        | [value] =>                                    (* value_count == 1 *)
            match validate_ipv4_address_within_list value with
            | ValidationError m => ValidationError m
            | Valid _ => Valid value
            end
        | [] => Valid PNone
        end
    | _ => ValidationError "Enter a list of valid IPv4 addresses."
    end.

(** What the model field holds, as a value. *)
Definition stored (value : option string) : PyVal :=
  match value with
  | None => PNone
  | Some s => PStr s
  end.

End ips_field.

End CoreSerializers.

(** ** iaas: the statistics of the template licenses *)

Module LicenseStats.
Import IaasViews.

(** [aggregate_parameter_to_field_map] of [TemplateLicenseViewSet.stats] *)
Definition aggregate_parameter_to_field_map : list (string * list string) :=
  [ ("project",
     [ "instance__cloud_project_membership__project__uuid";
       "instance__cloud_project_membership__project__name" ]);
    ("project_group",
     [ "instance__cloud_project_membership__project__project_groups__uuid";
       "instance__cloud_project_membership__project__project_groups__name" ]);
    ("type", [ "template_license__license_type" ]);
    ("name", [ "template_license__name" ]) ].

(** [name_replace_map] of [TemplateLicenseViewSet.stats] *)
Definition name_replace_map : list (string * string) :=
  [ ("instance__cloud_project_membership__project__uuid", "project_uuid");
    ("instance__cloud_project_membership__project__name", "project_name");
    ("instance__cloud_project_membership__project__project_groups__uuid",
     "project_group_uuid");
    ("instance__cloud_project_membership__project__project_groups__name",
     "project_group_name");
    ("template_license__license_type", "type");
    ("template_license__name", "name") ].

(** The body of the answer: a message, or the rows of the statistics. *)
Inductive LicenseBody (V : Type) : Type :=
  | LicenseText (message : string)
  | LicenseRows (rows : list (gmap string V)).
Arguments LicenseText {V} message.
Arguments LicenseRows {V} rows.

Section stats.

(** The values of the columns, and the rows that
    [queryset.values(fields).annotate(count=Count('id', distinct=True))]
    yields for the filtered licenses: the grouping is done by the database. *)
Variable V : Type.
Variable values_annotate : list string -> list (gmap string V).

(** The loop over [aggregate_parameters]; [inl] is the early [return]. *)
Fixpoint for_aggregate_parameters (aggregate_parameters : list string)
    (aggregate_fields : list string)
    : result (Z * LicenseBody V) + list string :=
  match aggregate_parameters with
  | [] => inr aggregate_fields
  | aggregate_parameter :: rest =>
      match assoc aggregate_parameter aggregate_parameter_to_field_map with
      | None =>
          inl match percent_format "Licenses statistics can not be aggregated by %s"
                      [aggregate_parameter] with
              | Some message => Ok (HTTP_400_BAD_REQUEST, LicenseText message)
              | None => Raise TypeError
              end
      | Some fields =>
          for_aggregate_parameters rest (aggregate_fields ++ fields)
      end
  end.

(** The body of the loop over the items of [name_replace_map], for the
    dictionary [d]. *)
Definition replace_name (d : gmap string V) (item : string * string)
    : gmap string V :=
  let db_name := item.1 in
  let output_name := item.2 in
  match d !! db_name with
  | Some v => delete db_name (<[output_name := v]> d)
  | None => d
  end.

(** The loop over [name_replace_map.iteritems()]; [items] is the order in
    which the dictionary hands out its items. *)
Definition replace_names (items : list (string * string)) (d : gmap string V)
    : gmap string V :=
  foldl replace_name d items.

(** [TemplateLicenseViewSet.stats], from the aggregate parameters on. *)
Definition stats (aggregate_parameters : list string)
    (items : list (string * string)) : result (Z * LicenseBody V) :=
  match for_aggregate_parameters aggregate_parameters [] with
  | inl response => response
  | inr aggregate_fields =>
      let queryset := values_annotate aggregate_fields in
      Ok (HTTP_200_OK, LicenseRows (replace_names items <$> queryset))
  end.

End stats.

End LicenseStats.

(** ** Vocabulary of the statements *)

(** What [tracked_processing] does with the outcome of its guarded body:
    [StateChangeError] is swallowed, anything else passes. *)
Definition swallow {E} (o : result unit * World E) : result unit * World E :=
  match o with
  | (Raise StateChangeError, w) => (Ok tt, w)
  | _ => o
  end.

(** An action request failed unless it was answered 202 Accepted. *)
Definition failed (r : result Response) : bool :=
  match r with
  | Ok resp => negb (bool_decide (status_code resp = HTTP_202_ACCEPTED))
  | Raise _ => true
  end.

(** The event record that [set_state] writes after a committed transition. *)
Definition finished_event {E St} (mc : ModelClass E St) (uuid_or_pk : string)
    (transition : string) : LogRecord :=
  mkLogRecord INFO true "Finished to %s %s with id %s"
    [replace_underscores transition; model_name mc; uuid_or_pk].

(** A handler is all-or-nothing when every failed call leaves the table as
    it found it. *)
Definition all_or_nothing (handler : M Instance Response) : Prop :=
  ∀ w, failed (handler w).1 = true -> rows (handler w).2 = rows w.

(** The character occurs in the string. *)
Fixpoint has_char (c : ascii) (s : string) : bool :=
  match s with
  | EmptyString => false
  | String c' s' => bool_decide (c' = c) || has_char c s'
  end.

(** The codes of the five instance actions. *)
Definition instance_actions : list string :=
  ["start"; "stop"; "destroy"; "flavor change"; "disk extension"].

(** ** Sample data *)

(** A table with one idle worker, one with a busy worker, and the idle one
    before a commit that will be lost. *)
Definition idle_world : World string :=
  mkWorld {[ "w-1" := "idle" ]} [] [] [].
Definition busy_world : World string :=
  mkWorld {[ "w-1" := "working" ]} [] [] [].
Definition contended_world : World string :=
  mkWorld {[ "w-1" := "idle" ]} [] [] [true].

(** A model class for tracked processing: a job is taken from [pending] to
    [processing], from there to [ready], and from anywhere to [erred]. *)
Definition Job : ModelClass string string :=
  mkModelClass "job" (fun st => st) (fun st _ => st)
    [ ("begin_processing", mkTransition (OneOf ["pending"]) "processing");
      ("set_ready", mkTransition (OneOf ["processing"]) "ready");
      ("set_erred", mkTransition AnyState "erred") ]
    [ ("save", Method (fun e table => Ok (e, table)));
      ("state", Value) ].

Definition pending_world : World string :=
  mkWorld {[ "j-1" := "pending" ]} [] [] [].

(** A processing function that fails, and one that leaves a trace and
    succeeds. *)
Definition failing_fn (args : list string) : M string unit :=
  raise (OtherException "backend unreachable").
Definition tracing_fn (args : list string) : M string unit :=
  logger_info "processing %s" args.

(** An offline instance, a staff request for it, a larger flavor of the same
    cloud, and permissive stand-ins for the filter backend, the object
    permissions and the project roles. *)
Definition vm : Instance :=
  mkInstance "i-1" OFFLINE 1024 1 10240 "cloud-1" "project-1".
Definition vm_world (oracle : list bool) : World Instance :=
  mkWorld {[ "i-1" := vm ]} [] [] oracle.
Definition staff : User := mkUser "alice" true.
Definition staff_request : Request := mkRequest staff "i-1".
Definition bigger_flavor : Flavor := mkFlavor "f-2" "cloud-1" 2048 2.
Definition display (s : InstanceState) : string :=
  match s with
  | PROVISIONING => "Provisioning" | OFFLINE => "Offline"
  | STARTING => "Starting" | ONLINE => "Online"
  | STOPPING => "Stopping" | RESIZING => "Resizing"
  | DELETING => "Deleting" | ERRED => "Erred"
  end.
Definition anyone (u : User) (i : Instance) : bool := true.
Definition no_project_roles (p : string) (u : User) (r : Role) : bool := false.

(** * Properties *)

Ltac unfold_monad :=
  unfold try_except, try_except_else, atomic, save, objects_get,
    getattr_transition, call_transition, call_method, write_row, commit, rollback,
    logger_info, logger_error, logger_exception, event_logger_info, emit,
    delay, raise, mbind, M_bind, mret, M_ret in *.

(** Settles a decidable closed proposition by evaluating its decision. *)
Ltac by_decision :=
  match goal with
  | |- ?P => apply (bool_decide_unpack P); vm_compute; exact I
  end.

Ltac split_cases :=
  repeat (case_match; simplify_eq/=; try done).

Lemma events_emit {E} (w : World E) (r : LogRecord) :
  events (mkWorld (rows w) (log w ++ [r]) (queue w) (faults w))
  = events w ++ (if is_event r then [r] else []).
Proof.
  unfold events; simpl. rewrite filter_app.
  destruct (is_event r) eqn:Hr.
  - rewrite filter_cons_True, filter_nil; done.
  - rewrite filter_cons_False, filter_nil; [done | congruence].
Qed.

Section executor_facts.
Context {E St : Type} `{EqDecision St}.
Implicit Types (mc : ModelClass E St) (w : World E) (e : E).

(** *** [set_state], case by case *)

Lemma set_state_missing mc id tr w :
  rows w !! id = None ->
  (set_state mc id tr w).1 = Raise StateChangeError.
Proof.
  intros Hnone. unfold set_state. unfold_monad. simpl. rewrite Hnone. done.
Qed.

Lemma set_state_no_attribute mc id tr w e :
  rows w !! id = Some e ->
  assoc tr (transitions mc) = None ->
  assoc tr (attributes mc) = None ->
  (set_state mc id tr w).1 = Raise (AttributeError tr).
Proof.
  intros He Ht Hm. unfold set_state. unfold_monad. simpl. rewrite He, Ht, Hm. done.
Qed.

Lemma set_state_not_callable mc id tr w e :
  rows w !! id = Some e ->
  assoc tr (transitions mc) = None ->
  assoc tr (attributes mc) = Some Value ->
  (set_state mc id tr w).1 = Raise TypeError.
Proof.
  intros He Ht Hm. unfold set_state. unfold_monad. simpl. rewrite He, Ht, Hm. done.
Qed.

Lemma set_state_not_allowed mc id tr w e t :
  rows w !! id = Some e ->
  assoc tr (transitions mc) = Some t ->
  allowed (source t) (get_state mc e) = false ->
  (set_state mc id tr w).1 = Raise StateChangeError.
Proof.
  intros He Ht Ha. unfold set_state. unfold_monad. simpl.
  rewrite He, Ht. simpl. rewrite Ha. done.
Qed.

Lemma set_state_conflict mc id tr w e t fs :
  rows w !! id = Some e ->
  assoc tr (transitions mc) = Some t ->
  allowed (source t) (get_state mc e) = true ->
  faults w = true :: fs ->
  (set_state mc id tr w).1 = Raise StateChangeError.
Proof.
  intros He Ht Ha Hf. unfold set_state. unfold_monad. simpl.
  rewrite He, Ht. simpl. rewrite Ha. simpl. rewrite Hf. done.
Qed.

Lemma set_state_success mc id tr w e t :
  rows w !! id = Some e ->
  assoc tr (transitions mc) = Some t ->
  allowed (source t) (get_state mc e) = true ->
  head (faults w) ≠ Some true ->
  (set_state mc id tr w).1 = Ok tt ∧
  rows (set_state mc id tr w).2 = <[id := put_state mc (target t) e]> (rows w).
Proof.
  intros He Ht Ha Hf. unfold set_state. unfold_monad. simpl.
  rewrite He, Ht. simpl. rewrite Ha. simpl.
  destruct (faults w) as [|[] fs]; simpl in *; done.
Qed.

(** A call that returned found the row.  Under the name of a [@transition]
    method the transition was allowed from the stored state and the stored
    row is that row in the target state; under any other name the attribute
    is another method, whose call returned, and the stored row is the entity
    as that call left it. *)
Lemma set_state_ok_inv mc id tr w :
  (set_state mc id tr w).1 = Ok tt ->
  ∃ e, rows w !! id = Some e ∧
    ((∃ t, assoc tr (transitions mc) = Some t ∧
           allowed (source t) (get_state mc e) = true ∧
           rows (set_state mc id tr w).2
           = <[id := put_state mc (target t) e]> (rows w))
     ∨ (∃ call e' table,
           assoc tr (transitions mc) = None ∧
           assoc tr (attributes mc) = Some (Method call) ∧
           call e (rows w) = Ok (e', table) ∧
           rows (set_state mc id tr w).2 = <[id := e']> table)).
Proof.
  unfold set_state. unfold_monad. simpl.
  destruct (rows w !! id) as [e|] eqn:He; [|done].
  destruct (assoc tr (transitions mc)) as [t|] eqn:Ht.
  - simpl. destruct (allowed (source t) (get_state mc e)) eqn:Ha; [|done].
    simpl. intros Hr. exists e. split; [done|]. left. exists t.
    repeat split; try done.
    destruct (faults w) as [|[] fs]; simpl in *; done.
  - destruct (assoc tr (attributes mc)) as [[call|]|] eqn:Hm; [| done | done].
    simpl. destruct (call e (rows w)) as [[e' table]|x] eqn:Hcall; simpl.
    + intros Hr. exists e. split; [done|]. right. exists call, e', table.
      repeat split; try done.
      destruct (faults w) as [|[] fs]; simpl in *; done.
    + destruct x; done.
Qed.

(** *** What a call leaves behind *)

Lemma set_state_failure_keeps_rows mc id tr w :
  is_ok (set_state mc id tr w).1 = false ->
  rows (set_state mc id tr w).2 = rows w.
Proof.
  unfold set_state. unfold_monad. simpl. split_cases.
Qed.

Lemma set_state_keeps_queue mc id tr w :
  queue (set_state mc id tr w).2 = queue w.
Proof.
  unfold set_state. unfold_monad. simpl. split_cases.
Qed.

Lemma set_state_failure_keeps_events mc id tr w :
  is_ok (set_state mc id tr w).1 = false ->
  events (set_state mc id tr w).2 = events w.
Proof.
  unfold set_state. unfold_monad. simpl.
  split_cases; intros _; unfold events; simpl;
    rewrite ?filter_app, ?filter_cons_False, ?filter_nil, ?app_nil_r by (simpl; congruence);
    done.
Qed.

Lemma set_state_success_event mc id tr w :
  is_ok (set_state mc id tr w).1 = true ->
  events (set_state mc id tr w).2 = events w ++ [finished_event mc id tr].
Proof.
  unfold set_state. unfold_monad. simpl.
  split_cases; intros _; unfold events; simpl;
    rewrite ?filter_app, ?filter_cons_True, ?filter_cons_False, ?filter_nil, ?app_nil_r
      by (simpl; congruence);
    done.
Qed.

End executor_facts.

(** ** Claims about the executor *)

(** C2: for every call [set_state model_class id transition], each of the
    three failure kinds -- the entity is missing, the current state is not
    among the sources of the transition, the commit is lost to a concurrent
    update -- reaches the caller as [StateChangeError] and as nothing else. *)
Theorem set_state_unified_error {E St} `{EqDecision St}
    (mc : ModelClass E St) (id tr : string) (w : World E) :
  (rows w !! id = None ->
     (set_state mc id tr w).1 = Raise StateChangeError)
  ∧ (∀ e t, rows w !! id = Some e ->
       assoc tr (transitions mc) = Some t ->
       allowed (source t) (get_state mc e) = false ->
       (set_state mc id tr w).1 = Raise StateChangeError)
  ∧ (∀ e t fs, rows w !! id = Some e ->
       assoc tr (transitions mc) = Some t ->
       allowed (source t) (get_state mc e) = true ->
       faults w = true :: fs ->
       (set_state mc id tr w).1 = Raise StateChangeError).
Proof.
  split; [|split].
  - apply set_state_missing.
  - intros e t. apply set_state_not_allowed.
  - intros e t fs. apply set_state_conflict.
Qed.

Lemma set_state_unified_error_witness :
  (set_state Worker "w-2" "start_working" idle_world).1 = Raise StateChangeError
  ∧ (set_state Worker "w-1" "start_working" busy_world).1 = Raise StateChangeError
  ∧ (set_state Worker "w-1" "start_working" contended_world).1 = Raise StateChangeError.
Proof.
  split; [|split].
  - apply (set_state_unified_error Worker "w-2" "start_working" idle_world).
    reflexivity.
  - apply (set_state_unified_error Worker "w-1" "start_working" busy_world)
      with (e := "working") (t := mkTransition (OneOf ["idle"]) "working");
      reflexivity.
  - apply (set_state_unified_error Worker "w-1" "start_working" contended_world)
      with (e := "idle") (t := mkTransition (OneOf ["idle"]) "working") (fs := []);
      reflexivity.
Defined.

Section tracked_processing_facts.
Context {E St : Type} `{EqDecision St}.
Implicit Types (mc : ModelClass E St) (w : World E).

Lemma swallow_never_state_change_error (o : result unit * World E) :
  (swallow o).1 ≠ Raise StateChangeError.
Proof. destruct o as [[[]|[]] w]; simpl; congruence. Qed.

(** The wrapper is [swallow] applied to its guarded body. *)
Lemma tracked_processing_unfold mc ps ds es fn id rest w :
  tracked_processing mc ps ds es fn (id :: rest) w =
  swallow
    (match set_state mc id ps w with
     | (Ok _, w1) =>
         match fn (id :: rest) w1 with
         | (Ok _, w2) => set_state mc id ds w2
         | (Raise _, w2) =>
             set_state mc id es
               (logger_exception "Failed to %s %s with id %s"
                  [ps; model_name mc; id] w2).2
         end
     | (Raise e, w1) => (Raise e, w1)
     end).
Proof.
  unfold tracked_processing, try_except, try_except_else, mbind, M_bind, mret, M_ret, raise.
  destruct (set_state mc id ps w) as [[[]|e] w1]; simpl.
  - destruct (fn (id :: rest) w1) as [[[]|e] w2]; simpl.
    + destruct (set_state mc id ds w2) as [[[]|[]] w3]; reflexivity.
    + destruct (set_state mc id es _) as [[[]|[]] w3]; reflexivity.
  - destruct e; reflexivity.
Qed.

End tracked_processing_facts.

(** C10: for every function wrapped by [tracked_processing]: the wrapper
    never lets [StateChangeError] reach its caller; when the first transition,
    to the processing state, fails, the processing function is not invoked
    (the outcome is that of the failed [set_state] alone, whatever the
    function); and when the processing function raises, the wrapper applies
    the error transition to the world the function left, never the desired
    one, so that the entity is stored in the target state of the error
    transition whenever that transition is allowed and commits. *)
Theorem tracked_processing_guards {E St} `{EqDecision St}
    (mc : ModelClass E St) (ps ds es : string)
    (fn : list string -> M E unit) (args : list string) (w : World E) :
  (tracked_processing mc ps ds es fn args w).1 ≠ Raise StateChangeError
  ∧ (∀ id rest, args = id :: rest ->
       is_ok (set_state mc id ps w).1 = false ->
       tracked_processing mc ps ds es fn args w = swallow (set_state mc id ps w))
  ∧ (∀ id rest w1 ex w2, args = id :: rest ->
       set_state mc id ps w = (Ok tt, w1) ->
       fn args w1 = (Raise ex, w2) ->
       let w3 := (logger_exception "Failed to %s %s with id %s"
                    [ps; model_name mc; id] w2).2 in
       tracked_processing mc ps ds es fn args w = swallow (set_state mc id es w3)
       ∧ (∀ e t, rows w2 !! id = Some e ->
            assoc es (transitions mc) = Some t ->
            allowed (source t) (get_state mc e) = true ->
            head (faults w2) ≠ Some true ->
            (tracked_processing mc ps ds es fn args w).1 = Ok tt ∧
            rows (tracked_processing mc ps ds es fn args w).2
              = <[id := put_state mc (target t) e]> (rows w2))).
Proof.
  split; [|split].
  - destruct args as [|id rest]; [done|].
    rewrite tracked_processing_unfold. apply swallow_never_state_change_error.
  - intros id rest -> Hfail. rewrite tracked_processing_unfold.
    destruct (set_state mc id ps w) as [[[]|e] w1]; simpl in *; done.
  - intros id rest w1 ex w2 -> Hps Hfn w3.
    assert (Hrun : tracked_processing mc ps ds es fn (id :: rest) w
                   = swallow (set_state mc id es w3)).
    { rewrite tracked_processing_unfold, Hps, Hfn. done. }
    split; [done|].
    intros e t He Ht Ha Hf. rewrite Hrun.
    destruct (set_state_success mc id es w3 e t) as [Hok Hrows]; try done.
    destruct (set_state mc id es w3) as [r w4]; simpl in *. by subst r.
Qed.

Lemma tracked_processing_guards_witness :
  (tracked_processing Job "begin_processing" "set_ready" default_error_state
     tracing_fn ["j-2"] pending_world
   = swallow (set_state Job "j-2" "begin_processing" pending_world))
  ∧ (rows (tracked_processing Job "begin_processing" "set_ready" default_error_state
             failing_fn ["j-1"] pending_world).2
     = <[ "j-1" := "erred" ]> {[ "j-1" := "processing" ]}).
Proof.
  split.
  - apply (tracked_processing_guards Job "begin_processing" "set_ready"
             default_error_state tracing_fn ["j-2"] pending_world)
      with (rest := []); reflexivity.
  - pose proof (tracked_processing_guards Job "begin_processing" "set_ready"
                  default_error_state failing_fn ["j-1"] pending_world)
      as (_ & _ & Herr).
    specialize (Herr "j-1" [] _ _ _ eq_refl eq_refl eq_refl).
    destruct Herr as [_ Herr].
    apply (Herr "processing" (mkTransition AnyState "erred")); try reflexivity.
    simpl. congruence.
Defined.

(** ** Claims about the instance actions *)

Section instance_views_facts.
Variable fsm : list (string * Transition InstanceState).
Variable members : list (string * Attribute Instance).
Variable get_state_display : InstanceState -> string.
Variable role_filter : User -> Instance -> bool.
Variable has_object_permission : User -> Instance -> bool.
Variable has_user : string -> User -> Role -> bool.

Local Abbreviation get_object' := (get_object role_filter has_object_permission).
Local Abbreviation reaches' := (reaches_transition role_filter has_object_permission has_user).
Local Abbreviation schedule' :=
  (_schedule_transition fsm members get_state_display role_filter has_object_permission has_user).
Local Abbreviation change_flavor' :=
  (change_flavor fsm members get_state_display role_filter has_object_permission has_user).
Local Abbreviation resize_disk' :=
  (resize_disk fsm members get_state_display role_filter has_object_permission has_user).

Lemma get_object_keeps_world request w :
  (get_object' request w).2 = w.
Proof. unfold get_object. split_cases. Qed.

Lemma get_object_reached request w instance :
  reaches' request w instance ->
  get_object' request w = (Ok instance, w).
Proof.
  intros (Hrow & Hfilter & Hperm & _). unfold get_object.
  rewrite Hrow, Hfilter, Hperm. done.
Qed.

(** The handler in terms of the outcome of [set_state]. *)
Lemma schedule_transition_run request uuid op kwargs w instance tr task :
  reaches' request w instance ->
  assoc op supported_operations = Some (tr, task) ->
  schedule' request uuid op kwargs w =
  match set_state (InstanceModel fsm members) uuid tr w with
  | (Ok _, w1) =>
      (Ok (mkResponse HTTP_202_ACCEPTED [("status", op +:+ " was scheduled")]),
       mkWorld (rows w1) (log w1) (queue w1 ++ [mkTask task [uuid] kwargs]) (faults w1))
  | (Raise StateChangeError, w1) =>
      (Ok (mkResponse HTTP_409_CONFLICT
             [("status",
               "Performing " +:+ op +:+ " operation from instance state '" +:+
               get_state_display (state instance) +:+ "' is not allowed")]),
       w1)
  | (Raise e, w1) => (Raise e, w1)
  end.
Proof.
  intros Hreach Hop. unfold _schedule_transition.
  unfold mbind at 1, M_bind at 1.
  rewrite (get_object_reached _ _ _ Hreach).
  destruct Hreach as (_ & _ & _ & Hadmin).
  apply orb_true_iff in Hadmin.
  replace (negb _ && negb _) with false
    by (destruct Hadmin as [-> | ->]; simpl; rewrite ?andb_false_r; done).
  rewrite Hop.
  unfold try_except_else, delay, mbind, M_bind, mret, M_ret, raise.
  destruct (set_state (InstanceModel fsm members) uuid tr w) as [[[]|e] w1]; [done|].
  destruct e; done.
Qed.

(** A request that is not answered 202 leaves the table, the events and the
    queue as they were. *)
Lemma schedule_transition_failure request uuid op kwargs w r w' :
  schedule' request uuid op kwargs w = (r, w') ->
  failed r = true ->
  rows w' = rows w ∧ events w' = events w ∧ queue w' = queue w.
Proof.
  unfold _schedule_transition.
  unfold mbind at 1, M_bind at 1.
  pose proof (get_object_keeps_world request w) as Hw.
  destruct (get_object' request w) as [[instance|e] w0]; simpl in Hw; subst w0;
    [|by intros [= <- <-]].
  destruct (negb _ && negb _); [by intros [= <- <-]|].
  destruct (assoc op supported_operations) as [[tr task]|]; [|by intros [= <- <-]].
  unfold try_except_else, delay, mbind, M_bind, mret, M_ret, raise.
  pose proof (set_state_failure_keeps_rows (InstanceModel fsm members) uuid tr w) as Hrows.
  pose proof (set_state_failure_keeps_events (InstanceModel fsm members) uuid tr w) as Hev.
  pose proof (set_state_keeps_queue (InstanceModel fsm members) uuid tr w) as Hq.
  destruct (set_state (InstanceModel fsm members) uuid tr w) as [[[]|e] w1]; simpl in *.
  - intros [= <- <-]. done.
  - destruct e; intros [= <- <-] _; auto.
Qed.

Lemma schedule_transition_status request uuid op kwargs w resp w' :
  schedule' request uuid op kwargs w = (Ok resp, w') ->
  status_code resp = HTTP_202_ACCEPTED ∨ status_code resp = HTTP_409_CONFLICT.
Proof.
  unfold _schedule_transition.
  unfold mbind at 1, M_bind at 1.
  destruct (get_object' request w) as [[instance|e] w0]; [|done].
  destruct (negb _ && negb _); [done|].
  destruct (assoc op supported_operations) as [[tr task]|]; [|done].
  unfold try_except_else, delay, mbind, M_bind, mret, M_ret, raise.
  destruct (set_state (InstanceModel fsm members) uuid tr w0) as [[[]|e] w1]; simpl.
  - intros [= <- <-]. by left.
  - destruct e; intros [= <- <-]. by right.
Qed.

(** [instance.save()] in autocommit: either the row is stored, or the commit
    is lost and nothing is. *)
Lemma save_cases (key : string) (i : Instance) (w : World Instance) :
  (∃ w1, save key i w = (Ok tt, w1) ∧ rows w1 = <[key := i]> (rows w)
         ∧ log w1 = log w ∧ queue w1 = queue w)
  ∨ (∃ w1, save key i w = (Raise DatabaseError, w1) ∧ rows w1 = rows w).
Proof.
  unfold save, atomic, write_row, commit, rollback. simpl.
  destruct (faults w) as [|[] fs]; simpl; eauto 10.
Qed.

(** Where a failed [change_flavor] leaves the table. *)
Lemma change_flavor_failure request instance flavor w r w' :
  change_flavor' request instance flavor w = (r, w') ->
  failed r = true ->
  let saved := with_flavor (flavor_ram flavor) (flavor_cores flavor) instance in
  (rows w' = rows w ∨ rows w' = <[uuid instance := saved]> (rows w))
  ∧ (∀ resp, r = Ok resp -> status_code resp = HTTP_400_BAD_REQUEST ->
       rows w' = rows w)
  ∧ (∀ resp, r = Ok resp -> status_code resp = HTTP_409_CONFLICT ->
       rows w' = <[uuid instance := saved]> (rows w)).
Proof.
  intros Hrun Hfailed saved. unfold change_flavor in Hrun.
  destruct (negb (bool_decide (flavor_cloud flavor = membership_cloud instance))).
  { injection Hrun as <- <-. repeat split; auto. intros resp [= <-]. done. }
  unfold mbind, M_bind in Hrun. simpl in Hrun.
  destruct (save_cases (uuid instance) saved w)
    as [(w1 & Hsave & Hrows1 & _) | (w1 & Hsave & Hrows1)];
    fold saved in Hrun; rewrite Hsave in Hrun.
  - destruct (schedule_transition_failure _ _ _ _ _ _ _ Hrun Hfailed) as (Hrows & _).
    rewrite Hrows, Hrows1. repeat split; auto.
    intros resp -> H400.
    destruct (schedule_transition_status _ _ _ _ _ _ _ Hrun) as [H|H];
      rewrite H in H400; done.
  - injection Hrun as <- <-. repeat split; auto; intros resp; done.
Qed.

(** Where a failed [resize_disk] leaves the table. *)
Lemma resize_disk_failure request instance new_size w r w' :
  resize_disk' request instance new_size w = (r, w') ->
  failed r = true ->
  let saved := with_data_volume_size new_size instance in
  (rows w' = rows w ∨ rows w' = <[uuid instance := saved]> (rows w))
  ∧ (∀ resp, r = Ok resp -> status_code resp = HTTP_400_BAD_REQUEST ->
       rows w' = rows w)
  ∧ (∀ resp, r = Ok resp -> status_code resp = HTTP_409_CONFLICT ->
       rows w' = <[uuid instance := saved]> (rows w)).
Proof.
  intros Hrun Hfailed saved. unfold resize_disk in Hrun.
  destruct (bool_decide (new_size <= data_volume_size instance)).
  { injection Hrun as <- <-. repeat split; auto. intros resp [= <-]. done. }
  unfold mbind, M_bind in Hrun. simpl in Hrun.
  destruct (save_cases (uuid instance) saved w)
    as [(w1 & Hsave & Hrows1 & _) | (w1 & Hsave & Hrows1)];
    fold saved in Hrun; rewrite Hsave in Hrun.
  - destruct (schedule_transition_failure _ _ _ _ _ _ _ Hrun Hfailed) as (Hrows & _).
    rewrite Hrows, Hrows1. repeat split; auto.
    intros resp -> H400.
    destruct (schedule_transition_status _ _ _ _ _ _ _ Hrun) as [H|H];
      rewrite H in H400; done.
  - injection Hrun as <- <-. repeat split; auto; intros resp; done.
Qed.

End instance_views_facts.

(** C3: for every instance action (start, stop, destroy, flavor change, disk
    extension) that reaches its transition: when [set_state] accepts it, the
    handler puts exactly one task on the queue and answers 202 Accepted with a
    status message; when [set_state] rejects it, the handler answers 409
    Conflict and the queue is as before. *)
Theorem schedule_transition_accepts_or_rejects
    (fsm : list (string * Transition InstanceState))
    (members : list (string * Attribute Instance))
    (get_state_display : InstanceState -> string)
    (role_filter has_object_permission : User -> Instance -> bool)
    (has_user : string -> User -> Role -> bool)
    (request : Request) (uuid op : string) (kwargs : list (string * string))
    (w : World Instance) (instance : Instance) :
  op ∈ instance_actions ->
  reaches_transition role_filter has_object_permission has_user request w instance ->
  ∃ tr task,
    assoc op supported_operations = Some (tr, task) ∧
    let out := _schedule_transition fsm members get_state_display role_filter
                 has_object_permission has_user request uuid op kwargs w in
    let st := set_state (InstanceModel fsm members) uuid tr w in
    (st.1 = Ok tt ->
       out.1 = Ok (mkResponse HTTP_202_ACCEPTED [("status", op +:+ " was scheduled")])
       ∧ queue out.2 = queue w ++ [mkTask task [uuid] kwargs]
       ∧ rows out.2 = rows st.2)
    ∧ (st.1 = Raise StateChangeError ->
       (∃ message, out.1 = Ok (mkResponse HTTP_409_CONFLICT [("status", message)]))
       ∧ queue out.2 = queue w
       ∧ rows out.2 = rows w).
Proof.
  intros Hop Hreach.
  assert (∃ tr task, assoc op supported_operations = Some (tr, task))
    as (tr & task & Hassoc).
  { unfold instance_actions in Hop.
    repeat (apply elem_of_cons in Hop as [-> | Hop]; [by eauto|]).
    by apply elem_of_nil in Hop. }
  exists tr, task. split; [done|]. cbv zeta.
  rewrite (schedule_transition_run fsm members get_state_display role_filter
             has_object_permission has_user request uuid op kwargs w instance tr task
             Hreach Hassoc).
  pose proof (set_state_keeps_queue (InstanceModel fsm members) uuid tr w) as Hq.
  pose proof (set_state_failure_keeps_rows (InstanceModel fsm members) uuid tr w) as Hrows.
  destruct (set_state (InstanceModel fsm members) uuid tr w) as [r w1]; simpl in *.
  split; intros ->; simpl.
  - by rewrite Hq.
  - split; [eauto|]. split; [done|]. by apply Hrows.
Qed.

Lemma schedule_transition_accepts_or_rejects_witness :
  (start Instance_fsm Instance_members display anyone anyone no_project_roles staff_request
     (vm_world [])).1
  = Ok (mkResponse HTTP_202_ACCEPTED [("status", "start was scheduled")])
  ∧ queue (start Instance_fsm Instance_members
      display anyone anyone no_project_roles staff_request
             (vm_world [])).2
    = [mkTask "schedule_starting" ["i-1"] []].
Proof.
  destruct (schedule_transition_accepts_or_rejects Instance_fsm Instance_members
      display anyone anyone
              no_project_roles staff_request "i-1" "start" [] (vm_world []) vm)
    as (tr & task & Hassoc & Haccept & _).
  - unfold instance_actions. apply elem_of_cons. by left.
  - repeat split; reflexivity.
  - injection Hassoc as <- <-.
    destruct Haccept as (Hresp & Hqueue & _); [reflexivity|].
    split; [exact Hresp | exact Hqueue].
Defined.

(** The scenarios of the specification: starting an offline instance stores
    it as STARTING, enqueues one task and writes one event; starting it again
    is answered 409 and it stays STARTING. *)
Example start_then_start_again :
  let first := start Instance_fsm Instance_members display anyone anyone no_project_roles
                 staff_request (vm_world []) in
  let second := start Instance_fsm Instance_members display anyone anyone no_project_roles
                  staff_request first.2 in
  state <$> rows first.2 !! "i-1" = Some STARTING
  ∧ length (queue first.2) = 1%nat
  ∧ length (events first.2) = 1%nat
  ∧ status_code <$> (match second.1 with Ok r => Some r | Raise _ => None end)
    = Some HTTP_409_CONFLICT
  ∧ state <$> rows second.2 !! "i-1" = Some STARTING
  ∧ queue second.2 = queue first.2
  ∧ events second.2 = events first.2.
Proof. vm_compute. repeat split. Qed.

(** C4: a failed transition writes no event record and enqueues no task, in
    particular when the identifier does not exist; the event record appears
    exactly when the transition has committed: the row was found, under the
    name of a [@transition] method it is stored in the target state, and a
    name that is no such method is that of another method of the entity,
    whose call returned.  The first three parts are about [set_state], the
    last about the handler that calls it. *)
Theorem failure_leaves_no_event_and_no_task {E St} `{EqDecision St}
    (mc : ModelClass E St) (id tr : string) (w : World E)
    (fsm : list (string * Transition InstanceState))
    (members : list (string * Attribute Instance))
    (get_state_display : InstanceState -> string)
    (role_filter has_object_permission : User -> Instance -> bool)
    (has_user : string -> User -> Role -> bool)
    (request : Request) (uuid op : string) (kwargs : list (string * string))
    (wi : World Instance) :
  (is_ok (set_state mc id tr w).1 = false ->
     events (set_state mc id tr w).2 = events w
     ∧ queue (set_state mc id tr w).2 = queue w)
  ∧ (rows w !! id = None ->
     (set_state mc id tr w).1 = Raise StateChangeError
     ∧ events (set_state mc id tr w).2 = events w
     ∧ queue (set_state mc id tr w).2 = queue w)
  ∧ (is_ok (set_state mc id tr w).1 = true ->
     events (set_state mc id tr w).2 = events w ++ [finished_event mc id tr]
     ∧ ∃ e, rows w !! id = Some e
            ∧ (∀ t, assoc tr (transitions mc) = Some t ->
                 allowed (source t) (get_state mc e) = true
                 ∧ rows (set_state mc id tr w).2
                   = <[id := put_state mc (target t) e]> (rows w))
            ∧ (assoc tr (transitions mc) = None ->
                 ∃ call e' table,
                   assoc tr (attributes mc) = Some (Method call)
                   ∧ call e (rows w) = Ok (e', table)
                   ∧ rows (set_state mc id tr w).2 = <[id := e']> table))
  ∧ (let out := _schedule_transition fsm members get_state_display role_filter
                  has_object_permission has_user request uuid op kwargs wi in
     failed out.1 = true ->
     events out.2 = events wi ∧ queue out.2 = queue wi).
Proof.
  split; [|split; [|split]].
  - intros Hfail. split.
    + by apply set_state_failure_keeps_events.
    + apply set_state_keeps_queue.
  - intros Hnone.
    pose proof (set_state_missing mc id tr w Hnone) as Hraise.
    split; [done|]. split.
    + apply set_state_failure_keeps_events. by rewrite Hraise.
    + apply set_state_keeps_queue.
  - intros Hok. split.
    + by apply set_state_success_event.
    + destruct (set_state_ok_inv mc id tr w)
        as (e & He & [(t & Ht & Ha & Hrows) | (call & e' & table & Ht & Hm & Hc & Hrows)]).
      { destruct (set_state mc id tr w).1 as [[]|]; done. }
      * exists e. split; [done|]. split; [|congruence].
        intros t' Ht'. rewrite Ht in Ht'. by injection Ht' as <-.
      * exists e. split; [done|]. split; [congruence|]. eauto 10.
  - cbv zeta. intros Hfailed.
    destruct (_schedule_transition _ _ _ _ _ _ _ _ _ _ wi) as [r w'] eqn:Hrun.
    destruct (schedule_transition_failure _ _ _ _ _ _ _ _ _ _ _ _ _ Hrun Hfailed)
      as (_ & Hev & Hq).
    done.
Qed.

Lemma failure_leaves_no_event_and_no_task_witness :
  ((set_state Worker "w-2" "start_working" idle_world).1 = Raise StateChangeError
   ∧ events (set_state Worker "w-2" "start_working" idle_world).2 = []
   ∧ queue (set_state Worker "w-2" "start_working" idle_world).2 = [])
  ∧ events (set_state Worker "w-1" "start_working" idle_world).2
    = [finished_event Worker "w-1" "start_working"]
  ∧ queue (stop Instance_fsm Instance_members
      display anyone anyone no_project_roles staff_request
             (vm_world [])).2 = [].
Proof.
  pose proof (failure_leaves_no_event_and_no_task
                Worker "w-2" "start_working" idle_world
                Instance_fsm Instance_members display anyone anyone no_project_roles
                staff_request "i-1" "stop" [] (vm_world []))
    as (_ & Hmissing & _ & Hhandler).
  pose proof (failure_leaves_no_event_and_no_task
                Worker "w-1" "start_working" idle_world
                Instance_fsm Instance_members display anyone anyone no_project_roles
                staff_request "i-1" "stop" [] (vm_world []))
    as (_ & _ & Hcommitted & _).
  split; [|split].
  - apply Hmissing. reflexivity.
  - apply Hcommitted. reflexivity.
  - apply Hhandler. reflexivity.
Defined.

(** C1, as stated, fails for the callers: a staff user resizes an offline
    instance; the handler's own save commits, the commit of [set_state] is
    then lost, the request is answered 409, and the new flavor (the new disk
    size) is in the table. *)
Lemma resize_not_all_or_nothing :
  ¬ all_or_nothing
      (resize Instance_fsm Instance_members display anyone anyone no_project_roles
         staff_request (ResizeFlavor bigger_flavor))
  ∧ ¬ all_or_nothing
      (resize Instance_fsm Instance_members display anyone anyone no_project_roles
         staff_request (ResizeDisk 20480)).
Proof.
  split; intros Hall; specialize (Hall (vm_world [false; true]) eq_refl);
    apply (f_equal (fun m => m !! "i-1")) in Hall;
    vm_compute in Hall; discriminate Hall.
Qed.

(** The run behind the counterexample: the answer, and the row afterwards. *)
Example resize_flavor_conflict_run :
  let out := resize Instance_fsm Instance_members display anyone anyone no_project_roles
               staff_request (ResizeFlavor bigger_flavor) (vm_world [false; true]) in
  out.1 = Ok (mkResponse HTTP_409_CONFLICT
                [("status",
                  "Performing flavor change operation from instance state 'Offline' is not allowed")])
  ∧ rows out.2 !! "i-1" = Some (mkInstance "i-1" OFFLINE 2048 2 10240 "cloud-1" "project-1")
  ∧ queue out.2 = [].
Proof. vm_compute. repeat split. Qed.

(** C1, amended: [set_state] is all-or-nothing, after any failure the table is
    as before the call.  Its callers [change_flavor] and [resize_disk] leave
    the table as it was when they refuse with 400; after any other failure
    every other row is as before, no row is added or removed, and the row of
    the instance is the stored one in every field but those that the handler
    saved before the transition: after [change_flavor] ram and cores are the
    old ones or those of the flavor, after [resize_disk] the disk size is the
    old one or the new one; the state, the identifier, the cloud, the project
    and the fields that the handler did not save are as before. *)
Theorem transition_failure_scope
    (fsm : list (string * Transition InstanceState))
    (members : list (string * Attribute Instance))
    (get_state_display : InstanceState -> string)
    (role_filter has_object_permission : User -> Instance -> bool)
    (has_user : string -> User -> Role -> bool) :
  (∀ (E St : Type) (dec : EqDecision St) (mc : ModelClass E St) id tr (w : World E),
     is_ok (set_state mc id tr w).1 = false ->
     rows (set_state mc id tr w).2 = rows w)
  ∧ (∀ request instance flavor w r w',
       change_flavor fsm members get_state_display role_filter has_object_permission
         has_user request instance flavor w = (r, w') ->
       failed r = true ->
       (∀ resp, r = Ok resp -> status_code resp = HTTP_400_BAD_REQUEST ->
          rows w' = rows w)
       ∧ (rows w !! uuid instance = Some instance ->
          ∀ k, state <$> rows w' !! k = state <$> rows w !! k)
       ∧ (∀ k, k ≠ uuid instance -> rows w' !! k = rows w !! k)
       ∧ (rows w !! uuid instance = Some instance ->
          ∃ i', rows w' = <[uuid instance := i']> (rows w)
                ∧ uuid i' = uuid instance
                ∧ state i' = state instance
                ∧ data_volume_size i' = data_volume_size instance
                ∧ membership_cloud i' = membership_cloud instance
                ∧ membership_project i' = membership_project instance
                ∧ ((ram i' = ram instance ∧ cores i' = cores instance)
                   ∨ (ram i' = flavor_ram flavor ∧ cores i' = flavor_cores flavor))))
  ∧ (∀ request instance new_size w r w',
       resize_disk fsm members get_state_display role_filter has_object_permission
         has_user request instance new_size w = (r, w') ->
       failed r = true ->
       (∀ resp, r = Ok resp -> status_code resp = HTTP_400_BAD_REQUEST ->
          rows w' = rows w)
       ∧ (rows w !! uuid instance = Some instance ->
          ∀ k, state <$> rows w' !! k = state <$> rows w !! k)
       ∧ (∀ k, k ≠ uuid instance -> rows w' !! k = rows w !! k)
       ∧ (rows w !! uuid instance = Some instance ->
          ∃ i', rows w' = <[uuid instance := i']> (rows w)
                ∧ uuid i' = uuid instance
                ∧ state i' = state instance
                ∧ ram i' = ram instance
                ∧ cores i' = cores instance
                ∧ membership_cloud i' = membership_cloud instance
                ∧ membership_project i' = membership_project instance
                ∧ (data_volume_size i' = data_volume_size instance
                   ∨ data_volume_size i' = new_size))).
Proof.
  split; [|split].
  - intros E St dec mc id tr w. apply set_state_failure_keeps_rows.
  - intros request instance flavor w r w' Hrun Hfailed.
    destruct (change_flavor_failure _ _ _ _ _ _ _ _ _ _ _ _ Hrun Hfailed)
      as (Hrows & H400 & _).
    split; [done|]. split; [|split].
    + intros Hrow k. destruct Hrows as [-> | ->]; [done|].
      destruct (decide (k = uuid instance)) as [-> | Hk].
      * by rewrite lookup_insert_eq, Hrow.
      * by rewrite lookup_insert_ne.
    + intros k Hk. destruct Hrows as [-> | ->]; [done|].
      by rewrite lookup_insert_ne.
    + intros Hrow. destruct Hrows as [-> | ->].
      * exists instance. rewrite insert_id by done. repeat split; auto.
      * eexists. split; [reflexivity|]. repeat split; auto.
  - intros request instance new_size w r w' Hrun Hfailed.
    destruct (resize_disk_failure _ _ _ _ _ _ _ _ _ _ _ _ Hrun Hfailed)
      as (Hrows & H400 & _).
    split; [done|]. split; [|split].
    + intros Hrow k. destruct Hrows as [-> | ->]; [done|].
      destruct (decide (k = uuid instance)) as [-> | Hk].
      * by rewrite lookup_insert_eq, Hrow.
      * by rewrite lookup_insert_ne.
    + intros k Hk. destruct Hrows as [-> | ->]; [done|].
      by rewrite lookup_insert_ne.
    + intros Hrow. destruct Hrows as [-> | ->].
      * exists instance. rewrite insert_id by done. repeat split; auto.
      * eexists. split; [reflexivity|]. repeat split; auto.
Qed.

Lemma transition_failure_scope_witness :
  rows (set_state (InstanceModel Instance_fsm Instance_members) "i-1"
          "schedule_stopping" (vm_world [])).2 = rows (vm_world [])
  ∧ state <$> rows (change_flavor Instance_fsm Instance_members
                      display anyone anyone no_project_roles
                      staff_request vm bigger_flavor (vm_world [false; true])).2 !! "i-1"
    = Some OFFLINE
  ∧ rows (change_flavor Instance_fsm Instance_members
            display anyone anyone no_project_roles
            staff_request vm bigger_flavor (vm_world [false; true])).2 !! "i-2"
    = None
  ∧ (∃ i', rows (change_flavor Instance_fsm Instance_members
                   display anyone anyone no_project_roles
                   staff_request vm bigger_flavor (vm_world [false; true])).2 !! "i-1"
           = Some i'
           ∧ data_volume_size i' = 10240 ∧ membership_cloud i' = "cloud-1")
  ∧ rows (resize_disk Instance_fsm Instance_members
            display anyone anyone no_project_roles
            staff_request vm 10240 (vm_world [])).2
    = rows (vm_world []).
Proof.
  pose proof (transition_failure_scope Instance_fsm Instance_members display anyone
                anyone no_project_roles) as (Hset & Hflavor & Hdisk).
  specialize (Hflavor staff_request vm bigger_flavor (vm_world [false; true])
                _ _ (surjective_pairing _) eq_refl).
  specialize (Hdisk staff_request vm 10240 (vm_world [])
                _ _ (surjective_pairing _) eq_refl).
  destruct Hflavor as (_ & Hstate & Hothers & Hfields).
  destruct Hdisk as (H400 & _ & _).
  split; [|split; [|split; [|split]]].
  - apply Hset. reflexivity.
  - rewrite (Hstate eq_refl "i-1"). reflexivity.
  - rewrite (Hothers "i-2"); [reflexivity | discriminate].
  - destruct (Hfields eq_refl) as (i' & Hrows & _ & _ & Hsize & Hcloud & _).
    exists i'. rewrite Hrows. split; [apply lookup_insert_eq|].
    split; [exact Hsize | exact Hcloud].
  - apply (H400 _ eq_refl eq_refl).
Defined.

(** ** Claims about the quota statistics *)

Module QuotaStatsFacts.
Import QuotaStats.

Lemma dd_get_insert (d : gmap string Z) (k k' : string) (v : Z) :
  dd_get (<[k := v]> d) k' = if decide (k = k') then v else dd_get d k'.
Proof.
  unfold dd_get. rewrite lookup_insert. by destruct (decide (k = k')).
Qed.

Lemma add_fields_missing key fs (d : gmap string Z) :
  ignoring_missing (add_fields None key fs d) = (Ok tt, d).
Proof. by destruct fs. Qed.

Lemma add_fields_present q key fs (d : gmap string Z) :
  Forall (fun f => is_ok (getattr q f) = true) fs ->
  ∃ d', add_fields (Some q) key fs d = (Ok tt, d') ∧
        ∀ k, dd_get d' k = dd_get d k + keyed_sum q key k fs.
Proof.
  intros Hfs. revert d.
  induction Hfs as [|f fs Hf _ IH]; intros d; simpl.
  - exists d. split; [done|]. intros k. lia.
  - unfold column. destruct (getattr q f) as [v|e] eqn:Hv; [|done].
    destruct (IH (<[key f := dd_get d (key f) + v]> d)) as (d' & -> & Hget).
    exists d'. split; [done|]. intros k.
    rewrite Hget, dd_get_insert.
    destruct (decide (key f = k)) as [<- | _]; lia.
Qed.

Lemma fields_are_columns q :
  Forall (fun f => is_ok (getattr q f) = true) fields.
Proof. unfold fields. repeat constructor. Qed.

Lemma add_membership_adds (d : gmap string Z) membership :
  ∃ d', add_membership d membership = (Ok tt, d') ∧
        ∀ k, dd_get d' k = dd_get d k + contribution membership k.
Proof.
  unfold add_membership, contribution.
  destruct membership as [[q|] [u|]]; simpl resource_quota; simpl resource_quota_usage.
  - destruct (add_fields_present q (fun f => f) fields d (fields_are_columns q))
      as (d1 & Hrun1 & H1).
    destruct (add_fields_present u (fun f => f +:+ "_usage") fields d1
                (fields_are_columns u)) as (d2 & Hrun2 & H2).
    exists d2. split.
    + rewrite Hrun1. cbv beta iota delta [ignoring_missing]. rewrite Hrun2. done.
    + intros k. rewrite H2, H1. simpl. lia.
  - destruct (add_fields_present q (fun f => f) fields d (fields_are_columns q))
      as (d1 & Hrun1 & H1).
    exists d1. split.
    + rewrite Hrun1. cbv beta iota delta [ignoring_missing]. done.
    + intros k. rewrite H1. simpl. lia.
  - destruct (add_fields_present u (fun f => f +:+ "_usage") fields d
                (fields_are_columns u)) as (d2 & Hrun2 & H2).
    exists d2. split.
    + rewrite add_fields_missing, Hrun2. done.
    + intros k. rewrite H2. simpl. lia.
  - exists d. split; [by rewrite !add_fields_missing|]. intros k. simpl. lia.
Qed.

Lemma for_memberships_adds memberships (d : gmap string Z) :
  ∃ d', for_memberships memberships d = (Ok tt, d') ∧
        ∀ k, dd_get d' k
             = dd_get d k + foldr Z.add 0 ((fun m => contribution m k) <$> memberships).
Proof.
  revert d. induction memberships as [|m ms IH]; intros d.
  - exists d. split; [done|]. intros k. simpl. lia.
  - cbn [for_memberships].
    destruct (add_membership_adds d m) as (d1 & -> & H1).
    destruct (IH d1) as (d' & -> & H').
    exists d'. split; [done|]. intros k.
    rewrite H', H1, fmap_cons. cbn [foldr]. lia.
Qed.

(** Decides the comparisons of concrete dictionary keys in the goal. *)
Ltac decide_keys :=
  repeat match goal with
  | |- context [decide (?a = ?b)] =>
      let H := fresh "Hkey" in
      destruct (decide (a = b)) as [H|H];
      [ try (exfalso; vm_compute in H; discriminate H)
      | try (exfalso; apply H; vm_compute; reflexivity) ];
      clear H
  end.

(** Under the key of a column a membership adds the column of its quota row,
    under the usage key the column of its usage row, and nothing for a row
    that does not exist. *)
Lemma contribution_of_membership membership :
  Forall (fun field =>
            contribution membership field
            = from_option (column field) 0 (resource_quota membership)
            ∧ contribution membership (field +:+ "_usage")
              = from_option (column field) 0 (resource_quota_usage membership))
         fields.
Proof.
  unfold fields.
  repeat apply Forall_cons_2; [..| apply Forall_nil_2];
    (split; destruct membership as [[q|] [u|]];
       unfold contribution, keyed_sum, fields; cbn; decide_keys; lia).
Qed.

Lemma sum_over_cons rel field m ms :
  sum_over rel field (m :: ms)
  = from_option (column field) 0 (rel m) + sum_over rel field ms.
Proof.
  unfold sum_over. cbn [omap list_omap].
  destruct (rel m) as [q|]; cbn [fmap list_fmap foldr from_option]; lia.
Qed.

Lemma contributions_are_columns memberships :
  Forall (fun field =>
            foldr Z.add 0 ((fun m => contribution m field) <$> memberships)
            = sum_over resource_quota field memberships
            ∧ foldr Z.add 0 ((fun m => contribution m (field +:+ "_usage")) <$> memberships)
              = sum_over resource_quota_usage field memberships)
         fields.
Proof.
  induction memberships as [|m ms IH].
  - apply Forall_forall. intros field _. done.
  - apply Forall_forall. intros field Hfield.
    pose proof (proj1 (Forall_forall _ _) IH field Hfield) as [IHq IHu].
    pose proof (proj1 (Forall_forall _ _) (contribution_of_membership m) field Hfield)
      as [Hq Hu].
    rewrite !fmap_cons, !sum_over_cons. cbn [foldr].
    rewrite IHq, IHu, Hq, Hu. done.
Qed.




(** The sums of the sample memberships: the one without a usage row counts
    for the quotas only, the one without any row for nothing. *)
Example get_sum_of_quotas_sample :
  (fun d => (dd_get d "vcpu", dd_get d "ram", dd_get d "vcpu_usage",
             dd_get d "backup_storage_usage"))
    <$> (match get_sum_of_quotas
                 [full_membership; bare_membership; quota_only_membership] with
         | Ok d => Some d
         | Raise _ => None
         end)
  = Some (6, 10240, 1, 5).
Proof. vm_compute. reflexivity. Qed.

End QuotaStatsFacts.

(** ** Claims about the permission scope filter *)

Module PermissionScopeFacts.
Import PermissionScope.

Lemma elem_of_all_ids d T (x : Z) :
  x ∈ all_ids d T ↔ ∃ e, e ∈ entities d ∧ entity_type e = T ∧ entity_id e = x.
Proof.
  unfold all_ids. rewrite elem_of_list_to_set, list_elem_of_fmap.
  setoid_rewrite list_elem_of_filter. naive_solver.
Qed.

Lemma elem_of_ids_under d T l scopes (x : Z) :
  x ∈ ids_under d T l scopes ↔
  ∃ e, e ∈ entities d ∧ entity_type e = T ∧ entity_id e = x ∧
       ∃ s, s ∈ enclosing l e ∧ s ∈ scopes.
Proof.
  unfold ids_under. rewrite elem_of_list_to_set, list_elem_of_fmap.
  setoid_rewrite list_elem_of_filter. setoid_rewrite Exists_exists.
  naive_solver.
Qed.

Lemma elem_of_scopes_held d u l roles (s : Z) :
  s ∈ scopes_held d u l roles ↔
  ∃ a, a ∈ assignments d ∧ subject a = username u ∧ scope_level a = l ∧
       role a ∈ roles ∧ scope_id a = s.
Proof.
  unfold scopes_held. rewrite list_elem_of_fmap.
  setoid_rewrite list_elem_of_filter. naive_solver.
Qed.

Lemma ids_under_subseteq d T l scopes :
  ids_under d T l scopes ⊆ all_ids d T.
Proof.
  intros x. rewrite elem_of_ids_under, elem_of_all_ids. naive_solver.
Qed.

Lemma visible_subseteq d u T :
  ids_of d T (visible_ids d u T) ⊆ all_ids d T.
Proof.
  unfold visible_ids. destruct (is_staff u); simpl; [done|].
  intros x. rewrite !elem_of_union.
  intros [[Hx | Hx] | Hx]; by eapply ids_under_subseteq.
Qed.

Lemma filter_twice {A} (P : A -> Prop) `{∀ x, Decision (P x)} (l : list A) :
  filter P (filter P l) = filter P l.
Proof.
  induction l as [|x l IH]; [done|].
  destruct (decide (P x)) as [HP | HP].
  - rewrite (filter_cons_True P x l HP), (filter_cons_True P x _ HP). by rewrite IH.
  - by rewrite (filter_cons_False P x l HP).
Qed.

(** What a user who is not staff sees, by the rows and the assignments. *)
Lemma visible_iff d u T (x : Z) :
  is_staff u = false ->
  x ∈ ids_of d T (visible_ids d u T) ↔
  ∃ e a, e ∈ entities d ∧ entity_type e = T ∧ entity_id e = x ∧
         a ∈ assignments d ∧ subject a = username u ∧
         fits (scope_level a) (role a) ∧
         scope_id a ∈ enclosing (scope_level a) e.
Proof.
  intros Hstaff. unfold visible_ids. rewrite Hstaff. simpl.
  rewrite !elem_of_union, !elem_of_ids_under.
  setoid_rewrite elem_of_scopes_held.
  split.
  - intros [[H | H] | H];
      destruct H as (e & He & HT & Hid & sc & Hsc & a & Ha & Hsub & Hl & Hrole & Hscope);
      exists e, a; rewrite Hl, Hscope; repeat split; try done; simpl.
    + by apply list_elem_of_singleton in Hrole.
    + by apply list_elem_of_singleton in Hrole.
    + apply elem_of_cons in Hrole as [-> | Hrole]; [by left|].
      apply list_elem_of_singleton in Hrole. by right.
  - intros (e & a & He & HT & Hid & Ha & Hsub & Hfit & Hsc).
    destruct (scope_level a) eqn:Hl; simpl in Hfit.
    + left; left. exists e. repeat split; try done.
      exists (scope_id a). split; [done|]. exists a. repeat split; try done.
      rewrite Hfit. apply list_elem_of_here.
    + left; right. exists e. repeat split; try done.
      exists (scope_id a). split; [done|]. exists a. repeat split; try done.
      rewrite Hfit. apply list_elem_of_here.
    + right. exists e. repeat split; try done.
      exists (scope_id a). split; [done|]. exists a. repeat split; try done.
      destruct Hfit as [-> | ->]; [apply list_elem_of_here|].
      apply list_elem_of_further, list_elem_of_here.
Qed.

(** The rows of the directory of a structure. *)
Lemma elem_of_directory s asg e :
  e ∈ entities (directory_of s asg) ↔
  (∃ c, c ∈ customer_rows s ∧ e = customer_entity s c)
  ∨ (∃ g, g ∈ group_rows s ∧ e = group_entity s g)
  ∨ (∃ p, p ∈ project_rows s ∧ e = project_entity p)
  ∨ (∃ i, i ∈ instance_rows s ∧ e = instance_entity s i).
Proof.
  unfold directory_of. simpl. rewrite !elem_of_app, !list_elem_of_fmap.
  naive_solver.
Qed.

(** *** The hierarchy, step by step *)

Lemma above_here s n k : k ∈ above s n k.
Proof. destruct n; apply list_elem_of_here. Qed.

Lemma above_parent s n k q a :
  q ∈ parents s k -> a ∈ above s n q -> a ∈ above s (S n) k.
Proof.
  intros Hq Ha. cbn [above]. apply list_elem_of_further, list_elem_of_join.
  exists (above s n q). split; [done|]. apply list_elem_of_fmap. eauto.
Qed.

Lemma above_inv s n k a :
  a ∈ above s n k ->
  a = k ∨ ∃ q m, n = S m ∧ q ∈ parents s k ∧ a ∈ above s m q.
Proof.
  destruct n; cbn [above]; rewrite elem_of_cons.
  - intros [-> | H]; [by left | by apply elem_of_nil in H].
  - intros [-> | H]; [by left|]. right.
    apply list_elem_of_join in H as (l & Ha & Hl).
    apply list_elem_of_fmap in Hl as (q & -> & Hq). eauto.
Qed.

Lemma parents_group s g q :
  q ∈ parents s (ProjectGroupT, g) ↔
  ∃ r, r ∈ group_rows s ∧ group_id r = g ∧ q = (CustomerT, group_customer r).
Proof.
  unfold parents. simpl. rewrite list_elem_of_fmap.
  setoid_rewrite list_elem_of_filter. naive_solver.
Qed.

Lemma parents_project s p q :
  q ∈ parents s (ProjectT, p) ↔
  ∃ r, r ∈ project_rows s ∧ project_id r = p ∧
       (q = (CustomerT, project_customer r)
        ∨ ∃ g, g ∈ project_groups_of r ∧ q = (ProjectGroupT, g)).
Proof.
  unfold parents. simpl. rewrite list_elem_of_join. split.
  - intros (l & Hq & Hl). apply list_elem_of_fmap in Hl as (r & -> & Hr).
    apply list_elem_of_filter in Hr as [Hid Hr].
    exists r. split; [done|]. split; [done|].
    apply elem_of_cons in Hq as [-> | Hq]; [by left|]. right.
    apply list_elem_of_fmap in Hq as (g & -> & Hg). eauto.
  - intros (r & Hr & Hid & Hq). eexists. split.
    2: { apply list_elem_of_fmap. exists r. split; [reflexivity|].
         by apply list_elem_of_filter. }
    destruct Hq as [-> | (g & Hg & ->)]; [apply list_elem_of_here|].
    apply list_elem_of_further, list_elem_of_fmap. eauto.
Qed.

Lemma parents_instance s i q :
  q ∈ parents s (InstanceT, i) ↔
  ∃ r, r ∈ instance_rows s ∧ instance_id r = i ∧ q = (ProjectT, instance_project r).
Proof.
  unfold parents. simpl. rewrite list_elem_of_fmap.
  setoid_rewrite list_elem_of_filter. naive_solver.
Qed.

Lemma above_customer s n c a :
  a ∈ above s n (CustomerT, c) -> a = (CustomerT, c).
Proof.
  intros H. apply above_inv in H as [-> | (q & m & _ & Hq & _)]; [done|].
  by apply elem_of_nil in Hq.
Qed.

Lemma above_group s n g a :
  a ∈ above s n (ProjectGroupT, g) ->
  a = (ProjectGroupT, g)
  ∨ ∃ r, r ∈ group_rows s ∧ group_id r = g ∧ a = (CustomerT, group_customer r).
Proof.
  intros H. apply above_inv in H as [-> | (q & m & _ & Hq & Ha)]; [by left|].
  right. apply parents_group in Hq as (r & Hr & Hid & ->).
  apply above_customer in Ha as ->. eauto.
Qed.

Lemma above_project s n p a :
  a ∈ above s n (ProjectT, p) ->
  a = (ProjectT, p)
  ∨ ∃ r, r ∈ project_rows s ∧ project_id r = p ∧
         (a = (CustomerT, project_customer r)
          ∨ ∃ g, g ∈ project_groups_of r ∧
                 (a = (ProjectGroupT, g)
                  ∨ ∃ gr, gr ∈ group_rows s ∧ group_id gr = g ∧
                          a = (CustomerT, group_customer gr))).
Proof.
  intros H. apply above_inv in H as [-> | (q & m & _ & Hq & Ha)]; [by left|].
  right. apply parents_project in Hq as (r & Hr & Hid & Hq).
  exists r. split; [done|]. split; [done|].
  destruct Hq as [-> | (g & Hg & ->)].
  - apply above_customer in Ha as ->. by left.
  - right. exists g. split; [done|].
    apply above_group in Ha as [-> | (gr & Hgr & Hgid & ->)]; [by left|].
    right. eauto.
Qed.

Lemma above_instance s n i a :
  a ∈ above s n (InstanceT, i) ->
  a = (InstanceT, i)
  ∨ ∃ r m, r ∈ instance_rows s ∧ instance_id r = i ∧
           a ∈ above s m (ProjectT, instance_project r).
Proof.
  intros H. apply above_inv in H as [-> | (q & m & _ & Hq & Ha)]; [by left|].
  right. apply parents_instance in Hq as (r & Hr & Hid & ->). eauto.
Qed.

Lemma consistent_group s p g :
  consistent s -> p ∈ project_rows s -> g ∈ group_rows s ->
  group_id g ∈ project_groups_of p -> group_customer g = project_customer p.
Proof.
  intros Hs Hp Hg Hin.
  pose proof (proj1 (Forall_forall _ _) Hs p Hp) as Hgroups. simpl in Hgroups.
  by apply (proj1 (Forall_forall _ _) Hgroups g Hg).
Qed.

(** A role over an entity makes it visible. *)
Lemma holds_role_over_visible s asg u T (i : Z) :
  is_staff u = false -> consistent s ->
  i ∈ all_ids (directory_of s asg) T ->
  holds_role_over s asg u (T, i) ->
  i ∈ ids_of (directory_of s asg) T (visible_ids (directory_of s asg) u T).
Proof.
  intros Hstaff Hs Hrow Hrole. apply visible_iff; [done|].
  apply Exists_exists in Hrole as (a & Ha & Hsub & Hfit & Henc).
  apply elem_of_all_ids in Hrow as (e0 & He0 & HT0 & Hid0).
  unfold encloses in Henc.
  assert (∀ e, e ∈ entities (directory_of s asg) -> entity_type e = T ->
               entity_id e = i -> scope_id a ∈ enclosing (scope_level a) e ->
               ∃ e a, e ∈ entities (directory_of s asg) ∧ entity_type e = T ∧
                      entity_id e = i ∧ a ∈ assignments (directory_of s asg) ∧
                      subject a = username u ∧ fits (scope_level a) (role a) ∧
                      scope_id a ∈ enclosing (scope_level a) e) as Hfound.
  { intros e He HT Hid Hin. exists e, a. done. }
  destruct T.
  - (* a customer *)
    apply above_customer in Henc. apply (Hfound e0); try done.
    apply elem_of_directory in He0
      as [(c & Hc & ->) | [(g & Hg & ->) | [(p & Hp & ->) | (r & Hr & ->)]]];
      try discriminate HT0.
    destruct (scope_level a); try discriminate Henc.
    injection Henc as ->. simpl in *. subst c. apply list_elem_of_here.
  - (* a project group *)
    apply above_group in Henc as [Henc | (r & Hr & Hid & Henc)].
    + apply (Hfound e0); try done.
      apply elem_of_directory in He0
        as [(c & Hc & ->) | [(g & Hg & ->) | [(p & Hp & ->) | (r & Hr & ->)]]];
        try discriminate HT0.
      destruct (scope_level a); try discriminate Henc.
      injection Henc as ->. simpl in *. rewrite Hid0. apply list_elem_of_here.
    + apply (Hfound (group_entity s r)); try done.
      * apply elem_of_directory. right; left. eauto.
      * destruct (scope_level a); try discriminate Henc.
        injection Henc as ->. apply list_elem_of_here.
  - (* a project *)
    apply above_project in Henc as [Henc | (r & Hr & Hid & Henc)].
    + apply (Hfound e0); try done.
      apply elem_of_directory in He0
        as [(c & Hc & ->) | [(g & Hg & ->) | [(p & Hp & ->) | (r & Hr & ->)]]];
        try discriminate HT0.
      destruct (scope_level a); try discriminate Henc.
      injection Henc as ->. simpl in *. rewrite Hid0. apply list_elem_of_here.
    + apply (Hfound (project_entity r)); try done.
      * apply elem_of_directory. right; right; left. eauto.
      * destruct Henc as [Henc | (g & Hg & [Henc | (gr & Hgr & Hgid & Henc)])];
          destruct (scope_level a); try discriminate Henc;
          injection Henc as ->; simpl.
        -- apply list_elem_of_here.
        -- done.
        -- rewrite (consistent_group s r gr); try done; [apply list_elem_of_here|].
           by rewrite Hgid.
  - (* an instance *)
    apply above_instance in Henc as [Henc | (r & m & Hr & Hid & Henc)].
    { destruct (scope_level a); discriminate Henc. }
    apply (Hfound (instance_entity s r)); try done.
    { apply elem_of_directory. do 3 right. eauto. }
    apply above_project in Henc as [Henc | (pr & Hpr & Hpid & Henc)].
    + destruct (scope_level a); try discriminate Henc.
      injection Henc as ->. apply list_elem_of_here.
    + assert (pr ∈ filter (fun p => project_id p = instance_project r) (project_rows s))
        as Hps by by apply list_elem_of_filter.
      destruct Henc as [Henc | (g & Hg & [Henc | (gr & Hgr & Hgid & Henc)])];
        destruct (scope_level a); try discriminate Henc;
        injection Henc as ->; simpl.
      * by apply list_elem_of_fmap_2.
      * apply list_elem_of_join. exists (project_groups_of pr). split; [done|].
        by apply list_elem_of_fmap_2.
      * rewrite (consistent_group s pr gr); try done; [by apply list_elem_of_fmap_2|].
        by rewrite Hgid.
  - (* a backup *)
    apply above_inv in Henc as [Henc | (q & m & _ & Hq & _)].
    + destruct (scope_level a); discriminate Henc.
    + by apply elem_of_nil in Hq.
Qed.

(** What a user who is not staff sees is reached by a role that the user
    holds: over the entity, or, for a customer or a project group, inside
    it. *)
Lemma visible_holds_role s asg u T (i : Z) :
  is_staff u = false ->
  i ∈ ids_of (directory_of s asg) T (visible_ids (directory_of s asg) u T) ->
  holds_role_over s asg u (T, i)
  ∨ ((T = CustomerT ∨ T = ProjectGroupT) ∧ holds_role_inside s asg u (T, i)).
Proof.
  intros Hstaff Hvis. apply visible_iff in Hvis; [|done].
  destruct Hvis as (e & a & He & HT & Hid & Ha & Hsub & Hfit & Hin).
  simpl in Ha.
  assert (encloses s (scope_type (scope_level a), scope_id a) (T, i) ->
          holds_role_over s asg u (T, i)) as Hup.
  { intros Henc. apply Exists_exists. exists a. done. }
  assert (encloses s (T, i) (scope_type (scope_level a), scope_id a) ->
          holds_role_inside s asg u (T, i)) as Hdown.
  { intros Henc. apply Exists_exists. exists a. done. }
  unfold encloses in Hup, Hdown.
  apply elem_of_directory in He
    as [(c & Hc & ->) | [(g & Hg & ->) | [(p & Hp & ->) | (r & Hr & ->)]]];
    simpl in HT, Hid; subst T i; destruct (scope_level a); simpl in Hin.
  - (* a customer, from itself *)
    left. apply Hup. apply list_elem_of_singleton in Hin as ->. apply above_here.
  - (* a customer, from one of its project groups *)
    right. split; [by left|]. apply Hdown.
    apply list_elem_of_fmap in Hin as (gr & -> & Hgr).
    apply list_elem_of_filter in Hgr as [<- Hgr].
    apply (above_parent s 2 _ (CustomerT, group_customer gr)); [|apply above_here].
    apply parents_group. eauto.
  - (* a customer, from one of its projects *)
    right. split; [by left|]. apply Hdown.
    apply list_elem_of_fmap in Hin as (pr & -> & Hpr).
    apply list_elem_of_filter in Hpr as [<- Hpr].
    apply (above_parent s 2 _ (CustomerT, project_customer pr)); [|apply above_here].
    apply parents_project. exists pr. eauto.
  - (* a project group, from its customer *)
    left. apply Hup. apply list_elem_of_singleton in Hin as ->.
    apply (above_parent s 2 _ (CustomerT, group_customer g)); [|apply above_here].
    apply parents_group. eauto.
  - (* a project group, from itself *)
    left. apply Hup. apply list_elem_of_singleton in Hin as ->. apply above_here.
  - (* a project group, from one of its projects *)
    right. split; [by right|]. apply Hdown.
    apply list_elem_of_fmap in Hin as (pr & -> & Hpr).
    apply list_elem_of_filter in Hpr as [Hgroup Hpr].
    apply (above_parent s 2 _ (ProjectGroupT, group_id g)); [|apply above_here].
    apply parents_project. exists pr. eauto 6.
  - (* a project, from its customer *)
    left. apply Hup. apply list_elem_of_singleton in Hin as ->.
    apply (above_parent s 2 _ (CustomerT, project_customer p)); [|apply above_here].
    apply parents_project. exists p. eauto.
  - (* a project, from one of its project groups *)
    left. apply Hup.
    apply (above_parent s 2 _ (ProjectGroupT, scope_id a)); [|apply above_here].
    apply parents_project. exists p. eauto 6.
  - (* a project, from itself *)
    left. apply Hup. apply list_elem_of_singleton in Hin as ->. apply above_here.
  - (* an instance, from the customer of its project *)
    left. apply Hup.
    apply list_elem_of_fmap in Hin as (pr & -> & Hpr).
    apply list_elem_of_filter in Hpr as [Hpid Hpr].
    apply (above_parent s 2 _ (ProjectT, instance_project r)).
    { apply parents_instance. eauto. }
    apply (above_parent s 1 _ (CustomerT, project_customer pr)); [|apply above_here].
    apply parents_project. exists pr. eauto.
  - (* an instance, from a project group of its project *)
    left. apply Hup.
    apply list_elem_of_join in Hin as (l & Hin & Hl).
    apply list_elem_of_fmap in Hl as (pr & -> & Hpr).
    apply list_elem_of_filter in Hpr as [Hpid Hpr].
    apply (above_parent s 2 _ (ProjectT, instance_project r)).
    { apply parents_instance. eauto. }
    apply (above_parent s 1 _ (ProjectGroupT, scope_id a)); [|apply above_here].
    apply parents_project. exists pr. eauto 6.
  - (* an instance, from its project *)
    left. apply Hup. apply list_elem_of_singleton in Hin as ->.
    apply (above_parent s 2 _ (ProjectT, instance_project r)); [|apply above_here].
    apply parents_instance. eauto.
Qed.

(** C6: for every staff user and entity type, [visible_ids] is the sentinel
    that stands for all the identifiers of the type, and the collection is
    returned as it is; for every user, the visible identifiers are among the
    identifiers of the type.  The same of the one such filter among the
    sources, [SshKeyViewSet.get_queryset]: staff gets the query set itself,
    every user a part of it. *)
Theorem staff_sees_all_others_a_subset (d : Directory) (u : User)
    (T : EntityType) (collection : list Entity)
    (request : Request) (queryset : list SshPublicKey) :
  (is_staff u = true ->
     visible_ids d u T = Unrestricted
     ∧ ids_of d T (visible_ids d u T) = all_ids d T
     ∧ filter_collection d u T collection = collection)
  ∧ ids_of d T (visible_ids d u T) ⊆ all_ids d T
  ∧ (is_staff (user request) = true ->
     SshKeyViewSet_get_queryset request queryset = queryset)
  ∧ SshKeyViewSet_get_queryset request queryset ⊆ queryset.
Proof.
  split; [|split; [|split]].
  - intros Hstaff. unfold filter_collection, visible_ids. by rewrite Hstaff.
  - apply visible_subseteq.
  - intros Hstaff. unfold SshKeyViewSet_get_queryset. by rewrite Hstaff.
  - unfold SshKeyViewSet_get_queryset. destruct (is_staff (user request)); [done|].
    intros k Hk. by apply list_elem_of_filter in Hk as [_ Hk].
Qed.

Lemma staff_sees_all_others_a_subset_witness :
  ids_of sample_directory InstanceT (visible_ids sample_directory staff_member InstanceT)
  = all_ids sample_directory InstanceT
  ∧ SshKeyViewSet_get_queryset (mkRequest staff_member "k-1")
      [mkSshPublicKey "k-1" "owner"; mkSshPublicKey "k-2" "admin"]
    = [mkSshPublicKey "k-1" "owner"; mkSshPublicKey "k-2" "admin"].
Proof.
  pose proof (staff_sees_all_others_a_subset sample_directory staff_member InstanceT []
                (mkRequest staff_member "k-1")
                [mkSshPublicKey "k-1" "owner"; mkSshPublicKey "k-2" "admin"])
    as (Hstaff & _ & Hkeys & _).
  split.
  - apply Hstaff. reflexivity.
  - apply Hkeys. reflexivity.
Defined.

(** C7, as stated, fails in its converse: a project administrator, who is not
    staff, holds no role over the customer of the project, which nothing
    encloses, and sees that customer all the same; and a staff user holds no
    role at all and sees every instance. *)
Lemma sees_without_a_role_over :
  ¬ (∀ s asg u T (i : Z),
       is_staff u = false -> consistent s ->
       i ∈ all_ids (directory_of s asg) T ->
       ¬ holds_role_over s asg u (T, i) ->
       i ∉ ids_of (directory_of s asg) T (visible_ids (directory_of s asg) u T))
  ∧ ¬ (∀ s asg u T (i : Z),
         consistent s ->
         i ∈ all_ids (directory_of s asg) T ->
         ¬ holds_role_over s asg u (T, i) ->
         i ∉ ids_of (directory_of s asg) T (visible_ids (directory_of s asg) u T)).
Proof.
  split; intros Hclaim.
  - apply (Hclaim sample_structure sample_assignments admin CustomerT 1);
      [reflexivity | by_decision | by_decision | by_decision | by_decision].
  - apply (Hclaim sample_structure sample_assignments staff_member InstanceT 1000);
      [by_decision | by_decision | by_decision | by_decision].
Qed.

(** The directory of the sample structure is the sample directory. *)
Example sample_directory_of_structure :
  directory_of sample_structure sample_assignments = sample_directory.
Proof. reflexivity. Qed.

(** C7, amended: in a structure where the project groups of a project belong
    to its customer, every entity that a role held by the user reaches
    through the hierarchy -- OWNER of a customer, MANAGER of a project group,
    ADMINISTRATOR or MANAGER of a project that encloses it -- is visible to
    the user.  Conversely, what a user who is not staff sees is reached by
    such a role, held over the entity or, for a customer or a project group,
    at a project group or project inside it; so a user who is not staff and
    holds none of those roles over a project or an instance does not see
    it. *)
Theorem role_reach_is_visibility (s : Structure) (asg : list RoleAssignment)
    (u : User) (T : EntityType) (i : Z) :
  let d := directory_of s asg in
  (consistent s -> i ∈ all_ids d T -> holds_role_over s asg u (T, i) ->
     i ∈ ids_of d T (visible_ids d u T))
  ∧ (is_staff u = false -> i ∈ ids_of d T (visible_ids d u T) ->
     holds_role_over s asg u (T, i)
     ∨ ((T = CustomerT ∨ T = ProjectGroupT) ∧ holds_role_inside s asg u (T, i)))
  ∧ (is_staff u = false -> T = ProjectT ∨ T = InstanceT ->
     ¬ holds_role_over s asg u (T, i) ->
     i ∉ ids_of d T (visible_ids d u T)).
Proof.
  intros d. split; [|split].
  - intros Hs Hrow Hrole. destruct (is_staff u) eqn:Hstaff.
    + unfold visible_ids. rewrite Hstaff. done.
    + by apply holds_role_over_visible.
  - apply visible_holds_role.
  - intros Hstaff HT Hnone Hvis.
    destruct (visible_holds_role s asg u T i Hstaff Hvis) as [Hover | [HT' _]].
    + by apply Hnone.
    + destruct HT as [-> | ->], HT' as [HT' | HT']; discriminate HT'.
Qed.

Lemma role_reach_is_visibility_witness :
  (1000 ∈ ids_of sample_directory InstanceT
            (visible_ids sample_directory owner InstanceT))
  ∧ (1000 ∉ ids_of sample_directory InstanceT
              (visible_ids sample_directory admin InstanceT))
  ∧ holds_role_inside sample_structure sample_assignments admin (CustomerT, 1).
Proof.
  pose proof (role_reach_is_visibility sample_structure sample_assignments owner
                InstanceT 1000) as (Hreach & _ & _).
  pose proof (role_reach_is_visibility sample_structure sample_assignments admin
                InstanceT 1000) as (_ & _ & Hnone).
  pose proof (role_reach_is_visibility sample_structure sample_assignments admin
                CustomerT 1) as (_ & Hseen & _).
  split; [|split].
  - apply Hreach; by_decision.
  - apply Hnone; [reflexivity | by right | by_decision].
  - destruct Hseen as [Hover | [_ Hinside]]; [reflexivity | by_decision | | exact Hinside].
    exfalso. revert Hover. by_decision.
Defined.

(** C8: for every user and collection, filtering twice is filtering once. *)
Theorem filter_collection_idempotent (d : Directory) (u : User)
    (T : EntityType) (collection : list Entity) :
  filter_collection d u T (filter_collection d u T collection)
  = filter_collection d u T collection.
Proof.
  unfold filter_collection.
  destruct (visible_ids d u T) as [|ids]; [done|].
  destruct (decide (ids = ∅)); [done|].
  apply filter_twice.
Qed.

Lemma no_role_no_scope d u l roles :
  Forall (fun a => subject a ≠ username u) (assignments d) ->
  scopes_held d u l roles = [].
Proof.
  unfold scopes_held. intros Hnone.
  induction Hnone as [|a l' Ha _ IH]; [done|].
  rewrite filter_cons_False; [done | naive_solver].
Qed.

Lemma ids_under_no_scope d T l : ids_under d T l [] = ∅.
Proof.
  apply set_eq. intros x. rewrite elem_of_ids_under.
  split; [|by intros ?%not_elem_of_empty].
  intros (e & _ & _ & _ & s & _ & Hs). by apply elem_of_nil in Hs.
Qed.

(** C9: for every user and collection, when the visible set is empty the
    filter returns the empty collection; [filter_collection] is a function, it
    returns a collection on every input and raises nothing.  The visible set
    is empty when [visible_ids] answers the empty set, as it does for every
    user who is not staff and has no role assignment, and also when it
    answers "all" for a type without rows. *)
Theorem empty_visibility_is_silent (d : Directory) (u : User)
    (T : EntityType) (collection : list Entity) :
  (visible_ids d u T = Restricted ∅ -> filter_collection d u T collection = [])
  ∧ (drawn_from d T collection -> ids_of d T (visible_ids d u T) = ∅ ->
     filter_collection d u T collection = [])
  ∧ (is_staff u = false ->
     Forall (fun a => subject a ≠ username u) (assignments d) ->
     visible_ids d u T = Restricted ∅ ∧ filter_collection d u T collection = []).
Proof.
  assert (visible_ids d u T = Restricted ∅ -> filter_collection d u T collection = [])
    as Hempty.
  { intros Hvis. unfold filter_collection. rewrite Hvis. by rewrite decide_True. }
  split; [done|]. split.
  - intros Hdrawn Hids. unfold filter_collection.
    destruct (visible_ids d u T) as [|ids]; simpl in Hids.
    + destruct collection as [|e c]; [done|]. exfalso.
      apply Forall_cons in Hdrawn as [[He HT] _].
      apply (not_elem_of_empty (C := gset Z) (entity_id e)).
      rewrite <- Hids. apply elem_of_all_ids. by exists e.
    + by rewrite decide_True.
  - intros Hstaff Hnone.
    assert (visible_ids d u T = Restricted ∅) as Hvis.
    { unfold visible_ids. rewrite Hstaff.
      rewrite !(no_role_no_scope d u _ _ Hnone), !ids_under_no_scope.
      f_equal; set_solver. }
    split; [done | by apply Hempty].
Qed.

Lemma empty_visibility_is_silent_witness :
  filter_collection sample_directory stranger InstanceT
    (rows_of sample_directory InstanceT) = []
  ∧ filter_collection sample_directory staff_member BackupT [] = [].
Proof.
  pose proof (empty_visibility_is_silent sample_directory stranger InstanceT
                (rows_of sample_directory InstanceT)) as (Hempty & _ & Hnone).
  pose proof (empty_visibility_is_silent sample_directory staff_member BackupT [])
    as (_ & Hall & _).
  split.
  - apply Hempty. apply Hnone.
    + reflexivity.
    + by_decision.
  - apply Hall.
    + apply Forall_nil_2.
    + reflexivity.
Defined.

(** The customer statistics test, replayed: the numbers of projects, project
    groups and instances of customer 1 that each user sees. *)
Example customer_statistics_replayed :
  let seen u T :=
    length (filter (fun e => 1 ∈ customers e)
              (filter_collection sample_directory u T (rows_of sample_directory T))) in
  (seen staff_member ProjectT, seen staff_member ProjectGroupT, seen staff_member InstanceT)
    = (2%nat, 1%nat, 4%nat)
  ∧ (seen owner ProjectT, seen owner ProjectGroupT, seen owner InstanceT)
    = (2%nat, 1%nat, 4%nat)
  ∧ (seen group_manager ProjectT, seen group_manager ProjectGroupT,
     seen group_manager InstanceT) = (1%nat, 1%nat, 2%nat)
  ∧ (seen admin ProjectT, seen admin ProjectGroupT, seen admin InstanceT)
    = (1%nat, 0%nat, 2%nat).
Proof. vm_compute. repeat split. Qed.

End PermissionScopeFacts.

(** * Further properties of the executor *)

Section executor_more.
Context {E St : Type} `{EqDecision St}.
Implicit Types (mc : ModelClass E St) (w : World E) (e : E).

(** X1: An accepted transition stores the addressed row in the target state of
    the transition and touches no other row. *)
Theorem set_state_moves_only_the_addressed_row mc id tr w e t :
  rows w !! id = Some e ->
  assoc tr (transitions mc) = Some t ->
  allowed (source t) (get_state mc e) = true ->
  head (faults w) ≠ Some true ->
  (set_state mc id tr w).1 = Ok tt
  ∧ rows (set_state mc id tr w).2 !! id = Some (put_state mc (target t) e)
  ∧ ∀ k, k ≠ id -> rows (set_state mc id tr w).2 !! k = rows w !! k.
Proof.
  intros He Ht Ha Hf.
  destruct (set_state_success mc id tr w e t He Ht Ha Hf) as [Hok Hrows].
  rewrite Hrows. split; [done|]. split.
  - apply lookup_insert_eq.
  - intros k Hk. by apply lookup_insert_ne.
Qed.

(** X2: A name that is no attribute of the model, or that of an attribute
    that cannot be called, is not one of the guarded failures: for a row that
    exists, [AttributeError] (for the missing attribute) or [TypeError] (for
    the value that is not callable) reaches the caller, and the table, the
    events and the queue stay as they were. *)
Theorem set_state_unknown_transition mc id tr w e :
  rows w !! id = Some e ->
  assoc tr (transitions mc) = None ->
  (assoc tr (attributes mc) = None ->
     (set_state mc id tr w).1 = Raise (AttributeError tr)
     ∧ rows (set_state mc id tr w).2 = rows w
     ∧ events (set_state mc id tr w).2 = events w
     ∧ queue (set_state mc id tr w).2 = queue w)
  ∧ (assoc tr (attributes mc) = Some Value ->
     (set_state mc id tr w).1 = Raise TypeError
     ∧ rows (set_state mc id tr w).2 = rows w
     ∧ events (set_state mc id tr w).2 = events w
     ∧ queue (set_state mc id tr w).2 = queue w).
Proof.
  intros He Ht. split; intros Hm.
  - pose proof (set_state_no_attribute mc id tr w e He Ht Hm) as Hraise.
    split; [done|]. split; [|split].
    + apply set_state_failure_keeps_rows. by rewrite Hraise.
    + apply set_state_failure_keeps_events. by rewrite Hraise.
    + apply set_state_keeps_queue.
  - pose proof (set_state_not_callable mc id tr w e He Ht Hm) as Hraise.
    split; [done|]. split; [|split].
    + apply set_state_failure_keeps_rows. by rewrite Hraise.
    + apply set_state_failure_keeps_events. by rewrite Hraise.
    + apply set_state_keeps_queue.
Qed.

(** What [getattr] finds need not be a transition: under the name [save]
    the call returns, the row is as it was and the event is written. *)
Example set_state_with_another_method :
  (set_state Worker "w-1" "save" idle_world).1 = Ok tt
  ∧ rows (set_state Worker "w-1" "save" idle_world).2 = rows idle_world
  ∧ events (set_state Worker "w-1" "save" idle_world).2
    = [finished_event Worker "w-1" "save"].
Proof. vm_compute. repeat split. Qed.

(** X3: When the first transition and the processing function both succeed, the
    wrapper applies the desired transition to the world the function left;
    if that transition is allowed there and commits, the row is stored in its
    target state. *)
Theorem tracked_processing_reaches_desired_state mc ps ds es
    (fn : list string -> M E unit) id rest w w1 w2 e t :
  set_state mc id ps w = (Ok tt, w1) ->
  fn (id :: rest) w1 = (Ok tt, w2) ->
  rows w2 !! id = Some e ->
  assoc ds (transitions mc) = Some t ->
  allowed (source t) (get_state mc e) = true ->
  head (faults w2) ≠ Some true ->
  tracked_processing mc ps ds es fn (id :: rest) w = set_state mc id ds w2
  ∧ (tracked_processing mc ps ds es fn (id :: rest) w).1 = Ok tt
  ∧ rows (tracked_processing mc ps ds es fn (id :: rest) w).2 !! id
    = Some (put_state mc (target t) e).
Proof.
  intros Hps Hfn He Ht Ha Hf.
  destruct (set_state_success mc id ds w2 e t He Ht Ha Hf) as [Hok Hrows].
  assert (tracked_processing mc ps ds es fn (id :: rest) w = set_state mc id ds w2)
    as Hrun.
  { rewrite tracked_processing_unfold, Hps, Hfn.
    destruct (set_state mc id ds w2) as [r w3]; simpl in *. by subst r. }
  rewrite Hrun, Hrows. split; [done|]. split; [done|]. apply lookup_insert_eq.
Qed.

(** The wrapper takes the identifier from its first positional argument: a
    call without positional arguments raises [IndexError] before anything is
    touched, and the processing function is not run. *)
Theorem tracked_processing_without_arguments mc ps ds es
    (fn : list string -> M E unit) w :
  tracked_processing mc ps ds es fn [] w = (Raise IndexError, w).
Proof. reflexivity. Qed.

(** X4: The wrapper guards [StateChangeError] only: when the processing
    transition is no attribute of the model, [AttributeError] reaches the
    caller, the processing function is not run and the table is unchanged. *)
Theorem tracked_processing_unknown_transition mc ps ds es
    (fn : list string -> M E unit) id rest w e :
  rows w !! id = Some e ->
  assoc ps (transitions mc) = None ->
  assoc ps (attributes mc) = None ->
  tracked_processing mc ps ds es fn (id :: rest) w = set_state mc id ps w
  ∧ (tracked_processing mc ps ds es fn (id :: rest) w).1 = Raise (AttributeError ps)
  ∧ rows (tracked_processing mc ps ds es fn (id :: rest) w).2 = rows w.
Proof.
  intros He Ht Hm.
  pose proof (set_state_no_attribute mc id ps w e He Ht Hm) as Hraise.
  assert (rows (set_state mc id ps w).2 = rows w) as Hrows.
  { apply set_state_failure_keeps_rows. by rewrite Hraise. }
  assert (tracked_processing mc ps ds es fn (id :: rest) w = set_state mc id ps w)
    as Hrun.
  { rewrite tracked_processing_unfold.
    destruct (set_state mc id ps w) as [r w1]; simpl in *. by subst r. }
  by rewrite Hrun.
Qed.

End executor_more.

Lemma set_state_moves_only_the_addressed_row_witness :
  (set_state Worker "w-1" "start_working" idle_world).1 = Ok tt
  ∧ rows (set_state Worker "w-1" "start_working" idle_world).2 !! "w-1"
    = Some "working".
Proof.
  destruct (set_state_moves_only_the_addressed_row Worker "w-1" "start_working"
              idle_world "idle" (mkTransition (OneOf ["idle"]) "working"))
    as (Hok & Hrow & _); try reflexivity.
  - simpl. congruence.
  - split; [exact Hok | exact Hrow].
Defined.

Lemma set_state_unknown_transition_witness :
  ((set_state Worker "w-1" "stop_working" idle_world).1
   = Raise (AttributeError "stop_working")
   ∧ rows (set_state Worker "w-1" "stop_working" idle_world).2 = rows idle_world)
  ∧ (set_state Worker "w-1" "state" idle_world).1 = Raise TypeError
  ∧ rows (set_state Worker "w-1" "state" idle_world).2 = rows idle_world.
Proof.
  destruct (set_state_unknown_transition Worker "w-1" "stop_working" idle_world "idle")
    as [Hmissing _]; [reflexivity | reflexivity |].
  destruct (set_state_unknown_transition Worker "w-1" "state" idle_world "idle")
    as [_ Hvalue]; [reflexivity | reflexivity |].
  destruct (Hmissing eq_refl) as (Hraise & Hrows & _).
  destruct (Hvalue eq_refl) as (Hraise' & Hrows' & _).
  repeat split; assumption.
Defined.

Lemma tracked_processing_reaches_desired_state_witness :
  rows (tracked_processing Job "begin_processing" "set_ready" default_error_state
          tracing_fn ["j-1"] pending_world).2 !! "j-1" = Some "ready".
Proof.
  eapply (tracked_processing_reaches_desired_state Job "begin_processing" "set_ready"
            default_error_state tracing_fn "j-1" [] pending_world _ _ "processing"
            (mkTransition (OneOf ["processing"]) "ready"));
    try reflexivity.
  simpl. congruence.
Defined.

Lemma tracked_processing_unknown_transition_witness :
  (tracked_processing Job "begin" "set_ready" default_error_state
     tracing_fn ["j-1"] pending_world).1 = Raise (AttributeError "begin").
Proof.
  eapply (tracked_processing_unknown_transition Job "begin" "set_ready"
            default_error_state tracing_fn "j-1" [] pending_world "pending");
    reflexivity.
Defined.

(** * Further properties of the instance actions *)

Section instance_views_more.
Variable fsm : list (string * Transition InstanceState).
Variable members : list (string * Attribute Instance).
Variable get_state_display : InstanceState -> string.
Variable role_filter : User -> Instance -> bool.
Variable has_object_permission : User -> Instance -> bool.
Variable has_user : string -> User -> Role -> bool.

Local Abbreviation get_object' := (get_object role_filter has_object_permission).
Local Abbreviation schedule' :=
  (_schedule_transition fsm members get_state_display role_filter has_object_permission has_user).
Local Abbreviation change_flavor' :=
  (change_flavor fsm members get_state_display role_filter has_object_permission has_user).
Local Abbreviation resize_disk' :=
  (resize_disk fsm members get_state_display role_filter has_object_permission has_user).
Local Abbreviation resize' :=
  (resize fsm members get_state_display role_filter has_object_permission has_user).

(** What an answer of 202 tells about the run of the handler. *)
Lemma schedule_transition_accepted_inv request uuid op kwargs w resp w' :
  _schedule_transition fsm members get_state_display role_filter
      has_object_permission has_user request uuid op kwargs w = (Ok resp, w') ->
  status_code resp = HTTP_202_ACCEPTED ->
  ∃ tr task w1,
    assoc op supported_operations = Some (tr, task)
    ∧ set_state (InstanceModel fsm members) uuid tr w = (Ok tt, w1)
    ∧ w' = mkWorld (rows w1) (log w1) (queue w1 ++ [mkTask task [uuid] kwargs])
                   (faults w1).
Proof.
  unfold _schedule_transition.
  unfold mbind at 1, M_bind at 1.
  pose proof (get_object_keeps_world role_filter has_object_permission request w) as Hw.
  destruct (get_object' request w) as [[instance|e] w0]; simpl in Hw; subst w0;
    [|done].
  destruct (negb _ && negb _); [done|].
  destruct (assoc op supported_operations) as [[tr task]|]; [|done].
  unfold try_except_else, delay, mbind, M_bind, mret, M_ret, raise.
  destruct (set_state (InstanceModel fsm members) uuid tr w) as [[[]|e] w1] eqn:Hset; simpl.
  - intros [= <- <-] _. by exists tr, task, w1.
  - destruct e; intros [= <- <-]; done.
Qed.

(** X6: A user who is neither an administrator of the project nor staff is
    refused when scheduling a transition, and nothing at all changes: no row,
    no log record, no task. *)
Theorem schedule_transition_requires_admin_or_staff request uuid op kwargs w instance :
  rows w !! url_uuid request = Some instance ->
  role_filter (user request) instance = true ->
  has_object_permission (user request) instance = true ->
  has_user (membership_project instance) (user request) ADMINISTRATOR = false ->
  is_staff (user request) = false ->
  _schedule_transition fsm members get_state_display role_filter
      has_object_permission has_user request uuid op kwargs w = (Raise PermissionDenied, w).
Proof.
  intros Hrow Hfilter Hperm Hadmin Hstaff.
  unfold _schedule_transition, mbind, M_bind, get_object.
  rewrite Hrow, Hfilter, Hperm, Hadmin, Hstaff. done.
Qed.

(** X7: Resizing needs an offline instance: for an instance in any other state
    the answer is 409, whatever the request data, and nothing changes. *)
Theorem resize_requires_offline request parsed w instance :
  rows w !! url_uuid request = Some instance ->
  role_filter (user request) instance = true ->
  has_object_permission (user request) instance = true ->
  state instance ≠ OFFLINE ->
  resize fsm members get_state_display role_filter
      has_object_permission has_user request parsed w
  = (Ok (mkResponse HTTP_409_CONFLICT [("detail", "Instance must be offline")]), w).
Proof.
  intros Hrow Hfilter Hperm Hstate.
  unfold resize, mbind, M_bind, get_object.
  rewrite Hrow, Hfilter, Hperm.
  rewrite bool_decide_eq_false_2 by done. done.
Qed.

(** X8: A disk can only grow: a size that is not strictly greater than the
    current one is refused with 400 and nothing changes, and whenever the
    request is accepted the new size is greater than the old one. *)
Theorem resize_disk_only_grows request instance new_size w :
  (new_size <= data_volume_size instance ->
     resize_disk fsm members get_state_display role_filter
         has_object_permission has_user request instance new_size w
     = (Ok (mkResponse HTTP_400_BAD_REQUEST
              [("disk_size",
                "Disk size must be strictly greater than the current one")]), w))
  ∧ (failed (resize_disk fsm members get_state_display role_filter
      has_object_permission has_user request instance new_size w).1 = false ->
     data_volume_size instance < new_size).
Proof.
  unfold resize_disk. split.
  - intros Hle. by rewrite bool_decide_eq_true_2.
  - destruct (bool_decide (new_size <= data_volume_size instance)) eqn:Hle.
    + intros Hfailed. vm_compute in Hfailed. discriminate Hfailed.
    + intros _. apply bool_decide_eq_false in Hle. lia.
Qed.

(** X9: An accepted disk extension: the row of the instance holds the new size
    and the target state of the resizing transition, every other field and
    every other row is as before, and exactly one [extend_disk] task for the
    instance is appended to the queue.  [schedule_resizing] is the
    [@transition] method or no attribute at all: [members] holds the other
    attributes. *)
Theorem resize_disk_accepted request instance new_size w resp w' :
  assoc "schedule_resizing" members = None ->
  rows w !! uuid instance = Some instance ->
  resize_disk fsm members get_state_display role_filter
      has_object_permission has_user request instance new_size w = (Ok resp, w') ->
  status_code resp = HTTP_202_ACCEPTED ->
  ∃ t, assoc "schedule_resizing" fsm = Some t
       ∧ rows w' = <[uuid instance :=
                      with_state (target t) (with_data_volume_size new_size instance)]>
                     (rows w)
       ∧ queue w' = queue w ++ [mkTask "extend_disk" [uuid instance] []].
Proof.
  intros Hmembers Hrow Hrun H202. unfold resize_disk in Hrun.
  destruct (bool_decide (new_size <= data_volume_size instance)).
  { injection Hrun as <- <-. done. }
  unfold mbind, M_bind in Hrun. simpl in Hrun.
  set (saved := with_data_volume_size new_size instance) in *.
  destruct (save_cases (uuid instance) saved w)
    as [(w1 & Hsave & Hrows1 & _ & Hq1) | (w1 & Hsave & _)];
    rewrite Hsave in Hrun; [|done].
  destruct (schedule_transition_accepted_inv _ _ _ _ _ _ _ Hrun H202)
    as (tr & task & w2 & Hop & Hset & ->).
  injection Hop as <- <-. simpl.
  pose proof (set_state_keeps_queue (InstanceModel fsm members) (uuid instance)
                "schedule_resizing" w1) as Hq.
  destruct (set_state_ok_inv (InstanceModel fsm members) (uuid instance)
              "schedule_resizing" w1)
    as (e & He & [(t & Ht & _ & Hrows) | (call & e' & table & _ & Hm & _)]).
  { by rewrite Hset. }
  2: { simpl in Hm. congruence. }
  rewrite Hset in Hq, Hrows. simpl in *.
  rewrite Hrows1, lookup_insert_eq in He. injection He as <-.
  exists t. split; [done|]. split.
  - by rewrite Hrows, Hrows1, insert_insert_eq.
  - by rewrite Hq, Hq1.
Qed.

(** X10: A flavor of another cloud is refused with 400 and nothing changes.  An
    accepted flavor change stores the ram and the cores of the flavor and the
    target state of the resizing transition in the row of the instance, and
    appends exactly one [update_flavor] task that names the flavor.
    [schedule_resizing] is the [@transition] method or no attribute at all:
    [members] holds the other attributes. *)
Theorem change_flavor_accepted request instance flavor w :
  (flavor_cloud flavor ≠ membership_cloud instance ->
     change_flavor fsm members get_state_display role_filter
         has_object_permission has_user request instance flavor w
     = (Ok (mkResponse HTTP_400_BAD_REQUEST
              [("flavor", "New flavor is not within the same cloud")]), w))
  ∧ (∀ resp w',
       assoc "schedule_resizing" members = None ->
       rows w !! uuid instance = Some instance ->
       change_flavor fsm members get_state_display role_filter
           has_object_permission has_user request instance flavor w = (Ok resp, w') ->
       status_code resp = HTTP_202_ACCEPTED ->
       flavor_cloud flavor = membership_cloud instance
       ∧ ∃ t, assoc "schedule_resizing" fsm = Some t
              ∧ rows w' = <[uuid instance :=
                             with_state (target t)
                               (with_flavor (flavor_ram flavor) (flavor_cores flavor)
                                  instance)]> (rows w)
              ∧ queue w' = queue w ++ [mkTask "update_flavor" [uuid instance]
                                         [("flavor_uuid", flavor_uuid flavor)]]).
Proof.
  unfold change_flavor. split.
  - intros Hne. by rewrite bool_decide_eq_false_2.
  - intros resp w' Hmembers Hrow Hrun H202.
    destruct (bool_decide (flavor_cloud flavor = membership_cloud instance)) eqn:Hcloud;
      simpl in Hrun.
    2: { injection Hrun as <- <-. done. }
    apply bool_decide_eq_true in Hcloud. split; [done|].
    unfold mbind, M_bind in Hrun. simpl in Hrun.
    set (saved := with_flavor (flavor_ram flavor) (flavor_cores flavor) instance) in *.
    destruct (save_cases (uuid instance) saved w)
      as [(w1 & Hsave & Hrows1 & _ & Hq1) | (w1 & Hsave & _)];
      rewrite Hsave in Hrun; [|done].
    destruct (schedule_transition_accepted_inv _ _ _ _ _ _ _ Hrun H202)
      as (tr & task & w2 & Hop & Hset & ->).
    injection Hop as <- <-. simpl.
    pose proof (set_state_keeps_queue (InstanceModel fsm members) (uuid instance)
                  "schedule_resizing" w1) as Hq.
    destruct (set_state_ok_inv (InstanceModel fsm members) (uuid instance)
                "schedule_resizing" w1)
      as (e & He & [(t & Ht & _ & Hrows) | (call & e' & table & _ & Hm & _)]).
    { by rewrite Hset. }
    2: { simpl in Hm. congruence. }
    rewrite Hset in Hq, Hrows. simpl in *.
    rewrite Hrows1, lookup_insert_eq in He. injection He as <-.
    exists t. split; [done|]. split.
    + by rewrite Hrows, Hrows1, insert_insert_eq.
    + by rewrite Hq, Hq1.
Qed.

End instance_views_more.

Lemma schedule_transition_requires_admin_or_staff_witness :
  stop Instance_fsm Instance_members display anyone anyone no_project_roles
    (mkRequest (mkUser "bob" false) "i-1") (vm_world [])
  = (Raise PermissionDenied, vm_world []).
Proof.
  apply (schedule_transition_requires_admin_or_staff Instance_fsm Instance_members
      display anyone anyone
           no_project_roles (mkRequest (mkUser "bob" false) "i-1") "i-1" "stop" []
           (vm_world []) vm);
    reflexivity.
Defined.

Lemma resize_requires_offline_witness :
  resize Instance_fsm Instance_members display anyone anyone no_project_roles staff_request
    (ResizeDisk 20480) (mkWorld {[ "i-1" := with_state ONLINE vm ]} [] [] [])
  = (Ok (mkResponse HTTP_409_CONFLICT [("detail", "Instance must be offline")]),
     mkWorld {[ "i-1" := with_state ONLINE vm ]} [] [] []).
Proof.
  apply (resize_requires_offline Instance_fsm Instance_members
      display anyone anyone no_project_roles
           staff_request (ResizeDisk 20480)
           (mkWorld {[ "i-1" := with_state ONLINE vm ]} [] [] [])
           (with_state ONLINE vm));
    try reflexivity.
  discriminate.
Defined.

Lemma resize_disk_only_grows_witness :
  (resize_disk Instance_fsm Instance_members
      display anyone anyone no_project_roles staff_request
     vm 10240 (vm_world [])).2 = vm_world []
  ∧ data_volume_size vm < 20480.
Proof.
  pose proof (resize_disk_only_grows Instance_fsm Instance_members display anyone anyone
                no_project_roles staff_request vm 10240 (vm_world [])) as [Hrefused _].
  pose proof (resize_disk_only_grows Instance_fsm Instance_members display anyone anyone
                no_project_roles staff_request vm 20480 (vm_world [])) as [_ Hgrows].
  split.
  - rewrite Hrefused; [reflexivity | by vm_compute].
  - apply Hgrows. reflexivity.
Defined.

Lemma resize_disk_accepted_witness :
  rows (resize_disk Instance_fsm Instance_members
      display anyone anyone no_project_roles staff_request
          vm 20480 (vm_world [])).2 !! "i-1"
  = Some (mkInstance "i-1" RESIZING 1024 1 20480 "cloud-1" "project-1").
Proof.
  destruct (resize_disk_accepted Instance_fsm Instance_members
      display anyone anyone no_project_roles
              staff_request vm 20480 (vm_world [])
              (mkResponse HTTP_202_ACCEPTED [("status", "disk extension was scheduled")])
              (resize_disk Instance_fsm Instance_members
                  display anyone anyone no_project_roles
                 staff_request vm 20480 (vm_world [])).2)
    as (t & Ht & Hrows & _); [reflexivity | reflexivity | reflexivity | reflexivity |].
  rewrite Hrows. injection Ht as <-. reflexivity.
Defined.

Lemma change_flavor_accepted_witness :
  rows (change_flavor Instance_fsm Instance_members
      display anyone anyone no_project_roles staff_request
          vm bigger_flavor (vm_world [])).2 !! "i-1"
  = Some (mkInstance "i-1" RESIZING 2048 2 10240 "cloud-1" "project-1")
  ∧ (change_flavor Instance_fsm Instance_members
      display anyone anyone no_project_roles staff_request
       vm (mkFlavor "f-9" "cloud-2" 4096 4) (vm_world [])).2 = vm_world [].
Proof.
  pose proof (change_flavor_accepted Instance_fsm Instance_members
      display anyone anyone no_project_roles
                staff_request vm bigger_flavor (vm_world [])) as [_ Haccepted].
  pose proof (change_flavor_accepted Instance_fsm Instance_members
      display anyone anyone no_project_roles
                staff_request vm (mkFlavor "f-9" "cloud-2" 4096 4) (vm_world []))
    as [Hrefused _].
  split.
  - destruct (Haccepted
                (mkResponse HTTP_202_ACCEPTED [("status", "flavor change was scheduled")])
                (change_flavor Instance_fsm Instance_members
                    display anyone anyone no_project_roles
                   staff_request vm bigger_flavor (vm_world [])).2)
      as (_ & t & Ht & Hrows & _);
      [reflexivity | reflexivity | reflexivity | reflexivity |].
    rewrite Hrows. injection Ht as <-. reflexivity.
  - rewrite Hrefused; [reflexivity | discriminate].
Defined.

(** * Further properties of the helpers *)

Lemma replace_underscores_length s :
  String.length (replace_underscores s) = String.length s.
Proof. induction s as [|c s IH]; simpl; [done | by rewrite IH]. Qed.

(** X5: The operation name that [set_state] logs has the length of the
    transition name and no underscore left; a name without underscores is
    logged as it is, so that replacing twice is replacing once. *)
Theorem replace_underscores_spec (s : string) :
  String.length (replace_underscores s) = String.length s
  ∧ has_char "_" (replace_underscores s) = false
  ∧ (has_char "_" s = false -> replace_underscores s = s)
  ∧ replace_underscores (replace_underscores s) = replace_underscores s.
Proof.
  assert (∀ s, has_char "_" (replace_underscores s) = false) as Hnone.
  { clear s. induction s as [|c s IH]; simpl; [done|]. rewrite IH.
    destruct (decide (c = "_"%char)) as [-> | Hc]; simpl.
    - done.
    - by rewrite bool_decide_eq_false_2. }
  assert (∀ s, has_char "_" s = false -> replace_underscores s = s) as Hid.
  { clear s. induction s as [|c s IH]; simpl; [done|]. intros Hs.
    apply orb_false_iff in Hs as [Hc Hs]. apply bool_decide_eq_false in Hc.
    rewrite decide_False by done. by rewrite IH. }
  split; [apply replace_underscores_length|].
  split; [apply Hnone|]. split; [apply Hid|].
  apply Hid, Hnone.
Qed.

Lemma replace_underscores_spec_witness :
  replace_underscores "start working" = "start working"
  ∧ replace_underscores "schedule_starting" = "schedule starting".
Proof.
  destruct (replace_underscores_spec "start working") as (_ & _ & Hsame & _).
  split.
  - apply Hsame. reflexivity.
  - reflexivity.
Defined.

(** X11: [SshKeyViewSet.get_queryset] for a user who is not staff: the keys
    returned are exactly the keys of the query set that belong to the user,
    in the order of the query set, and asking again changes nothing. *)
Theorem ssh_keys_of_a_plain_user (request : Request) (queryset : list SshPublicKey) :
  is_staff (user request) = false ->
  (∀ k, k ∈ SshKeyViewSet_get_queryset request queryset
        ↔ k ∈ queryset ∧ key_user k = username (user request))
  ∧ SshKeyViewSet_get_queryset request queryset `sublist_of` queryset
  ∧ SshKeyViewSet_get_queryset request (SshKeyViewSet_get_queryset request queryset)
    = SshKeyViewSet_get_queryset request queryset.
Proof.
  intros Hstaff. unfold SshKeyViewSet_get_queryset. rewrite Hstaff.
  split; [|split].
  - intros k. rewrite list_elem_of_filter. naive_solver.
  - apply sublist_filter.
  - apply PermissionScopeFacts.filter_twice.
Qed.

Lemma ssh_keys_of_a_plain_user_witness :
  SshKeyViewSet_get_queryset (mkRequest (mkUser "bob" false) "k-1")
    [mkSshPublicKey "k-1" "bob"; mkSshPublicKey "k-2" "alice"; mkSshPublicKey "k-3" "bob"]
  `sublist_of`
    [mkSshPublicKey "k-1" "bob"; mkSshPublicKey "k-2" "alice"; mkSshPublicKey "k-3" "bob"].
Proof.
  apply (ssh_keys_of_a_plain_user (mkRequest (mkUser "bob" false) "k-1")).
  reflexivity.
Defined.

(** * Further properties of the quota statistics *)

Module QuotaStatsMore.
Import QuotaStats QuotaStatsFacts.

Lemma sum_app (l1 l2 : list Z) :
  foldr Z.add 0 (l1 ++ l2) = foldr Z.add 0 l1 + foldr Z.add 0 l2.
Proof. induction l1 as [|x l1 IH]; simpl; lia. Qed.

(** X12: The sums are additive: the dictionary of two collections put together
    reads, under every key, as the sum of the readings of the dictionaries
    of the two collections. *)
Theorem get_sum_of_quotas_app (a b : list CloudProjectMembership) :
  ∃ da db dab,
    get_sum_of_quotas a = Ok da ∧ get_sum_of_quotas b = Ok db
    ∧ get_sum_of_quotas (a ++ b) = Ok dab
    ∧ ∀ k, dd_get dab k = dd_get da k + dd_get db k.
Proof.
  unfold get_sum_of_quotas.
  destruct (for_memberships_adds a ∅) as (da & -> & Ha).
  destruct (for_memberships_adds b ∅) as (db & -> & Hb).
  destruct (for_memberships_adds (a ++ b) ∅) as (dab & -> & Hab).
  exists da, db, dab. repeat split; try done.
  intros k. rewrite Hab, Ha, Hb, fmap_app, sum_app.
  unfold dd_get. rewrite lookup_empty. simpl. lia.
Qed.









End QuotaStatsMore.

(** * Properties of the default security groups *)

Module DefaultSecurityGroupsFacts.
Import DefaultSecurityGroups.

Lemma get_icmp_inv config_rule key v :
  get_icmp config_rule key = Got v ->
  getitem config_rule key = Got v ∧ ∃ z, int_value v = Some z ∧ -1 <= z <= 255.
Proof.
  unfold get_icmp, mbind, outcome_bind.
  destruct (getitem config_rule key) as [r|e]; [|done].
  destruct (int_value r) as [z|] eqn:Hz; [|done].
  destruct (bool_decide (-1 <= z ∧ z <= 255)) eqn:Hrange; simpl; [|done].
  intros [= <-]. apply bool_decide_eq_true in Hrange. eauto.
Qed.

Lemma get_port_inv config_rule key v :
  get_port config_rule key = Got v ->
  getitem config_rule key = Got v ∧ ∃ z, int_value v = Some z ∧ 1 <= z <= 65535.
Proof.
  unfold get_port, mbind, outcome_bind.
  destruct (getitem config_rule key) as [r|e]; [|done].
  destruct (int_value r) as [z|] eqn:Hz; [|done].
  destruct (bool_decide (1 <= z ∧ z <= 65535)) eqn:Hrange; simpl; [|done].
  intros [= <-]. apply bool_decide_eq_true in Hrange. eauto.
Qed.

Lemma is_str_true v name : is_str v name = true -> v = PStr name.
Proof.
  destruct v; simpl; try done. intros Hs. by apply bool_decide_eq_true in Hs as ->.
Qed.

Lemma parse_rule_well_formed config_rule rule :
  parse_rule config_rule = Got rule -> well_formed rule.
Proof.
  unfold parse_rule, mbind, outcome_bind, mret, outcome_ret.
  destruct (getitem config_rule "protocol") as [p|e]; [|done].
  destruct (is_str p "icmp") eqn:Hicmp.
  - apply is_str_true in Hicmp as ->.
    destruct (get_icmp config_rule "icmp_type") as [a|e] eqn:Ha; [|done].
    destruct (get_icmp config_rule "icmp_code") as [b|e] eqn:Hb; [|done].
    destruct (getitem config_rule "cidr") as [c|e]; [|done].
    intros [= <-].
    apply get_icmp_inv in Ha as (_ & x & Hx & Hxr).
    apply get_icmp_inv in Hb as (_ & y & Hy & Hyr).
    exists x, y. simpl. repeat split; try done. left. done.
  - destruct (is_str p "tcp" || is_str p "udp") eqn:Hp; [|done].
    destruct (get_port config_rule "from_port") as [a|e] eqn:Ha; [|done].
    destruct (get_port config_rule "to_port") as [b|e] eqn:Hb; [|done].
    destruct (less_than b a) eqn:Hlt; [done|].
    destruct (getitem config_rule "cidr") as [c|e]; [|done].
    intros [= <-].
    apply get_port_inv in Ha as (_ & x & Hx & Hxr).
    apply get_port_inv in Hb as (_ & y & Hy & Hyr).
    unfold less_than in Hlt. rewrite Hx, Hy in Hlt.
    apply bool_decide_eq_false in Hlt.
    exists x, y. simpl. repeat split; try done. right.
    split; [|lia].
    apply orb_true_iff in Hp as [Hp | Hp]; apply is_str_true in Hp; auto.
Qed.

Lemma parse_rules_well_formed config_rules acc rules :
  Forall well_formed acc ->
  parse_rules config_rules acc = Got rules ->
  Forall well_formed rules.
Proof.
  revert acc. induction config_rules as [|r rest IH]; intros acc Hacc; simpl.
  - by intros [= <-].
  - destruct (parse_rule r) as [rule|e] eqn:Hr; [|done].
    apply IH. apply Forall_app. split; [done|].
    apply Forall_singleton. by apply parse_rule_well_formed in Hr.
Qed.

Lemma parse_group_well_formed config_group group :
  parse_group config_group = Got group -> Forall well_formed (rules group).
Proof.
  unfold parse_group, mbind, outcome_bind, mret, outcome_ret.
  destruct (getitem config_group "name") as [n|e]; [|done].
  destruct (getitem config_group "description") as [d|e]; [|done].
  destruct (getitem config_group "rules") as [rs|e]; [|done].
  destruct rs as [| | | |l|]; try done.
  destruct (parse_rules l []) as [rules|e] eqn:Hrules; [|done].
  intros [= <-]. simpl. by apply (parse_rules_well_formed l []).
Qed.

(** The loop, with its accumulators, is a filter in configuration order. *)
Lemma for_config_groups_spec config_groups groups logged :
  (for_config_groups config_groups groups logged).1
  = groups ++ omap valid_group config_groups
  ∧ (length (for_config_groups config_groups groups logged).1
     + length (for_config_groups config_groups groups logged).2
     = length groups + length logged + length config_groups)%nat.
Proof.
  revert groups logged.
  induction config_groups as [|g rest IH]; intros groups logged; simpl.
  - rewrite app_nil_r. split; [done | lia].
  - unfold valid_group at 1.
    destruct (parse_group g) as [group|e].
    + destruct (IH (groups ++ [group]) logged) as [Hgroups Hlen]. split.
      * rewrite Hgroups, <- app_assoc. done.
      * rewrite Hlen, length_app. simpl. lia.
    + destruct (IH groups (logged ++ [e])) as [Hgroups Hlen]. split.
      * done.
      * rewrite Hlen, length_app. simpl. lia.
Qed.

Lemma default_groups_are_the_valid_groups (config_groups : list PyVal) :
  (_get_default_security_groups config_groups).1 = omap valid_group config_groups.
Proof.
  unfold _get_default_security_groups.
  by destruct (for_config_groups_spec config_groups [] []) as [-> _].
Qed.

Lemma valid_groups_well_formed (config_groups : list PyVal) :
  Forall (fun group => Forall well_formed (rules group))
         (omap valid_group config_groups).
Proof.
  apply Forall_forall. intros group Hin.
  apply list_elem_of_omap in Hin as (g & _ & Hg).
  unfold valid_group in Hg.
  destruct (parse_group g) as [group'|e] eqn:Hparse; [|done].
  injection Hg as <-. by apply parse_group_well_formed in Hparse.
Qed.

(** X14: Every rule of every group that [_get_default_security_groups] returns is
    well formed: ICMP with type and code in [-1, 255], or TCP or UDP with
    ports in [1, 65535] and the first port not above the second. *)
Theorem default_security_groups_are_well_formed (config_groups : list PyVal) :
  Forall (fun group => Forall well_formed (rules group))
         (_get_default_security_groups config_groups).1.
Proof.
  rewrite default_groups_are_the_valid_groups. apply valid_groups_well_formed.
Qed.

(** X15: Every configured group is either returned or logged as skipped, never
    both and never dropped: the returned groups are the configured groups
    that parse, whole and in the order of the configuration, and the numbers
    of returned and logged groups add up to the number configured. *)
Theorem default_security_groups_returned_or_logged (config_groups : list PyVal) :
  (_get_default_security_groups config_groups).1 = omap valid_group config_groups
  ∧ (length (_get_default_security_groups config_groups).1
     + length (_get_default_security_groups config_groups).2
     = length config_groups)%nat.
Proof.
  unfold _get_default_security_groups.
  destruct (for_config_groups_spec config_groups [] []) as [Hgroups Hlen].
  split; [done|]. rewrite Hlen. simpl. lia.
Qed.

Lemma parse_rules_failure config_rules acc r e :
  r ∈ config_rules -> parse_rule r = Failed e ->
  ∃ e', parse_rules config_rules acc = Failed e'.
Proof.
  intros Hin Hr. revert acc.
  induction config_rules as [|r' rest IH]; intros acc; [by apply elem_of_nil in Hin|].
  simpl. apply elem_of_cons in Hin as [<- | Hin].
  - rewrite Hr. eauto.
  - destruct (parse_rule r') as [rule|e'']; [by apply IH | eauto].
Qed.

(** X16: One bad rule spoils its group: a configured group with a rule that does
    not parse is skipped as a whole, none of its rules gets through, and the
    groups configured around it are returned as if it were not there. *)
Theorem one_bad_rule_skips_the_group (before after : list PyVal)
    (config_group : PyVal) (config_rules : list PyVal) (r : PyVal) (e : error) :
  getitem config_group "rules" = Got (PList config_rules) ->
  r ∈ config_rules ->
  parse_rule r = Failed e ->
  valid_group config_group = None
  ∧ (_get_default_security_groups (before ++ config_group :: after)).1
    = (_get_default_security_groups (before ++ after)).1.
Proof.
  intros Hrules Hin Hr.
  assert (valid_group config_group = None) as Hnone.
  { unfold valid_group, parse_group, mbind, outcome_bind.
    destruct (getitem config_group "name") as [n|?]; [|done].
    destruct (getitem config_group "description") as [d|?]; [|done].
    rewrite Hrules.
    destruct (parse_rules_failure config_rules [] r e Hin Hr) as [e' ->]. done. }
  split; [done|].
  rewrite !default_groups_are_the_valid_groups, !omap_app. simpl. by rewrite Hnone.
Qed.

Lemma one_bad_rule_skips_the_group_witness :
  (_get_default_security_groups [ssh_and_ping; bad_port; ssh_and_ping]).1
  = (_get_default_security_groups [ssh_and_ping; ssh_and_ping]).1.
Proof.
  eapply (one_bad_rule_skips_the_group [ssh_and_ping] [ssh_and_ping] bad_port
            _ (PDict [ ("protocol", PStr "tcp"); ("cidr", PStr "0.0.0.0/0");
                       ("from_port", PInt 443); ("to_port", PInt 70000) ])).
  - reflexivity.
  - apply list_elem_of_further, list_elem_of_here.
  - reflexivity.
Defined.

(** X17: Which rules are accepted: a TCP or UDP rule with integer ports is
    accepted exactly when 1 <= from_port <= to_port <= 65535, an ICMP rule
    with integer type and code exactly when both lie in [-1, 255]; the
    accepted rule carries the configured values. *)
Theorem parse_rule_accepts (p : string) (c : PyVal) (a b : Z) :
  (p = "tcp" ∨ p = "udp" ->
     let config_rule := PDict [ ("protocol", PStr p); ("cidr", c);
                                ("from_port", PInt a); ("to_port", PInt b) ] in
     (1 <= a ∧ a <= b ∧ b <= 65535 ->
      parse_rule config_rule = Got (mkRule (PStr p) c (PInt a) (PInt b)))
     ∧ (¬ (1 <= a ∧ a <= b ∧ b <= 65535) ->
        ∃ e, parse_rule config_rule = Failed e))
  ∧ (let config_rule := PDict [ ("protocol", PStr "icmp"); ("cidr", c);
                                ("icmp_type", PInt a); ("icmp_code", PInt b) ] in
     (-1 <= a <= 255 ∧ -1 <= b <= 255 ->
      parse_rule config_rule = Got (mkRule (PStr "icmp") c (PInt a) (PInt b)))
     ∧ (¬ (-1 <= a <= 255 ∧ -1 <= b <= 255) ->
        ∃ e, parse_rule config_rule = Failed e)).
Proof.
  split.
  - intros Hp config_rule.
    assert (is_str (PStr p) "icmp" = false) as Hicmp
      by (destruct Hp as [-> | ->]; reflexivity).
    assert (is_str (PStr p) "tcp" || is_str (PStr p) "udp" = true) as Hproto
      by (destruct Hp as [-> | ->]; reflexivity).
    unfold config_rule, parse_rule, get_port, mbind, outcome_bind, mret, outcome_ret.
    cbn [getitem assoc]. QuotaStatsFacts.decide_keys.
    rewrite Hicmp, Hproto. cbn [int_value less_than].
    split.
    + intros (Ha & Hab & Hb).
      rewrite (bool_decide_eq_true_2 (1 <= a ∧ a <= 65535)) by lia.
      rewrite (bool_decide_eq_true_2 (1 <= b ∧ b <= 65535)) by lia.
      cbn [negb less_than int_value].
      rewrite (bool_decide_eq_false_2 (b < a)) by lia. done.
    + intros Hbad.
      destruct (bool_decide (1 <= a ∧ a <= 65535)) eqn:Hra; cbn [negb];
        [|by eexists].
      destruct (bool_decide (1 <= b ∧ b <= 65535)) eqn:Hrb; cbn [negb];
        [|by eexists].
      cbn [less_than int_value].
      destruct (bool_decide (b < a)) eqn:Hlt; [by eexists|].
      apply bool_decide_eq_true in Hra. apply bool_decide_eq_true in Hrb.
      apply bool_decide_eq_false in Hlt. exfalso. apply Hbad. lia.
  - intros config_rule.
    unfold config_rule, parse_rule, get_icmp, mbind, outcome_bind, mret, outcome_ret.
    cbn [getitem assoc]. QuotaStatsFacts.decide_keys.
    cbn [is_str]. rewrite bool_decide_eq_true_2 by done.
    cbn [int_value].
    split.
    + intros (Ha & Hb).
      rewrite (bool_decide_eq_true_2 (-1 <= a ∧ a <= 255)) by lia.
      rewrite (bool_decide_eq_true_2 (-1 <= b ∧ b <= 255)) by lia.
      done.
    + intros Hbad.
      destruct (bool_decide (-1 <= a ∧ a <= 255)) eqn:Hra; cbn [negb];
        [|by eexists].
      destruct (bool_decide (-1 <= b ∧ b <= 255)) eqn:Hrb; cbn [negb];
        [|by eexists].
      apply bool_decide_eq_true in Hra. apply bool_decide_eq_true in Hrb.
      exfalso. apply Hbad. lia.
Qed.

Lemma parse_rule_accepts_witness :
  parse_rule (PDict [ ("protocol", PStr "tcp"); ("cidr", PStr "0.0.0.0/0");
                      ("from_port", PInt 22); ("to_port", PInt 22) ])
  = Got (mkRule (PStr "tcp") (PStr "0.0.0.0/0") (PInt 22) (PInt 22))
  ∧ ∃ e, parse_rule (PDict [ ("protocol", PStr "icmp"); ("cidr", PStr "0.0.0.0/0");
                             ("icmp_type", PInt 8); ("icmp_code", PInt 256) ])
         = Failed e.
Proof.
  destruct (parse_rule_accepts "tcp" (PStr "0.0.0.0/0") 22 22) as [Hports _].
  destruct (parse_rule_accepts "tcp" (PStr "0.0.0.0/0") 8 256) as [_ [_ Hicmp]].
  split.
  - apply Hports; [by left | lia].
  - apply Hicmp. lia.
Defined.

Lemma foldl_append_map {A B} (f : A -> B) (l : list A) (acc : list B) :
  foldl (fun acc x => acc ++ [f x]) acc l = acc ++ (f <$> l).
Proof.
  revert acc. induction l as [|x l IH]; intros acc; simpl.
  - by rewrite app_nil_r.
  - rewrite IH, <- app_assoc. done.
Qed.

(** X18: [create_initial_security_groups] does nothing for a membership that was
    only updated; for a new membership it keeps the stored groups and appends
    one group per configured group that parses, each for that membership and
    with well-formed rules only. *)
Theorem create_initial_security_groups_spec (config_groups : list PyVal)
    (instance : Z) (created : bool) (table : list SecurityGroup) :
  (created = false ->
     create_initial_security_groups config_groups instance created table = table)
  ∧ (created = true ->
     ∃ new,
       create_initial_security_groups config_groups instance created table
       = table ++ new
       ∧ length new = length (omap valid_group config_groups)
       ∧ Forall (fun sg => sg_membership sg = instance
                           ∧ Forall well_formed (sg_rules sg)) new).
Proof.
  unfold create_initial_security_groups. split; intros ->; [done|]. simpl.
  rewrite (foldl_append_map
             (fun group => mkSecurityGroup (name group) (description group) instance
                             (rules group))).
  eexists. split; [done|]. split.
  - by rewrite length_fmap, default_groups_are_the_valid_groups.
  - apply Forall_fmap. rewrite default_groups_are_the_valid_groups.
    eapply Forall_impl; [apply valid_groups_well_formed|].
    intros group Hgroup. simpl. done.
Qed.

Lemma create_initial_security_groups_spec_witness :
  create_initial_security_groups [ssh_and_ping; bad_port] 7 false [] = []
  ∧ length (create_initial_security_groups [ssh_and_ping; bad_port] 7 true [])
    = 1%nat.
Proof.
  destruct (create_initial_security_groups_spec [ssh_and_ping; bad_port] 7 false [])
    as [Hskip _].
  destruct (create_initial_security_groups_spec [ssh_and_ping; bad_port] 7 true [])
    as [_ Hnew].
  split.
  - by apply Hskip.
  - destruct (Hnew eq_refl) as (new & Hrun & Hlen & _).
    rewrite Hrun. cbn [app]. rewrite Hlen. reflexivity.
Defined.

End DefaultSecurityGroupsFacts.

(** * Properties of the templates and statistics views *)

Module IaasViewsFacts.
Import IaasViews.

Section views_facts.
Variable cloud_filter : User -> Cloud -> bool.

(** X19: [TemplateViewSet.get_queryset] hands out templates of the table only; to
    a user who is not staff only active ones; and for a GET that names a
    cloud only templates with an image in that cloud, none at all when the
    user sees no cloud of that uuid. *)
Theorem templates_are_filtered (request : HttpRequest)
    (templates : list Template) (clouds : list Cloud) (answer : list Template) :
  TemplateViewSet_get_queryset cloud_filter request templates clouds = Ok answer ->
  (∀ t, t ∈ answer -> t ∈ templates)
  ∧ (is_staff (http_user request) = false ->
     ∀ t, t ∈ answer -> is_active t = true)
  ∧ (∀ cu, method request = "GET" ->
       assoc "cloud" (QUERY_PARAMS request) = Some cu ->
       (∀ t, t ∈ answer -> cu ∈ image_clouds t)
       ∧ ((∀ c, c ∈ clouds -> cloud_uuid c = cu ->
             cloud_filter (http_user request) c = false) ->
          answer = [])).
Proof.
  unfold TemplateViewSet_get_queryset.
  set (queryset := if negb (is_staff (http_user request))
                   then filter (fun t => is_active t ≠ false) templates
                   else templates).
  assert (∀ t, t ∈ queryset -> t ∈ templates) as Htable.
  { intros t. unfold queryset. destruct (negb _); [|done].
    rewrite list_elem_of_filter. naive_solver. }
  assert (is_staff (http_user request) = false ->
          ∀ t, t ∈ queryset -> is_active t = true) as Hactive.
  { intros Hstaff t. unfold queryset. rewrite Hstaff. simpl.
    rewrite list_elem_of_filter. intros [Ht _]. by destruct (is_active t). }
  destruct (decide (method request = "GET")) as [Hget | Hget].
  2: { intros [= <-]. repeat split; auto. all: intros; congruence. }
  destruct (assoc "cloud" (QUERY_PARAMS request)) as [cu|] eqn:Hcu.
  2: { intros [= <-]. repeat split; auto. all: intros; congruence. }
  set (matching := filter (fun c => cloud_uuid c = cu)
                     (filter (fun c => cloud_filter (http_user request) c = true) clouds)).
  assert ((∀ c, c ∈ clouds -> cloud_uuid c = cu ->
             cloud_filter (http_user request) c = false) -> matching = []) as Hunseen.
  { intros Hnone. destruct matching as [|c rest] eqn:Hm; [done|]. exfalso.
    assert (c ∈ matching) as Hc by (rewrite Hm; apply list_elem_of_here).
    unfold matching in Hc. rewrite !list_elem_of_filter in Hc.
    destruct Hc as (Hcu' & Hseen & Hc). rewrite (Hnone c Hc Hcu') in Hseen. done. }
  destruct matching as [|cloud [|c2 rest]] eqn:Hm; [| |done].
  - intros [= <-]. split; [by intros t ?%elem_of_nil|].
    split; [by intros _ t ?%elem_of_nil|].
    intros cu' _ [= <-]. split; [by intros t ?%elem_of_nil | done].
  - intros [= <-].
    assert (cloud_uuid cloud = cu) as Hcloud.
    { assert (cloud ∈ matching) as Hc by (rewrite Hm; apply list_elem_of_here).
      unfold matching in Hc. rewrite list_elem_of_filter in Hc. by destruct Hc. }
    assert (∀ t, t ∈ mjoin ((fun t => (fun _ => t) <$>
                                 filter (fun c => c = cloud_uuid cloud) (image_clouds t))
                               <$> queryset)
                 -> t ∈ queryset ∧ cu ∈ image_clouds t) as Hjoin.
    { intros t Ht. apply list_elem_of_join in Ht as (l & Ht & Hl).
      apply list_elem_of_fmap in Hl as (t' & -> & Ht').
      apply list_elem_of_fmap in Ht as (c & -> & Hc).
      apply list_elem_of_filter in Hc as [-> Hc]. by rewrite <- Hcloud. }
    split; [intros t Ht; apply Htable, Hjoin, Ht|].
    split; [intros Hstaff t Ht; by apply Hactive, Hjoin|].
    intros cu' _ [= <-]. split; [intros t Ht; apply Hjoin, Ht|].
    intros Hnone. by specialize (Hunseen Hnone).
Qed.

End views_facts.

Lemma templates_are_filtered_witness :
  mkTemplate "t-1" true ["c-1"]
    ∈ [mkTemplate "t-1" true ["c-1"]; mkTemplate "t-2" false ["c-1"];
       mkTemplate "t-3" true ["c-2"]]
  ∧ is_active (mkTemplate "t-1" true ["c-1"]) = true
  ∧ "c-1" ∈ image_clouds (mkTemplate "t-1" true ["c-1"]).
Proof.
  destruct (templates_are_filtered (fun _ _ => true)
              (mkHttpRequest (mkUser "bob" false) "GET" [("cloud", "c-1")])
              [mkTemplate "t-1" true ["c-1"]; mkTemplate "t-2" false ["c-1"];
               mkTemplate "t-3" true ["c-2"]]
              [mkCloud "c-1" "http://example.com/"; mkCloud "c-2" "http://example.org/"]
              [mkTemplate "t-1" true ["c-1"]] eq_refl)
    as (Htable & Hactive & Hcloud).
  split; [|split].
  - apply Htable, list_elem_of_here.
  - apply (Hactive eq_refl), list_elem_of_here.
  - apply (Hcloud "c-1" eq_refl eq_refl), list_elem_of_here.
Defined.

Section statistics_facts.
Import QuotaStats.
Variable get_resource_stats : Cloud -> string -> gmap string Z.

Lemma py_sum_foldr (l : list Z) : py_sum l = foldr Z.add 0 l.
Proof.
  unfold py_sum.
  assert (∀ a, foldl Z.add a l = a + foldr Z.add 0 l) as Hfold.
  { induction l as [|x l IH]; intros a; simpl; [lia|]. rewrite IH. lia. }
  rewrite Hfold. lia.
Qed.

(** The totals of [_get_quotas_stats] are the sums of the columns over the
    memberships that have a quota row. *)
Lemma quotas_stats_columns (clouds : list Cloud) (links : list Link)
    (project : ResourceQuota -> Z) (field : string) :
  (∀ q, column field q = project q) ->
  py_sum (project <$>
            omap (fun l => resource_quota (link_quotas l)) (links_of clouds links))
  = sum_over resource_quota field (link_quotas <$> links_of clouds links).
Proof.
  intros Hcolumn. rewrite py_sum_foldr. unfold sum_over.
  induction (links_of clouds links) as [|l ls IH]; [done|].
  rewrite fmap_cons. cbn [omap list_omap].
  destruct (resource_quota (link_quotas l)) as [q|]; [|done].
  rewrite !fmap_cons. cbn [foldr]. by rewrite IH, Hcolumn.
Qed.

(** What [get_sum_of_quotas] reads under the key of the backup usage. *)
Lemma backup_usage_reading (memberships : list CloudProjectMembership) :
  ∃ d, get_sum_of_quotas memberships = Ok d
       ∧ default 0 (d !! "backup_storage_usage")
         = sum_over resource_quota_usage "backup_storage" memberships.
Proof.
  unfold get_sum_of_quotas.
  destruct (QuotaStatsFacts.for_memberships_adds memberships ∅) as (d & -> & Hget).
  exists d. split; [done|].
  pose proof (proj1 (Forall_forall _ _)
                (QuotaStatsFacts.contributions_are_columns memberships)
                "backup_storage") as Hcolumns.
  destruct Hcolumns as [_ Husage].
  { unfold fields. do 4 apply list_elem_of_further. apply list_elem_of_here. }
  specialize (Hget "backup_storage_usage"). unfold dd_get in Hget.
  rewrite lookup_empty in Hget. simpl in Hget.
  change ("backup_storage" +:+ "_usage") with "backup_storage_usage" in Husage.
  rewrite Hget, Husage. lia.
Qed.

(** The lookups of a dictionary updated with the four quota totals and
    then with [backups]. *)
Lemma stats_lookups (b v m s q : Z) (stats : gmap string Z) :
  let d := <["backups" := b]>
             (<["vcpu_quota" := v]> (<["memory_quota" := m]>
                (<["storage_quota" := s]> (<["backup_quota" := q]> ∅))) ∪ stats) in
  d !! "backups" = Some b ∧ d !! "vcpu_quota" = Some v ∧ d !! "memory_quota" = Some m
  ∧ d !! "storage_quota" = Some s ∧ d !! "backup_quota" = Some q
  ∧ ∀ k, k ∉ ["backups"; "vcpu_quota"; "memory_quota"; "storage_quota";
              "backup_quota"] ->
         d !! k = stats !! k.
Proof.
  intros d. unfold d. repeat split.
  - by rewrite lookup_insert_eq.
  - rewrite lookup_insert_ne by done. apply lookup_union_Some_l. by simplify_map_eq.
  - rewrite lookup_insert_ne by done. apply lookup_union_Some_l. by simplify_map_eq.
  - rewrite lookup_insert_ne by done. apply lookup_union_Some_l. by simplify_map_eq.
  - rewrite lookup_insert_ne by done. apply lookup_union_Some_l. by simplify_map_eq.
  - intros k Hk. rewrite !not_elem_of_cons in Hk.
    destruct Hk as (? & ? & ? & ? & ? & _).
    rewrite lookup_insert_ne by done. apply lookup_union_r. by simplify_map_eq.
Qed.

(** X20: What a staff user gets for an [auth_url] that some cloud has: 200 and the
    statistics of the backend of the first such cloud, in which the four quota
    totals are the sums of the quota columns over the memberships of the
    clouds with that url (they override backend keys of the same name) and
    [backups] is the sum of the backup storage of their usage rows, zero when
    no membership has one. *)
Theorem resource_stats_for_staff (request : HttpRequest) (all_clouds : list Cloud)
    (links : list Link) (url : string) (cloud : Cloud) (rest : list Cloud) :
  is_staff (http_user request) = true ->
  assoc "auth_url" (QUERY_PARAMS request) = Some url ->
  filter (fun c => auth_url c = url) all_clouds = cloud :: rest ->
  let memberships := link_quotas <$> links_of (cloud :: rest) links in
  ∃ d,
    ResourceStatsView_get get_resource_stats request all_clouds links
    = Ok (mkStatsResponse HTTP_200_OK (Stats d))
    ∧ d !! "backups"
      = Some (sum_over resource_quota_usage "backup_storage" memberships)
    ∧ d !! "vcpu_quota" = Some (sum_over resource_quota "vcpu" memberships)
    ∧ d !! "memory_quota" = Some (sum_over resource_quota "ram" memberships)
    ∧ d !! "storage_quota" = Some (sum_over resource_quota "storage" memberships)
    ∧ d !! "backup_quota"
      = Some (sum_over resource_quota "backup_storage" memberships)
    ∧ ∀ k, k ∉ ["backups"; "vcpu_quota"; "memory_quota"; "storage_quota";
                "backup_quota"] ->
           d !! k = get_resource_stats cloud url !! k.
Proof.
  intros Hstaff Hurl Hclouds memberships.
  destruct (backup_usage_reading memberships) as (full & Hfull & Hbackups).
  pose proof (quotas_stats_columns (cloud :: rest) links vcpu "vcpu"
                (fun q => eq_refl)) as Hvcpu.
  pose proof (quotas_stats_columns (cloud :: rest) links ram "ram"
                (fun q => eq_refl)) as Hram.
  pose proof (quotas_stats_columns (cloud :: rest) links storage "storage"
                (fun q => eq_refl)) as Hstorage.
  pose proof (quotas_stats_columns (cloud :: rest) links backup_storage
                "backup_storage" (fun q => eq_refl)) as Hbackup.
  fold memberships in Hvcpu, Hram, Hstorage, Hbackup.
  rewrite <- Hbackups, <- Hvcpu, <- Hram, <- Hstorage, <- Hbackup.
  eexists. split; [|apply stats_lookups].
  unfold ResourceStatsView_get, _check_user.
  rewrite Hstaff, Hurl, Hclouds. simpl negb. cbv iota.
  fold memberships. rewrite Hfull. reflexivity.
Qed.

Lemma string_app_nil_r (s : string) : s +:+ "" = s.
Proof.
  induction s as [|c u IH]; [done|].
  change (String c u +:+ "") with (String c (u +:+ "")). by rewrite IH.
Qed.

(** X21: Who is turned away: a user who is not staff is refused whatever the
    parameters; staff is answered 400 when the [auth_url] parameter is
    missing and when no cloud has that url. *)
Theorem resource_stats_refusals (request : HttpRequest) (all_clouds : list Cloud)
    (links : list Link) :
  (is_staff (http_user request) = false ->
     ResourceStatsView_get get_resource_stats request all_clouds links
     = Raise PermissionDenied)
  ∧ (is_staff (http_user request) = true ->
     assoc "auth_url" (QUERY_PARAMS request) = None ->
     ∃ message,
       ResourceStatsView_get get_resource_stats request all_clouds links
       = Ok (mkStatsResponse HTTP_400_BAD_REQUEST (Text message)))
  ∧ (∀ url, is_staff (http_user request) = true ->
       assoc "auth_url" (QUERY_PARAMS request) = Some url ->
       Forall (fun c => auth_url c ≠ url) all_clouds ->
       ResourceStatsView_get get_resource_stats request all_clouds links
       = Ok (mkStatsResponse HTTP_400_BAD_REQUEST
               (Text ("No clouds with auth url: " +:+ url)))).
Proof.
  unfold ResourceStatsView_get, _check_user. split; [|split].
  - by intros ->.
  - intros -> ->. simpl. eauto.
  - intros url -> -> Hnone. simpl negb. cbv iota.
    assert (filter (fun c => auth_url c = url) all_clouds = []) as ->.
    { induction Hnone as [|c l Hc _ IH]; [done|].
      by rewrite filter_cons_False. }
    rewrite <- (string_app_nil_r url) at 2. reflexivity.
Qed.

End statistics_facts.

Lemma resource_stats_for_staff_witness :
  ∃ d, ResourceStatsView_get (fun _ _ => {[ "vcpus" := 2 ]})
         (mkHttpRequest (mkUser "alice" true) "GET"
            [("auth_url", "http://example.com/")])
         [mkCloud "c-1" "http://example.com/"; mkCloud "c-2" "http://example.org/"]
         [mkLink "c-1" QuotaStats.full_membership;
          mkLink "c-1" QuotaStats.quota_only_membership;
          mkLink "c-2" QuotaStats.full_membership]
       = Ok (mkStatsResponse HTTP_200_OK (Stats d))
       ∧ d !! "backups" = Some 5 ∧ d !! "vcpu_quota" = Some 6.
Proof.
  destruct (resource_stats_for_staff (fun _ _ => {[ "vcpus" := 2 ]})
              (mkHttpRequest (mkUser "alice" true) "GET"
                 [("auth_url", "http://example.com/")])
              [mkCloud "c-1" "http://example.com/"; mkCloud "c-2" "http://example.org/"]
              [mkLink "c-1" QuotaStats.full_membership;
               mkLink "c-1" QuotaStats.quota_only_membership;
               mkLink "c-2" QuotaStats.full_membership]
              "http://example.com/" (mkCloud "c-1" "http://example.com/") []
              eq_refl eq_refl eq_refl)
    as (d & Hrun & Hbackups & Hvcpu & _).
  exists d. split; [exact Hrun|]. split.
  - rewrite Hbackups. reflexivity.
  - rewrite Hvcpu. reflexivity.
Defined.

Lemma resource_stats_refusals_witness :
  ResourceStatsView_get (fun _ _ => ∅)
    (mkHttpRequest (mkUser "bob" false) "GET" [("auth_url", "http://example.com/")])
    [mkCloud "c-1" "http://example.com/"] []
  = Raise PermissionDenied
  ∧ ResourceStatsView_get (fun _ _ => ∅)
      (mkHttpRequest (mkUser "alice" true) "GET" [("auth_url", "some_random_url")])
      [mkCloud "c-1" "http://example.com/"] []
    = Ok (mkStatsResponse HTTP_400_BAD_REQUEST
            (Text "No clouds with auth url: some_random_url")).
Proof.
  split.
  - apply (resource_stats_refusals (fun _ _ => ∅)
             (mkHttpRequest (mkUser "bob" false) "GET"
                [("auth_url", "http://example.com/")])
             [mkCloud "c-1" "http://example.com/"] []).
    reflexivity.
  - apply (resource_stats_refusals (fun _ _ => ∅)
             (mkHttpRequest (mkUser "alice" true) "GET"
                [("auth_url", "some_random_url")])
             [mkCloud "c-1" "http://example.com/"] []);
      [reflexivity | reflexivity |].
    apply Forall_cons. split; [discriminate | apply Forall_nil_2].
Defined.

Section usage_facts.
Variable visible_aggregates : User -> string -> list AggregateObject.
Variable instances_under : string -> AggregateObject -> list Instance.
Variable Datapoint : Type.
Variable UsageStatsSerializer :
  UsageData -> list (string * string) + (list Instance -> list Datapoint).

Local Abbreviation for_aggregates' :=
  (for_aggregates instances_under Datapoint UsageStatsSerializer).
Local Abbreviation UsageStatsView_get' :=
  (UsageStatsView_get visible_aggregates instances_under Datapoint UsageStatsSerializer).

(** X22: The message for an unknown aggregate has no conversion for its argument:
    a request whose [aggregate] names none of the three models is not
    answered 400, the formatting of the message raises [TypeError]. *)
Theorem usage_stats_unknown_aggregate (request : HttpRequest) (now : Z) (a : string) :
  assoc "aggregate" (QUERY_PARAMS request) = Some a ->
  a ∉ aggregate_models ->
  UsageStatsView_get' request now = Raise TypeError.
Proof.
  intros Ha Hunknown. unfold UsageStatsView_get. rewrite Ha. simpl default.
  rewrite bool_decide_eq_false_2 by done. reflexivity.
Qed.

Lemma for_aggregates_valid request now name get_stats objects acc :
  UsageStatsSerializer (usage_data request now) = inr get_stats ->
  for_aggregates' request now name objects acc
  = inr (acc ++ ((fun o => (aggregate_name o,
                            match instances_under name o with
                            | [] => []
                            | i :: l => get_stats (i :: l)
                            end)) <$> objects)).
Proof.
  intros Hvalid. revert acc.
  induction objects as [|o rest IH]; intros acc; simpl.
  - by rewrite app_nil_r.
  - destruct (instances_under name o) as [|i l].
    + rewrite IH, <- app_assoc. done.
    + rewrite Hvalid, IH, <- app_assoc. done.
Qed.

Lemma for_aggregates_idle request now name objects acc :
  Forall (fun o => instances_under name o = []) objects ->
  for_aggregates' request now name objects acc
  = inr (acc ++ ((fun o => (aggregate_name o, [])) <$> objects)).
Proof.
  intros Hidle. revert acc.
  induction Hidle as [|o rest Ho _ IH]; intros acc; simpl.
  - by rewrite app_nil_r.
  - rewrite Ho, IH, <- app_assoc. done.
Qed.

Lemma for_aggregates_invalid request now name errors objects acc :
  UsageStatsSerializer (usage_data request now) = inl errors ->
  Exists (fun o => instances_under name o ≠ []) objects ->
  for_aggregates' request now name objects acc
  = inl (HTTP_400_BAD_REQUEST, UsageErrors errors).
Proof.
  intros Hinvalid Hbusy. revert acc.
  induction objects as [|o rest IH]; intros acc; [by apply Exists_nil in Hbusy|].
  simpl. destruct (instances_under name o) as [|i l] eqn:Ho.
  - apply IH. apply Exists_cons in Hbusy as [Hbusy | Hbusy]; [|done].
    by rewrite Ho in Hbusy.
  - by rewrite Hinvalid.
Qed.

(** X23: For one of the three aggregate models (customer when none is named):
    with parameters that the serializer accepts the answer is 200 with one
    entry per aggregate object the user sees, in their order, objects without
    instances with no datapoints; the parameters are examined only when some
    object has instances, so that without any the answer is 200 whatever they
    are, and with one and rejected parameters it is 400 with the errors. *)
Theorem usage_stats_entries (request : HttpRequest) (now : Z) :
  let name := default "customer" (assoc "aggregate" (QUERY_PARAMS request)) in
  let objects := aggregate_objects visible_aggregates request in
  name ∈ aggregate_models ->
  (∀ get_stats,
     UsageStatsSerializer (usage_data request now) = inr get_stats ->
     UsageStatsView_get' request now
     = Ok (HTTP_200_OK,
           UsageEntries ((fun o => (aggregate_name o,
                                    match instances_under name o with
                                    | [] => []
                                    | i :: l => get_stats (i :: l)
                                    end)) <$> objects)))
  ∧ (Forall (fun o => instances_under name o = []) objects ->
     UsageStatsView_get' request now
     = Ok (HTTP_200_OK, UsageEntries ((fun o => (aggregate_name o, [])) <$> objects)))
  ∧ (∀ errors,
       UsageStatsSerializer (usage_data request now) = inl errors ->
       Exists (fun o => instances_under name o ≠ []) objects ->
       UsageStatsView_get' request now
       = Ok (HTTP_400_BAD_REQUEST, UsageErrors errors)).
Proof.
  intros name objects Hname. unfold UsageStatsView_get.
  fold name. rewrite bool_decide_eq_true_2 by done. simpl negb. cbv iota.
  fold objects. split; [|split].
  - intros get_stats Hvalid. by rewrite (for_aggregates_valid _ _ _ get_stats).
  - intros Hidle. by rewrite for_aggregates_idle.
  - intros errors Hinvalid Hbusy. by rewrite (for_aggregates_invalid _ _ _ errors).
Qed.

End usage_facts.

Lemma usage_stats_unknown_aggregate_witness :
  UsageStatsView_get (fun _ _ => []) (fun _ _ => []) Z (fun _ => inl [])
    (mkHttpRequest (mkUser "alice" true) "GET" [("aggregate", "cloud")]) 1415912629
  = Raise TypeError.
Proof.
  apply (usage_stats_unknown_aggregate (fun _ _ => []) (fun _ _ => []) Z
           (fun _ => inl [])
           (mkHttpRequest (mkUser "alice" true) "GET" [("aggregate", "cloud")])
           1415912629 "cloud").
  - reflexivity.
  - by_decision.
Defined.

Lemma usage_stats_entries_witness :
  UsageStatsView_get
    (fun _ _ => [mkAggregateObject "p-1" "first"; mkAggregateObject "p-2" "second"])
    (fun _ o => if decide (aggregate_uuid o = "p-1") then [vm] else [])
    Z (fun _ => inr (fun instances => [Z.of_nat (length instances)]))
    (mkHttpRequest (mkUser "alice" true) "GET" [("aggregate", "project")]) 1415912629
  = Ok (HTTP_200_OK, UsageEntries [("first", [1]); ("second", [])]).
Proof.
  destruct (usage_stats_entries
              (fun _ _ => [mkAggregateObject "p-1" "first";
                           mkAggregateObject "p-2" "second"])
              (fun _ o => if decide (aggregate_uuid o = "p-1") then [vm] else [])
              Z (fun _ => inr (fun instances => [Z.of_nat (length instances)]))
              (mkHttpRequest (mkUser "alice" true) "GET" [("aggregate", "project")])
              1415912629) as (Hvalid & _ & _).
  - by_decision.
  - rewrite (Hvalid _ eq_refl). reflexivity.
Defined.

End IaasViewsFacts.

(** * Properties of the security groups of an instance *)

Module SecurityGroupSyncFacts.
Import SecurityGroupSync.

Lemma NoDup_fmap_elem_inj {A B} (f : A -> B) (l : list A) (x y : A) :
  NoDup (f <$> l) -> x ∈ l -> y ∈ l -> f x = f y -> x = y.
Proof.
  induction l as [|a l IH]; intros Hnd Hx Hy Hf; [by apply elem_of_nil in Hx|].
  rewrite fmap_cons in Hnd. apply NoDup_cons in Hnd as [Hnotin Hnd].
  apply elem_of_cons in Hx as [-> | Hx]; apply elem_of_cons in Hy as [-> | Hy].
  - done.
  - exfalso. apply Hnotin. rewrite Hf. by apply list_elem_of_fmap_2.
  - exfalso. apply Hnotin. rewrite <- Hf. by apply list_elem_of_fmap_2.
  - by apply IH.
Qed.

(** The rows that the loop over the stale items leaves. *)
Lemma delete_stale (new : gset Z) (items : list (Z * InstanceSecurityGroup)) st :
  let st' := foldl (fun st item =>
                      if decide (item.1 ∉ new) then delete item.2 st else st)
                   st items in
  next_pk st' = next_pk st ∧ tasks st' = tasks st
  ∧ ∀ r, r ∈ isgs st'
         ↔ r ∈ isgs st
           ∧ Forall (fun item => item.1 ∉ new -> isg_pk r ≠ isg_pk item.2) items.
Proof.
  revert st. induction items as [|item items IH]; intros st; simpl.
  - repeat split; try done. by intros [? _].
  - destruct (IH (if decide (item.1 ∉ new) then delete item.2 st else st))
      as (Hpk & Htasks & Hrows).
    rewrite Hpk, Htasks. split; [by destruct (decide _)|].
    split; [by destruct (decide _)|].
    intros r. rewrite Hrows, Forall_cons.
    destruct (decide (item.1 ∉ new)) as [Hstale | Hkept]; simpl.
    + rewrite list_elem_of_filter. naive_solver.
    + naive_solver.
Qed.

(** The rows that the loop over the missing identifiers adds. *)
Lemma create_missing (uuid : string) (ids : list Z) st :
  let st' := foldl (fun st id => create uuid id st) st ids in
  tasks st' = tasks st
  ∧ security_group_id <$> security_groups uuid st'
    = (security_group_id <$> security_groups uuid st) ++ ids
  ∧ (∀ r, r ∈ isgs st -> r ∈ isgs st')
  ∧ (∀ r, isg_instance r ≠ uuid -> r ∈ isgs st' -> r ∈ isgs st).
Proof.
  revert st. induction ids as [|id ids IH]; intros st; simpl.
  - rewrite app_nil_r. done.
  - destruct (IH (create uuid id st)) as (Htasks & Hids & Hkeep & Hothers).
    rewrite Htasks, Hids. split; [done|]. split; [|split].
    + unfold security_groups, create. simpl.
      rewrite filter_app, filter_cons_True, filter_nil by done.
      rewrite fmap_app, <- app_assoc. done.
    + intros r Hr. apply Hkeep. unfold create. simpl.
      apply elem_of_app. by left.
    + intros r Hne Hr. apply Hothers in Hr; [|done].
      unfold create in Hr. simpl in Hr.
      apply elem_of_app in Hr as [Hr | Hr]; [done|].
      apply list_elem_of_singleton in Hr. subst r. done.
Qed.

(** The dictionary of the old rows, when no two of them have the same
    security group. *)
Lemma old_security_groups_lookup uuid st id isg :
  NoDup (security_group_id <$> security_groups uuid st) ->
  old_security_groups uuid st !! id = Some isg
  ↔ isg ∈ security_groups uuid st ∧ security_group_id isg = id.
Proof.
  intros Hnd. unfold old_security_groups.
  rewrite <- elem_of_list_to_map.
  - rewrite elem_of_reverse, list_elem_of_fmap. naive_solver.
  - rewrite fmap_reverse, <- list_fmap_compose, reverse_Permutation. done.
Qed.

(** X24: The update flow of [post_save] makes the security groups of the instance
    the new ones: afterwards the instance has exactly the groups in
    [new_security_group_ids]; its rows for groups that stay are the rows it
    had; the rows of other instances are untouched; and one
    [push_instance_security_groups] task is appended.  The table is assumed
    to have unique primary keys and at most one row per group for the
    instance. *)
Theorem post_save_syncs_security_groups (uuid backend_flavor_id : string)
    (new : gset Z) (st : Store) :
  NoDup (isg_pk <$> isgs st) ->
  NoDup (security_group_id <$> security_groups uuid st) ->
  let st' := post_save uuid backend_flavor_id false new st in
  (∀ id, id ∈ security_group_id <$> security_groups uuid st' ↔ id ∈ new)
  ∧ (∀ r, r ∈ isgs st -> isg_instance r = uuid -> security_group_id r ∈ new ->
          r ∈ isgs st')
  ∧ (∀ r, isg_instance r ≠ uuid -> r ∈ isgs st' ↔ r ∈ isgs st)
  ∧ tasks st' = tasks st ++ [mkTask "push_instance_security_groups" [uuid] []].
Proof.
  intros Hpks Hids st'.
  set (old := old_security_groups uuid st).
  set (st1 := foldl (fun st item =>
                       if decide (item.1 ∉ new) then delete item.2 st else st)
                    st (map_to_list old)).
  set (st2 := foldl (fun st id => create uuid id st) st1 (elements (new ∖ dom old))).
  assert (st' = enqueue (mkTask "push_instance_security_groups" [uuid] []) st2)
    as Hrun by reflexivity.
  assert (security_groups uuid st' = security_groups uuid st2) as Hgroups
    by by rewrite Hrun.
  assert (isgs st' = isgs st2) as Hisgs by by rewrite Hrun.
  assert (tasks st' = tasks st2 ++ [mkTask "push_instance_security_groups" [uuid] []])
    as Htasks by by rewrite Hrun.
  rewrite Hgroups, Hisgs, Htasks. clearbody st'. clear Hrun Hgroups Hisgs Htasks st'.
  destruct (delete_stale new (map_to_list old) st) as (_ & Htasks1 & Hrows1).
  fold st1 in Htasks1, Hrows1.
  destruct (create_missing uuid (elements (new ∖ dom old)) st1)
    as (Htasks2 & Hids2 & Hkeep2 & Hothers2).
  fold st2 in Htasks2, Hids2, Hkeep2, Hothers2.
  assert (∀ id isg, (id, isg) ∈ map_to_list old
                    ↔ isg ∈ isgs st ∧ isg_instance isg = uuid
                      ∧ security_group_id isg = id) as Hitems.
  { intros id isg. rewrite elem_of_map_to_list.
    unfold old. rewrite old_security_groups_lookup by done.
    unfold security_groups. rewrite list_elem_of_filter. naive_solver. }
  assert (∀ r, r ∈ isgs st -> isg_instance r = uuid ->
               (r ∈ isgs st1 ↔ security_group_id r ∈ new)) as Hsurvive.
  { intros r Hr Hinst. rewrite Hrows1. split.
    - intros [_ Hall].
      destruct (decide (security_group_id r ∈ new)) as [|Hstale]; [done|].
      exfalso.
      apply (proj1 (Forall_forall _ _) Hall (security_group_id r, r)); try done.
      by apply Hitems.
    - intros Hnew. split; [done|]. apply Forall_forall.
      intros [id isg] Hitem Hstale Hpk. simpl in *.
      apply Hitems in Hitem as (Hisg & _ & <-).
      assert (r = isg) as -> by by apply (NoDup_fmap_elem_inj isg_pk (isgs st)).
      done. }
  assert (∀ r, isg_instance r ≠ uuid -> (r ∈ isgs st1 ↔ r ∈ isgs st)) as Hforeign.
  { intros r Hne. rewrite Hrows1. split; [by intros [? _]|].
    intros Hr. split; [done|]. apply Forall_forall.
    intros [id isg] Hitem _ Hpk. simpl in *.
    apply Hitems in Hitem as (Hisg & Hinst & _).
    assert (r = isg) as -> by by apply (NoDup_fmap_elem_inj isg_pk (isgs st)).
    done. }
  split; [|split; [|split]].
  - intros id. rewrite Hids2, elem_of_app, elem_of_elements, elem_of_difference.
    rewrite list_elem_of_fmap. unfold security_groups at 1.
    setoid_rewrite list_elem_of_filter.
    split.
    + intros [(r & -> & Hinst & Hr) | [Hnew _]]; [|done].
      apply Hsurvive; try done. apply Hrows1 in Hr. by destruct Hr.
    + intros Hnew.
      destruct (decide (id ∈ dom old)) as [Hold | Hfresh]; [|by right].
      left. apply elem_of_dom in Hold as [isg Hisg].
      apply elem_of_map_to_list, Hitems in Hisg as (Hisg & Hinst & <-).
      exists isg. repeat split; try done. by apply Hsurvive.
  - intros r Hr Hinst Hnew. apply Hkeep2. by apply Hsurvive.
  - intros r Hne. rewrite <- (Hforeign r Hne). split.
    + by apply Hothers2.
    + apply Hkeep2.
  - by rewrite Htasks2, Htasks1.
Qed.

Lemma post_save_syncs_security_groups_witness :
  2 ∈ security_group_id
        <$> security_groups "i-1" (post_save "i-1" "f-1" false {[2; 5]} sample_store)
  ∧ mkInstanceSecurityGroup 3 "i-2" 1
      ∈ isgs (post_save "i-1" "f-1" false {[2; 5]} sample_store).
Proof.
  destruct (post_save_syncs_security_groups "i-1" "f-1" {[2; 5]} sample_store)
    as (Hids & _ & Hothers & _).
  - by_decision.
  - by_decision.
  - split.
    + apply Hids. by_decision.
    + apply Hothers; [discriminate | by_decision].
Defined.

(** The run behind the witness: group 1 is removed, group 2 keeps its row,
    group 5 gets a new row, the other instance keeps its row. *)
Example post_save_sample :
  isgs (post_save "i-1" "f-1" false {[2; 5]} sample_store)
  = [ mkInstanceSecurityGroup 2 "i-1" 2;
      mkInstanceSecurityGroup 3 "i-2" 1;
      mkInstanceSecurityGroup 4 "i-1" 5 ].
Proof. vm_compute. reflexivity. Qed.

End SecurityGroupSyncFacts.

(** * Properties of the IP address field *)

Module CoreSerializersFacts.
Import DefaultSecurityGroups CoreSerializers.

Section ips_field_facts.
Variable ipv4_re : PyVal -> bool.

(** X25: Round trip: what [to_native] renders of a stored value, [None] or a
    string that the expression matches, [from_native] reads back as that
    value. *)
Theorem ips_field_round_trip (value : option string) :
  (∀ s, value = Some s -> ipv4_re (PStr s) = true) ->
  IPsField_from_native ipv4_re (IPsField_to_native value) = Valid (stored value).
Proof.
  intros Hmatch. destruct value as [s|]; [|reflexivity].
  unfold IPsField_from_native, validate_ipv4_address_within_list. simpl.
  by rewrite (Hmatch s eq_refl).
Qed.

(** X26: What [from_native] lets through: [None] for the empty values, the single
    element of a list when the expression matches it, and nothing else; a
    list of two or more addresses and a value that is no list are refused. *)
Theorem ips_field_from_native_accepts (value result : PyVal) :
  IPsField_from_native ipv4_re value = Valid result ->
  (is_empty_value value = true ∧ result = PNone)
  ∨ (value = PList [result] ∧ ipv4_re result = true).
Proof.
  unfold IPsField_from_native, validate_ipv4_address_within_list.
  destruct (is_empty_value value) eqn:Hempty.
  - intros [= <-]. by left.
  - destruct value as [| | | |l|]; try done.
    destruct l as [|v [|v' l]]; try done.
    destruct (ipv4_re v) eqn:Hre; [|done].
    intros [= <-]. by right.
Qed.

End ips_field_facts.

Lemma ips_field_round_trip_witness :
  IPsField_from_native (fun _ => true) (IPsField_to_native (Some "10.0.0.1"))
  = Valid (PStr "10.0.0.1").
Proof.
  apply (ips_field_round_trip (fun _ => true) (Some "10.0.0.1")). reflexivity.
Defined.

Lemma ips_field_from_native_accepts_witness :
  (is_empty_value (PList [PStr "10.0.0.1"]) = true ∧ PStr "10.0.0.1" = PNone)
  ∨ (PList [PStr "10.0.0.1"] = PList [PStr "10.0.0.1"] ∧ true = true).
Proof.
  apply (ips_field_from_native_accepts (fun _ => true)
           (PList [PStr "10.0.0.1"]) (PStr "10.0.0.1")).
  reflexivity.
Defined.

End CoreSerializersFacts.

(** * Properties of the license statistics *)

Module LicenseStatsFacts.
Import IaasViews LicenseStats.

Section stats_facts.
Variable V : Type.
Variable values_annotate : list string -> list (gmap string V).

(** The dictionary after the loop, for any list of items whose database
    names are distinct, whose output names are distinct, and in which no
    database name is an output name. *)
Lemma replace_names_lookup (l : list (string * string)) (d : gmap string V) :
  NoDup l.*1 -> NoDup l.*2 -> (∀ k, k ∈ l.*1 -> k ∈ l.*2 -> False) ->
  (∀ k, k ∈ l.*1 -> replace_names V l d !! k = None)
  ∧ (∀ db out v, (db, out) ∈ l -> d !! db = Some v ->
       replace_names V l d !! out = Some v)
  ∧ (∀ k, k ∉ l.*1 -> (∀ db, (db, k) ∈ l -> d !! db = None) ->
       replace_names V l d !! k = d !! k).
Proof.
  revert d. induction l as [|[db0 out0] l IH]; intros d Hdb Hout Hdisj.
  { repeat split; try done. by intros k ?%elem_of_nil.
    by intros db out v ?%elem_of_nil. }
  rewrite fmap_cons in Hdb, Hout. simpl in Hdb, Hout.
  apply NoDup_cons in Hdb as [Hdb0 Hdb]. apply NoDup_cons in Hout as [Hout0 Hout].
  assert (∀ k, k ∈ l.*1 -> k ∈ l.*2 -> False) as Hdisj'.
  { intros k H1 H2. apply (Hdisj k); rewrite fmap_cons; by apply list_elem_of_further. }
  assert (db0 ≠ out0) as Hne0.
  { intros ->. apply (Hdisj out0); rewrite fmap_cons; apply list_elem_of_here. }
  assert (db0 ∉ l.*2) as Hdb0out.
  { intros H. apply (Hdisj db0); rewrite fmap_cons;
      [apply list_elem_of_here | by apply list_elem_of_further]. }
  assert (out0 ∉ l.*1) as Hout0db.
  { intros H. apply (Hdisj out0); rewrite fmap_cons;
      [by apply list_elem_of_further | apply list_elem_of_here]. }
  assert (∀ db out, (db, out) ∈ l -> db ≠ db0 ∧ db ≠ out0 ∧ out ≠ out0 ∧ out ≠ db0)
    as Hpairs.
  { intros db out Hin.
    assert (db ∈ l.*1) by (by apply (list_elem_of_fmap_2 fst l (db, out))).
    assert (out ∈ l.*2) by (by apply (list_elem_of_fmap_2 snd l (db, out))).
    repeat split; congruence. }
  unfold replace_names. cbn [foldl]. fold (replace_names V l).
  set (d' := replace_name V d (db0, out0)).
  destruct (IH d' Hdb Hout Hdisj') as (IH1 & IH2 & IH3).
  assert (∀ k, k ≠ db0 -> k ≠ out0 -> d' !! k = d !! k) as Hother.
  { intros k H1 H2. unfold d', replace_name. simpl.
    destruct (d !! db0); [|done].
    by rewrite lookup_delete_ne, lookup_insert_ne. }
  assert (d' !! db0 = None) as Hgone.
  { unfold d', replace_name. simpl.
    destruct (d !! db0) eqn:H0; [|done]. by rewrite lookup_delete_eq. }
  assert (replace_names V l d' !! db0 = None) as Hgone'.
  { rewrite IH3; [done | done |].
    intros db Hin. exfalso. apply Hdb0out.
    by apply (list_elem_of_fmap_2 snd l (db, db0)). }
  split; [|split].
  - intros k Hk. rewrite fmap_cons in Hk. apply elem_of_cons in Hk as [-> | Hk]; auto.
  - intros db out v Hin Hv. apply elem_of_cons in Hin as [[= -> ->] | Hin].
    + rewrite IH3; [| done |].
      * unfold d', replace_name. simpl. rewrite Hv.
        by rewrite lookup_delete_ne, lookup_insert_eq.
      * intros db Hin. exfalso. apply Hout0.
        by apply (list_elem_of_fmap_2 snd l (db, out0)).
    + destruct (Hpairs db out Hin) as (? & ? & _).
      apply (IH2 db out v Hin). by rewrite Hother.
  - intros k Hk Hnone. rewrite fmap_cons, not_elem_of_cons in Hk.
    destruct Hk as [Hk0 Hk]. simpl in Hk0.
    destruct (decide (k = out0)) as [-> | Hkout].
    + assert (d !! db0 = None) as H0 by (apply Hnone, list_elem_of_here).
      rewrite IH3; [| done |].
      * unfold d', replace_name. simpl. by rewrite H0.
      * intros db Hin. exfalso. apply Hout0.
        by apply (list_elem_of_fmap_2 snd l (db, out0)).
    + rewrite IH3; [by apply Hother | done |].
      intros db Hin. destruct (Hpairs db k Hin) as (? & ? & _).
      rewrite Hother by done. by apply Hnone, list_elem_of_further.
Qed.

(** X27: The renaming of the database paths of a row does not depend on the order
    in which the dictionary of the names is iterated: no database path is
    left as a key, the value found under a database path is found under its
    output name, and every other key (such as [count]) keeps its value. *)
Theorem license_stats_renaming (items : list (string * string)) (d : gmap string V) :
  items ≡ₚ name_replace_map ->
  (∀ db out, (db, out) ∈ name_replace_map -> replace_names V items d !! db = None)
  ∧ (∀ db out v, (db, out) ∈ name_replace_map -> d !! db = Some v ->
       replace_names V items d !! out = Some v)
  ∧ (∀ k, k ∉ name_replace_map.*1 ->
       (∀ db, (db, k) ∈ name_replace_map -> d !! db = None) ->
       replace_names V items d !! k = d !! k)
  ∧ replace_names V items d = replace_names V name_replace_map d.
Proof.
  intros Hperm.
  assert (NoDup name_replace_map.*1) as Hdb by by_decision.
  assert (NoDup name_replace_map.*2) as Hout by by_decision.
  assert (∀ k, k ∈ name_replace_map.*1 -> k ∈ name_replace_map.*2 -> False) as Hdisj.
  { assert (Forall (fun k => k ∉ name_replace_map.*2) name_replace_map.*1) as Hall
      by by_decision.
    intros k Hk. by apply (proj1 (Forall_forall _ _) Hall k Hk). }
  destruct (replace_names_lookup name_replace_map d Hdb Hout Hdisj) as (M1 & M2 & M3).
  destruct (replace_names_lookup items d) as (H1 & H2 & H3).
  { by rewrite Hperm. }
  { by rewrite Hperm. }
  { intros k. rewrite Hperm. apply Hdisj. }
  assert (∀ db out, (db, out) ∈ name_replace_map -> db ∈ name_replace_map.*1) as Hfst.
  { intros db out Hin. by apply (list_elem_of_fmap_2 fst _ (db, out)). }
  assert (∀ k, k ∉ name_replace_map.*1 ->
               (∀ db, (db, k) ∈ name_replace_map -> d !! db = None) ->
               replace_names V items d !! k = d !! k) as H3'.
  { intros k Hk Hnone. apply H3; [by rewrite Hperm|].
    intros db Hin. apply Hnone. by rewrite <- Hperm. }
  split; [|split; [|split]].
  - intros db out Hin. apply H1. rewrite Hperm. by apply (Hfst db out).
  - intros db out v Hin Hv. apply (H2 db out v); [by rewrite Hperm | done].
  - exact H3'.
  - apply map_eq. intros k.
    destruct (decide (k ∈ name_replace_map.*1)) as [Hk | Hk].
    { rewrite M1 by done. apply H1. by rewrite Hperm. }
    destruct (decide (Exists (fun p => p.2 = k ∧ is_Some (d !! p.1)) name_replace_map))
      as [Hsome | Hnone].
    + apply Exists_exists in Hsome as ([db out] & Hin & <- & [v Hv]). simpl in *.
      rewrite (M2 db out v Hin Hv). apply (H2 db out v); [by rewrite Hperm | done].
    + assert (∀ db, (db, k) ∈ name_replace_map -> d !! db = None) as Hfree.
      { intros db Hin. destruct (d !! db) eqn:Hv; [|done].
        exfalso. apply Hnone. apply Exists_exists. exists (db, k).
        simpl. rewrite Hv. eauto. }
      by rewrite H3', M3.
Qed.

Lemma for_aggregate_parameters_known params acc :
  Forall (fun p => is_Some (assoc p aggregate_parameter_to_field_map)) params ->
  for_aggregate_parameters V params acc
  = inr (acc ++ mjoin ((fun p => default [] (assoc p aggregate_parameter_to_field_map))
                         <$> params)).
Proof.
  intros Hknown. revert acc.
  induction Hknown as [|p rest [fs Hp] _ IH]; intros acc;
    cbn [for_aggregate_parameters fmap list_fmap mjoin list_join].
  - by rewrite app_nil_r.
  - rewrite Hp, IH. cbn [default from_option]. by rewrite app_assoc.
Qed.

Lemma for_aggregate_parameters_unknown before p after acc :
  Forall (fun p => is_Some (assoc p aggregate_parameter_to_field_map)) before ->
  assoc p aggregate_parameter_to_field_map = None ->
  for_aggregate_parameters V (before ++ p :: after) acc
  = inl (Ok (HTTP_400_BAD_REQUEST,
             LicenseText ("Licenses statistics can not be aggregated by " +:+ p))).
Proof.
  intros Hknown Hp. revert acc.
  induction Hknown as [|q rest [fs Hq] _ IH]; intros acc;
    cbn [for_aggregate_parameters app].
  - rewrite Hp. rewrite <- (IaasViewsFacts.string_app_nil_r p) at 2. reflexivity.
  - by rewrite Hq, IH.
Qed.

(** X28: The aggregate parameters of the license statistics: when each of them is
    one of project, project_group, type and name, the answer is 200 with the
    rows grouped by the fields of the parameters, in the order given and
    repeated when a parameter is repeated, each row renamed; otherwise it is
    400 with the first parameter that is none of the four, and parameters
    after it are not looked at. *)
Theorem license_stats_aggregate_parameters (params : list string)
    (items : list (string * string)) :
  (Forall (fun p => p ∈ ["project"; "project_group"; "type"; "name"]) params ->
   stats V values_annotate params items
   = Ok (HTTP_200_OK,
         LicenseRows
           (replace_names V items
              <$> values_annotate
                    (mjoin ((fun p => default [] (assoc p aggregate_parameter_to_field_map))
                              <$> params)))))
  ∧ (∀ before p after,
       params = before ++ p :: after ->
       Forall (fun p => p ∈ ["project"; "project_group"; "type"; "name"]) before ->
       p ∉ ["project"; "project_group"; "type"; "name"] ->
       stats V values_annotate params items
       = Ok (HTTP_400_BAD_REQUEST,
             LicenseText ("Licenses statistics can not be aggregated by " +:+ p))).
Proof.
  assert (∀ p, p ∈ ["project"; "project_group"; "type"; "name"]
               ↔ is_Some (assoc p aggregate_parameter_to_field_map)) as Hkeys.
  { intros p. rewrite !elem_of_cons, elem_of_nil.
    unfold aggregate_parameter_to_field_map. cbn [assoc].
    repeat (destruct (decide _) as [<- | ?]; [split; eauto; fail|]).
    split; [naive_solver | by intros [? [=]]]. }
  unfold stats. split.
  - intros Hknown. rewrite for_aggregate_parameters_known; [done|].
    eapply Forall_impl; [exact Hknown|]. intros p. apply Hkeys.
  - intros before p after -> Hknown Hp.
    rewrite for_aggregate_parameters_unknown; [done | |].
    + eapply Forall_impl; [exact Hknown|]. intros q. apply Hkeys.
    + destruct (assoc p aggregate_parameter_to_field_map) eqn:Hassoc; [|done].
      exfalso. apply Hp, Hkeys. by rewrite Hassoc.
Qed.

End stats_facts.

Lemma license_stats_renaming_witness :
  replace_names Z (reverse name_replace_map)
    {[ "template_license__name" := 7; "count" := 3 ]} !! "name" = Some 7
  ∧ replace_names Z (reverse name_replace_map)
      {[ "template_license__name" := 7; "count" := 3 ]} !! "count" = Some 3.
Proof.
  destruct (license_stats_renaming Z (reverse name_replace_map)
              {[ "template_license__name" := 7; "count" := 3 ]})
    as (_ & Hmoved & Hkept & _).
  - apply reverse_Permutation.
  - split.
    + apply (Hmoved "template_license__name" "name" 7); [by_decision | reflexivity].
    + rewrite Hkept; [reflexivity | by_decision |].
      intros db Hin. exfalso.
      assert ("count" ∉ name_replace_map.*2) as Hfree by by_decision.
      apply Hfree. by apply (list_elem_of_fmap_2 snd _ (db, "count")).
Defined.

Lemma license_stats_aggregate_parameters_witness :
  stats Z (fun fields => [ {[ "count" := Z.of_nat (length fields) ]} ])
    ["type"; "cloud"; "name"] name_replace_map
  = Ok (HTTP_400_BAD_REQUEST,
        LicenseText "Licenses statistics can not be aggregated by cloud").
Proof.
  destruct (license_stats_aggregate_parameters Z
              (fun fields => [ {[ "count" := Z.of_nat (length fields) ]} ])
              ["type"; "cloud"; "name"] name_replace_map) as [_ Hrefused].
  apply (Hrefused ["type"] "cloud" ["name"]); [reflexivity | by_decision | by_decision].
Defined.

End LicenseStatsFacts.
